(** * naivecoin-golang: ledger, mempool and fork choice

    A shallow embedding of the packages [utils], [transactions], [txpool],
    [blockchain] and [wallet] of the node and of the message handlers of
    [p2p], followed by the properties of the specification that concern
    them and by further properties of the code.

    Conventions of the embedding.
    - Go's [int] and [uint64] are [Z]; arithmetic that can leave the range
      is wrapped explicitly ([int_wrap], [uint64_wrap]).
    - Go's [float64] is the kernel's binary64 type [float]; [+], [-], [==]
      and [<] are the IEEE operations.
    - A Go function returning [(T, error)] returns a pair [T * option error].
    - A run-time panic (index out of range, negative repeat count, nil
      pointer) is the [None] of an [option] around the result.
    - Package-level variables are the fields of an explicit [State].
    - Library calls that are not reimplemented here (shortest float
      rendering, [math.Pow], float to integer conversion, base58, hex
      decoding, ASN.1, ECDSA) are the fields of the class [GoLib]; those
      of the wallet (the key file, the multiples of the base point, the
      encoding of a point, signing, ASN.1 and base58 encoding) are the
      fields of the class [WalletLib].  A field whose result is an
      [option] has [None] where the library panics.
    - [VerifySignature] has its nil dereference.  [validateTxIn] and the
      functions above it ([ValidateTransaction], the validation of blocks
      and chains, the pool) are embedded on the runs in which
      [VerifySignature] returns: where it faults, [validateTxIn] is
      [false] here.  The wallet has its panics throughout.
    - A loop without a bound (the proof of work) takes a number of rounds
      after which it is cut off. *)

From Stdlib Require Import ZArith Lia Floats Reals Lra.
From Stdlib Require Import Strings.String Strings.Ascii DecimalString.
From Stdlib Require DecimalPos DecimalFacts.
From Bignums Require Import BigZ.
From stdpp Require Import base tactics option list strings gmap.

Local Open Scope Z_scope.

(** ** SHA-256 ([crypto/sha256]), on byte lists, with a lowercase hex digest *)

Module SHA256.

Definition w32 (x : Z) : Z := x mod 2 ^ 32.

Definition add32 (x y : Z) : Z := w32 (x + y).

Definition rotr (n x : Z) : Z :=
  Z.lor (Z.shiftr x n) (w32 (Z.shiftl x (32 - n))).

Definition Ch (x y z : Z) : Z :=
  Z.lxor (Z.land x y) (Z.land (Z.lxor x (2 ^ 32 - 1)) z).

Definition Maj (x y z : Z) : Z :=
  Z.lxor (Z.lxor (Z.land x y) (Z.land x z)) (Z.land y z).

Definition Sigma0 (x : Z) : Z := Z.lxor (Z.lxor (rotr 2 x) (rotr 13 x)) (rotr 22 x).
Definition Sigma1 (x : Z) : Z := Z.lxor (Z.lxor (rotr 6 x) (rotr 11 x)) (rotr 25 x).
Definition sigma0 (x : Z) : Z := Z.lxor (Z.lxor (rotr 7 x) (rotr 18 x)) (Z.shiftr x 3).
Definition sigma1 (x : Z) : Z := Z.lxor (Z.lxor (rotr 17 x) (rotr 19 x)) (Z.shiftr x 10).

(** The round constants and the initial state are the first 32 bits of the
    fractional parts of the cube roots of the first 64 primes and of the
    square roots of the first 8. *)
Definition is_prime (n : Z) : bool :=
forallb (fun d => negb (n mod Z.of_nat d =? 0)) (seq 2 (Z.to_nat (Z.sqrt n) - 1)).

Definition primes : list Z :=
Eval vm_compute in List.filter is_prime (map Z.of_nat (seq 2 310)).

Fixpoint cube_root_bits (k : nat) (n r : Z) : Z :=
match k with
| O => r
| S k' =>
    let c := r + 2 ^ Z.of_nat k' in
    if c * c * c <=? n then cube_root_bits k' n c else cube_root_bits k' n r
end.

Definition K : list Z :=
Eval vm_compute in map (fun p => w32 (cube_root_bits 36 (p * 2 ^ 96) 0)) primes.

Definition H0 : list Z :=
Eval vm_compute in map (fun p => w32 (Z.sqrt (p * 2 ^ 64))) (firstn 8 primes).

(** The message followed by the bit 1, zeros up to 56 modulo 64, and the
    bit length on eight bytes, big-endian. *)
Definition be_bytes (n : nat) (x : Z) : list Z :=
  map (fun i => Z.shiftr x (8 * Z.of_nat i) mod 256) (rev (seq 0 n)).

Definition pad (msg : list Z) : list Z :=
  let len := Z.of_nat (length msg) in
  let zeros := Z.to_nat ((55 - len) mod 64) in
  msg ++ [0x80] ++ repeat 0 zeros ++ be_bytes 8 (8 * len).

Fixpoint be_words (n : nat) (bs : list Z) : list Z :=
  match n, bs with
  | S n', a :: b :: c :: d :: bs' =>
      (Z.shiftl a 24 + Z.shiftl b 16 + Z.shiftl c 8 + d) :: be_words n' bs'
  | _, _ => []
  end.

(** The message schedule, most recent word first. *)
Fixpoint schedule (n : nat) (ws : list Z) : list Z :=
  match n with
  | O => ws
  | S n' =>
      let w := add32 (add32 (sigma1 (nth 1 ws 0)) (nth 6 ws 0))
                     (add32 (sigma0 (nth 14 ws 0)) (nth 15 ws 0)) in
      schedule n' (w :: ws)
  end.

Definition round (s : list Z) (kw : Z * Z) : list Z :=
  match s with
  | [a; b; c; d; e; f; g; h] =>
      let t1 := add32 (add32 (add32 h (Sigma1 e)) (add32 (Ch e f g) kw.1)) kw.2 in
      let t2 := add32 (Sigma0 a) (Maj a b c) in
      [add32 t1 t2; a; b; c; add32 d t1; e; f; g]
  | _ => s
  end.

Definition compress (h : list Z) (block : list Z) : list Z :=
  let ws := rev (schedule 48 (rev (be_words 16 block))) in
  let s := fold_left round (combine K ws) h in
  map (fun p : Z * Z => add32 p.1 p.2) (combine h s).

Fixpoint blocks (n : nat) (h : list Z) (bs : list Z) : list Z :=
  match n with
  | O => h
  | S n' => blocks n' (compress h (firstn 64 bs)) (skipn 64 bs)
  end.

Definition digest (msg : list Z) : list Z :=
  let p := pad msg in
  flat_map (be_bytes 4) (blocks (length p / 64) H0 p).

Definition hex_digit (d : Z) : ascii :=
  ascii_of_N (Z.to_N (if d <? 10 then 48 + d else 87 + d)).

Fixpoint hex_of_bytes (bs : list Z) : string :=
  match bs with
  | [] => EmptyString
  | b :: bs' => String (hex_digit (b / 16)) (String (hex_digit (b mod 16)) (hex_of_bytes bs'))
  end.

Definition bytes_of_string (s : string) : list Z :=
  map (fun c => Z.of_N (N_of_ascii c)) (list_ascii_of_string s).

Definition sum256_hex (s : string) : string :=
  hex_of_bytes (digest (bytes_of_string s)).

End SHA256.

(** ** Renderings of [fmt.Sprintf] *)

(** [%d] and [fmt.Sprint] on an [int]: decimal digits, [-] for negatives. *)
Definition fmt_d (z : Z) : string := NilZero.string_of_int (Z.to_int z).

Definition round_half_even (n d : Z) : Z :=
  let q := n / d in
  let r := n mod d in
  if 2 * r <? d then q
  else if d <? 2 * r then q + 1
  else if Z.even q then q else q + 1.

Fixpoint zeros (n : nat) : string :=
  match n with
  | O => EmptyString
  | S n' => String "0" (zeros n')
  end.

Definition pad6 (s : string) : string := zeros (6 - String.length s) +:+ s.

(** [%f] on a [float64]: the exact value rounded to six decimals, ties to
    even. *)
Definition fmt_f (x : float) : string :=
  match Prim2SF x with
  | S754_nan => "NaN"
  | S754_infinity s => if s then "-Inf" else "+Inf"
  | S754_zero s => (if s then "-" else "") +:+ "0.000000"
  | S754_finite s m e =>
      let num := Z.pos m * 10 ^ 6 in
      let n := if 0 <=? e then num * 2 ^ e else round_half_even num (2 ^ (- e)) in
      (if s then "-" else "") +:+ fmt_d (n / 10 ^ 6) +:+ "." +:+ pad6 (fmt_d (n mod 10 ^ 6))
  end.

(** [%v] on a slice: the elements between brackets, separated by spaces. *)
Definition fmt_slice {A} (f : A -> string) (l : list A) : string :=
  "[" +:+ String.concat " " (map f l) +:+ "]".

(** ** Library calls kept abstract *)

Definition error := string.

(** [nil] for a pointer is [None].  [asn1_Unmarshal] gives the fields [R] and
    [S] of the target struct after the call and whether [err == nil];
    [elliptic_Unmarshal] gives the coordinates, [nil] on a malformed key.
    [ecdsa_Verify] takes the coordinates as [hexToPublicKey] leaves them,
    the hash and the integers [R] and [S]; its [None] is a nil coordinate
    dereferenced inside the library. *)
Class GoLib := {
  fmt_g : float -> string;
  math_Pow : float -> float -> float;
  uint64_of_float : float -> Z;
  int_of_float : float -> Z;
  base58_Decode : string -> list Z;
  hex_DecodeString : string -> list Z;
  elliptic_Unmarshal : list Z -> option Z * option Z;
  asn1_Unmarshal : list Z -> option Z * option Z * bool;
  ecdsa_Verify : option Z * option Z -> list Z -> Z -> Z -> option bool;
  asn1_Unmarshal_nil : forall bs r s,
    asn1_Unmarshal bs = (r, s, true) -> is_Some r /\ is_Some s
}.

(** ** Machine integers *)

Definition uint64_wrap (z : Z) : Z := z mod 2 ^ 64.

Definition int_wrap (z : Z) : Z := (z + 2 ^ 63) mod 2 ^ 64 - 2 ^ 63.

(** [l[i]] on a slice: a panic when [i] is out of range. *)
Definition index {A} (l : list A) (i : Z) : option A :=
  if i <? 0 then None else l !! Z.to_nat i.

(** ** Package [transactions]: data *)

Definition coinBaseAmount : float := 50%float.

Record TxIn := mkTxIn {
  TxOutId : string;
  TxOutIndex : Z;
  Signature : string
}.

Abbreviation TxInCollection := (list TxIn).

Record TxOut := mkTxOut {
  Address : string;
  Amount : float
}.

Abbreviation TxOutCollection := (list TxOut).

Record UnspentTxOut := mkUnspentTxOut {
  UTxOutId : string;
  UTxOutIndex : Z;
  UAddress : string;
  UAmount : float
}.

Record Transaction := mkTransaction {
  Id : string;
  TxIns : TxInCollection;
  TxOuts : TxOutCollection
}.

(** The zero values [TxIn{}] and [UnspentTxOut{}]. *)
Definition TxIn_zero : TxIn := mkTxIn "" 0 "".
Definition UnspentTxOut_zero : UnspentTxOut := mkUnspentTxOut "" 0 "" 0%float.

Section Utils.
Context `{GoLib}.

(** [utils.Hash]: the SHA-256 of the [%v] rendering of its argument, in
    hex.  The argument here is that rendering; a string renders as itself. *)
Definition utils_Hash (rendered : string) : string := SHA256.sum256_hex rendered.

Definition hexDict (c : ascii) : string :=
  match c with
  | "0"%char => "0000" | "1"%char => "0001" | "2"%char => "0010"
  | "3"%char => "0011" | "4"%char => "0100" | "5"%char => "0101"
  | "6"%char => "0110" | "7"%char => "0111" | "8"%char => "1000"
  | "9"%char => "1001" | "a"%char => "1010" | "b"%char => "1011"
  | "c"%char => "1100" | "d"%char => "1101" | "e"%char => "1110"
  | "f"%char => "1111"
  | _ => ""
  end.

(** [strings.ToLower] on one byte; bytes that are not ASCII letters have no
    entry in [hexDict] before or after it. *)
Definition toLower (c : ascii) : ascii :=
  let n := N_of_ascii c in
  if ((65 <=? n) && (n <=? 90))%N then ascii_of_N (n + 32) else c.

Fixpoint HexToBin (hex : string) : string :=
  match hex with
  | EmptyString => EmptyString
  | String c rest => hexDict (toLower c) +:+ HexToBin rest
  end.

Definition hexToPublicKey (publicKey : string) : option Z * option Z :=
  let publicKeyBytes := hex_DecodeString publicKey in
  elliptic_Unmarshal publicKeyBytes.

(** [VerifySignature]; [None] is a nil dereference inside [ecdsa.Verify]:
    of [esig.R] or [esig.S], which the test of [err] is there to prevent,
    or of a coordinate of the key, which [hexToPublicKey] passes on as
    [elliptic.Unmarshal] returns it. *)
Definition VerifySignature (hash sig publicKeyHex : string) : option bool :=
  let publicKey := hexToPublicKey publicKeyHex in
  let hashBytes := hex_DecodeString hash in
  let sigBytes := hex_DecodeString sig in
  let '(esigR, esigS, errIsNil) := asn1_Unmarshal sigBytes in
  if errIsNil then
    match esigR, esigS with
    | Some r, Some s => ecdsa_Verify publicKey hashBytes r s
    | _, _ => None
    end
  else Some false.

Definition Base58Decode (base58str : string) : string :=
  SHA256.hex_of_bytes (base58_Decode base58str).

End Utils.

(** ** Package [transactions] *)

Section Transactions.
Context `{GoLib}.

Definition TxIn_Content (t : TxIn) : string :=
  TxOutId t +:+ ";" +:+ fmt_d (TxOutIndex t).

Definition TxInCollection_Content (t : TxInCollection) : string :=
  fold_left (fun result x => result +:+ TxIn_Content x) t "".

Definition TxOut_Content (t : TxOut) : string :=
  Address t +:+ ";" +:+ fmt_f (Amount t).

Definition TxOutCollection_Content (t : TxOutCollection) : string :=
  fold_left (fun result x => result +:+ TxOut_Content x) t "".

Definition GetTransactionId (transaction : Transaction) : string :=
  utils_Hash (TxInCollection_Content (TxIns transaction) +:+ ";" +:+
        TxOutCollection_Content (TxOuts transaction)).

(** The test of the two search loops, [v.TxOutId == id && v.TxOutIndex == ix]. *)
Definition refersTo (txOutId : string) (txOutIndex : Z) (v : UnspentTxOut) : bool :=
  bool_decide (UTxOutId v = txOutId) && bool_decide (UTxOutIndex v = txOutIndex).

(** [validateTxIn], on the calls in which [VerifySignature] returns; where
    [VerifySignature] faults the value here is [false]. *)
Definition validateTxIn (txIn : TxIn) (transaction : Transaction)
    (unspentTxOuts_ : list UnspentTxOut) : bool :=
  match List.find (refersTo (TxOutId txIn) (TxOutIndex txIn)) unspentTxOuts_ with
  | None => false
  | Some referencedUTxOut =>
      let base58Address := UAddress referencedUTxOut in
      let publicKey := Base58Decode base58Address in
      match VerifySignature (Id transaction) (Signature txIn) publicKey with
      | Some valid => valid
      | None => false
      end
  end.

Definition findUnspentTxOut (txOutId : string) (txOutIndex : Z)
    (unspentTxOuts_ : list UnspentTxOut) : UnspentTxOut * option error :=
  match List.find (refersTo txOutId txOutIndex) unspentTxOuts_ with
  | Some v => (v, None)
  | None => (UnspentTxOut_zero, Some "unspent txOut not found")
  end.

Definition getTxInAmount (txIn : TxIn) (unspentTxOuts_ : list UnspentTxOut) : float :=
  let '(unspentTxOut, err) :=
    findUnspentTxOut (TxOutId txIn) (TxOutIndex txIn) unspentTxOuts_ in
  match err with
  | Some _ => 0%float
  | None => UAmount unspentTxOut
  end.

Definition GetCoinbaseTransaction (base58Address : string) (blockIndex : Z) : Transaction :=
  let txIn := mkTxIn "" blockIndex "" in
  let txOut := mkTxOut base58Address coinBaseAmount in
  let t := mkTransaction "" [txIn] [txOut] in
  mkTransaction (GetTransactionId t) (TxIns t) (TxOuts t).

(** The first loop of [ValidateTransaction]: [None] when it returns false
    from inside the loop, the accumulated total otherwise. *)
Fixpoint totalTxIns (txIns : list TxIn) (transaction : Transaction)
    (unspentTxOuts_ : list UnspentTxOut) (totalTxInValues : float) : option float :=
  match txIns with
  | [] => Some totalTxInValues
  | txIn :: rest =>
      if negb (validateTxIn txIn transaction unspentTxOuts_) then None
      else totalTxIns rest transaction unspentTxOuts_
             (totalTxInValues + getTxInAmount txIn unspentTxOuts_)%float
  end.

Definition totalTxOuts (txOuts : list TxOut) : float :=
  fold_left (fun total x => (total + Amount x)%float) txOuts 0%float.

Definition ValidateTransaction (transaction : Transaction)
    (unspentTxOuts_ : list UnspentTxOut) : bool :=
  if negb (bool_decide (GetTransactionId transaction = Id transaction)) then false
  else
    match totalTxIns (TxIns transaction) transaction unspentTxOuts_ 0%float with
    | None => false
    | Some totalTxInValues =>
        let totalTxOutValues := totalTxOuts (TxOuts transaction) in
        if negb (PrimFloat.eqb totalTxInValues totalTxOutValues) then false
        else true
    end.

Definition validateCoinbaseTx (transaction : Transaction) (blockIndex : Z) : bool :=
  if negb (bool_decide (GetTransactionId transaction = Id transaction)) then false
  else
    match TxIns transaction with
    | [txIn0] =>
        if negb (bool_decide (TxOutIndex txIn0 = blockIndex)) then false
        else
          match TxOuts transaction with
          | [txOut0] =>
              if negb (PrimFloat.eqb (Amount txOut0) coinBaseAmount) then false
              else true
          | _ => false
          end
    | _ => false
    end.

(** The loop of [hasDuplicateTxIns] with its map; a missing key reads as
    false. *)
Fixpoint hasDuplicateTxIns_loop (txIns : list TxIn) (hashmap : gmap string bool) : bool :=
  match txIns with
  | [] => false
  | txIn :: rest =>
      let key := TxOutId txIn +:+ fmt_d (TxOutIndex txIn) in
      if default false (hashmap !! key) then true
      else hasDuplicateTxIns_loop rest (<[key := true]> hashmap)
  end.

Definition hasDuplicateTxIns (txIns : list TxIn) : bool :=
  hasDuplicateTxIns_loop txIns ∅.

Definition flattenTxIns (transactions : list Transaction) : list TxIn :=
  fold_left (fun txInsFlattened t => txInsFlattened ++ TxIns t) transactions [].

Definition validateBlockTransactions (transactions : list Transaction)
    (unspentTxOuts_ : list UnspentTxOut) (blockIndex : Z) : bool :=
  match transactions with
  | [] => false
  | coinbaseTx :: others =>
      if negb (validateCoinbaseTx coinbaseTx blockIndex) then false
      else
        let txInsFlattened := flattenTxIns transactions in
        if hasDuplicateTxIns txInsFlattened then false
        else forallb (fun t => ValidateTransaction t unspentTxOuts_) others
  end.

(** The inner loops of [updateUnspentTxOuts], [j] counting from the given
    position. *)
Fixpoint appendTxOuts (id : string) (j : Z) (txOuts : list TxOut)
    (newUnspentTxOuts : list UnspentTxOut) : list UnspentTxOut :=
  match txOuts with
  | [] => newUnspentTxOuts
  | o :: rest =>
      appendTxOuts id (j + 1) rest
        (newUnspentTxOuts ++ [mkUnspentTxOut id j (Address o) (Amount o)])
  end.

Definition appendTxIns (txIns : list TxIn) (consumedTxOuts : list UnspentTxOut)
    : list UnspentTxOut :=
  fold_left
    (fun consumed i => consumed ++ [mkUnspentTxOut (TxOutId i) (TxOutIndex i) "" 0%float])
    txIns consumedTxOuts.

Definition updateUnspentTxOuts (transactions : list Transaction)
    (unspentTxOuts_ : list UnspentTxOut) : list UnspentTxOut :=
  let '(newUnspentTxOuts, consumedTxOuts) :=
    fold_left
      (fun '(newUnspentTxOuts, consumedTxOuts) t =>
         (appendTxOuts (Id t) 0 (TxOuts t) newUnspentTxOuts,
          appendTxIns (TxIns t) consumedTxOuts))
      transactions ([], []) in
  let resultingUnspentTxOuts :=
    fold_left
      (fun resulting u =>
         match (findUnspentTxOut (UTxOutId u) (UTxOutIndex u) consumedTxOuts).2 with
         | Some _ => resulting ++ [u]
         | None => resulting
         end)
      unspentTxOuts_ [] in
  resultingUnspentTxOuts ++ newUnspentTxOuts.

Definition ProcessTransactions (transactions : list Transaction)
    (unspentTxOuts_ : list UnspentTxOut) (blockIndex : Z)
    : list UnspentTxOut * option error :=
  if negb (validateBlockTransactions transactions unspentTxOuts_ blockIndex)
  then ([], Some "invalid block transactions")
  else (updateUnspentTxOuts transactions unspentTxOuts_, None).

End Transactions.

(** ** Package [txpool]; the variable [txPool] is passed and returned *)

Section Txpool.
Context `{GoLib}.

Definition hasTxIn (txIn : TxIn) (unspentTxOuts : list UnspentTxOut) : bool :=
  existsb (refersTo (TxOutId txIn) (TxOutIndex txIn)) unspentTxOuts.

Definition UpdateTransactionPool (unspentTxOuts_ : list UnspentTxOut)
    (txPool : list Transaction) : list Transaction :=
  fold_left
    (fun newTxPool t =>
       let isValid := forallb (fun txIn => hasTxIn txIn unspentTxOuts_) (TxIns t) in
       if isValid then newTxPool ++ [t] else newTxPool)
    txPool [].

Definition containsTxIn (txIns : list TxIn) (txIn : TxIn) : bool :=
  existsb
    (fun x => bool_decide (TxOutId x = TxOutId txIn)
              && bool_decide (TxOutIndex x = TxOutIndex txIn))
    txIns.

Definition getTxPoolIns (txPool_ : list Transaction) : list TxIn :=
  fold_left (fun txInsFlattened t => txInsFlattened ++ TxIns t) txPool_ [].

Definition isValidTxForPool (tx : Transaction) (txPool_ : list Transaction) : bool :=
  let txPoolIns := getTxPoolIns txPool_ in
  forallb (fun txIn => negb (containsTxIn txPoolIns txIn)) (TxIns tx).

Definition AddToTransactionPool (tx : Transaction) (unspentTxOuts : list UnspentTxOut)
    (txPool : list Transaction) : list Transaction * option error :=
  if negb (ValidateTransaction tx unspentTxOuts)
  then (txPool, Some "trying to add invalid tx to pool")
  else if negb (isValidTxForPool tx txPool)
  then (txPool, Some "trying to add invalid tx to pool")
  else (txPool ++ [tx], None).

End Txpool.

(** ** Package [blockchain] *)

Definition blockGenerationInterval : Z := 10.
Definition difficultyAdjustmentInterval : Z := 10.

Record BlockFields := mkBlockFields {
  Index : Z;
  PrevHash : string;
  Ts : Z;
  Transactions : list Transaction;
  Difficulty : float;
  Nonce : Z
}.

Record Block := mkBlock {
  Fields : BlockFields;
  Hash : string
}.

Definition GenesisTransaction : Transaction :=
  mkTransaction
    "62530d1bbbf4f75200448207cbc3c84b4b67fe7a85eddf6f5c3e4bbac4461b82"
    [TxIn_zero]
    [mkTxOut
       "S7H2fmjGPxznuu9NPcnYCyEqdg1ebSbMN6AJRqQQo4Z1D1yQdKwEGwiJezSDka6yqHDSb2jqaf3Tewg1tryEbDzG"
       50%float].

Definition GenesisBlock : Block :=
  mkBlock
    (mkBlockFields 0 "" 0 [GenesisTransaction] 0%float 0)
    "fbf56e4cc6a37936341c07f2d452ee01c93a1bb30d0bfe219d3d2af1cf38f78b".

(** The package-level variables of [blockchain] and [txpool]. *)
Record State := mkState {
  blockchain : list Block;
  cumulativeBlocksDifficulty : Z;
  unspentTxOuts : list UnspentTxOut;
  txPool : list Transaction
}.

Section Blockchain.
Context `{GoLib}.

(** [%v] on the structs, field by field between braces. *)
Definition Sprintf_v_TxIn (t : TxIn) : string :=
  "{" +:+ TxOutId t +:+ " " +:+ fmt_d (TxOutIndex t) +:+ " " +:+ Signature t +:+ "}".

Definition Sprintf_v_TxOut (t : TxOut) : string :=
  "{" +:+ Address t +:+ " " +:+ fmt_g (Amount t) +:+ "}".

Definition Sprintf_v_Transaction (t : Transaction) : string :=
  "{" +:+ Id t +:+ " " +:+ fmt_slice Sprintf_v_TxIn (TxIns t) +:+ " "
      +:+ fmt_slice Sprintf_v_TxOut (TxOuts t) +:+ "}".

Definition Sprintf_v_BlockFields (f : BlockFields) : string :=
  "{" +:+ fmt_d (Index f) +:+ " " +:+ PrevHash f +:+ " " +:+ fmt_d (Ts f) +:+ " "
      +:+ fmt_slice Sprintf_v_Transaction (Transactions f) +:+ " "
      +:+ fmt_g (Difficulty f) +:+ " " +:+ fmt_d (Nonce f) +:+ "}".

Definition Sprintf_v_Block (b : Block) : string :=
  "{" +:+ Sprintf_v_BlockFields (Fields b) +:+ " " +:+ Hash b +:+ "}".

(** The state of a node that has just started. *)
Definition initialState : State :=
  mkState [GenesisBlock] 0
          (ProcessTransactions (Transactions (Fields GenesisBlock)) [] 0).1
          [].

Definition GetLatestBlock (blockchain : list Block) : option Block :=
  last blockchain.

Definition getAdjustedDifficulty (blockchain_ : list Block) (latestBlock : Block)
    : option float :=
  if int_wrap (Index (Fields latestBlock) + 1) <? difficultyAdjustmentInterval
  then Some 0%float
  else
    prevAdjustmentBlock ←
      index blockchain_
        (int_wrap (int_wrap (Index (Fields latestBlock) + 1) - difficultyAdjustmentInterval));
    let timeExpected := uint64_wrap (blockGenerationInterval * difficultyAdjustmentInterval) in
    let timeTaken :=
      uint64_wrap (Ts (Fields latestBlock) - Ts (Fields prevAdjustmentBlock)) in
    if timeTaken <? timeExpected / 2
    then Some (Difficulty (Fields prevAdjustmentBlock) + 1)%float
    else if uint64_wrap (timeExpected * 2) <? timeTaken
    then
      let temp := (Difficulty (Fields prevAdjustmentBlock) - 1)%float in
      if (temp <? 0)%float then Some 0%float else Some temp
    else Some (Difficulty (Fields prevAdjustmentBlock)).

Definition getDifficulty (blockchain_ : list Block) (latestBlock : Block) : option float :=
  let adjustmentIntervalIsReached :=
    bool_decide (Z.rem (Index (Fields latestBlock)) difficultyAdjustmentInterval = 0) in
  let isGenesisBlock := bool_decide (Index (Fields latestBlock) = 0) in
  if adjustmentIntervalIsReached && negb isGenesisBlock
  then getAdjustedDifficulty blockchain_ latestBlock
  else Some (Difficulty (Fields latestBlock)).

(** [strings.Repeat] panics on a negative count. *)
Definition strings_Repeat (s : string) (count : Z) : option string :=
  if count <? 0 then None
  else Some (String.concat "" (replicate (Z.to_nat count) s)).

Definition hashMatchesDifficulty (hash : string) (difficulty : float)
    : option (bool * string) :=
  let hashInBinary := HexToBin hash in
  requiredPrefix ← strings_Repeat "0" (int_of_float difficulty);
  Some (String.prefix requiredPrefix hashInBinary, requiredPrefix).

(** Lines 268 to 275 of [IsValidBlock]: true when the block is turned down
    for its timestamp.  [now] is the reading [time.Now().Unix()]. *)
Definition timestampIsInvalid (now : Z) (prevBlock block : Block) : bool :=
  let prevBlockIsGenesisBlock := bool_decide (Index (Fields prevBlock) = 0) in
  let olderThanPrevBlock :=
    Ts (Fields block) <=? uint64_wrap (Ts (Fields prevBlock) - 60) in
  let farInTheFuture :=
    uint64_wrap now <=? uint64_wrap (Ts (Fields block) - 60) in
  negb prevBlockIsGenesisBlock && (olderThanPrevBlock || farInTheFuture).

Definition IsValidBlock (now : Z) (blockchain_ : list Block) (prevBlock block : Block)
    : option bool :=
  let isSuccessor :=
    bool_decide (int_wrap (Index (Fields prevBlock) + 1) = Index (Fields block)) in
  if negb isSuccessor then Some false
  else
    let includesPrevBlockHash := bool_decide (Hash prevBlock = PrevHash (Fields block)) in
    if negb includesPrevBlockHash then Some false
    else
      let hashIsValid :=
        bool_decide (utils_Hash (Sprintf_v_BlockFields (Fields block)) = Hash block) in
      if negb hashIsValid then Some false
      else if timestampIsInvalid now prevBlock block then Some false
      else
        required ← getDifficulty blockchain_ prevBlock;
        if negb (PrimFloat.eqb required (Difficulty (Fields block))) then Some false
        else
          '(matchesDifficulty, _) ←
            hashMatchesDifficulty (Hash block) (Difficulty (Fields block));
          if negb matchesDifficulty then Some false else Some true.

Definition GetCumulativeDifficulty (blockchain_ : list Block) : Z :=
  let result :=
    fold_left
      (fun result b => (result + math_Pow 2 (Difficulty (Fields b)))%float)
      blockchain_ 0%float in
  uint64_of_float result.

(** The loop of [IsValidBlockChain] from position [n] on: [rest] are the
    blocks from [n], [prev] is [blockchain_[n-1]] ([None] when [n = 0]), and
    [clock n] is the clock reading of the [n]-th round. *)
Fixpoint IsValidBlockChain_loop (clock : nat -> Z) (blockchain_ : list Block)
    (n : nat) (prev : option Block) (rest : list Block)
    (unspentTxOuts_ : list UnspentTxOut)
    : option (list UnspentTxOut * option error) :=
  match rest with
  | [] => Some (unspentTxOuts_, None)
  | b :: rest' =>
      valid ←
        match prev with
        | None => Some true
        | Some p => IsValidBlock (clock n) blockchain_ p b
        end;
      if negb valid then Some ([], Some "blockchain is invalid")
      else
        let '(retValue, err) :=
          ProcessTransactions (Transactions (Fields b)) unspentTxOuts_ (Index (Fields b)) in
        match err with
        | Some e => Some (retValue, Some e)
        | None =>
            IsValidBlockChain_loop clock blockchain_ (S n) (Some b) rest' retValue
        end
  end.

Definition IsValidBlockChain (clock : nat -> Z) (blockchain_ : list Block)
    : option (list UnspentTxOut * option error) :=
  firstBlock ← blockchain_ !! 0%nat;
  if negb (bool_decide (Sprintf_v_Block firstBlock = Sprintf_v_Block GenesisBlock))
  then Some ([], Some "blockchain is invalid")
  else IsValidBlockChain_loop clock blockchain_ 0 None blockchain_ [].

Definition AddBlockToChain (now : Z) (st : State) (newBlock : Block)
    : option (State * bool) :=
  latest ← GetLatestBlock (blockchain st);
  valid ← IsValidBlock now (blockchain st) latest newBlock;
  if negb valid then Some (st, false)
  else
    match ProcessTransactions (Transactions (Fields newBlock)) (unspentTxOuts st)
                              (Index (Fields newBlock)) with
    | (_, Some _) => Some (st, false)
    | (retVal, None) =>
        Some (mkState
                (blockchain st ++ [newBlock])
                (uint64_wrap (cumulativeBlocksDifficulty st
                              + uint64_of_float (math_Pow 2 (Difficulty (Fields newBlock)))))
                retVal
                (UpdateTransactionPool retVal (txPool st)),
              true)
    end.

(** [ReplaceChain]; the broadcast that follows a replacement touches no
    variable of the state and is left out. *)
Definition ReplaceChain (clock : nat -> Z) (st : State) (newBlocks : list Block)
    : option (State * option error) :=
  '(unspentTxOuts_, err) ← IsValidBlockChain clock newBlocks;
  match err with
  | Some _ => Some (st, Some "received blockchain invalid")
  | None =>
      let cumulative :=
        if bool_decide (cumulativeBlocksDifficulty st = 0)
        then GetCumulativeDifficulty (blockchain st)
        else cumulativeBlocksDifficulty st in
      let newCumulativeBlocksDifficulty := GetCumulativeDifficulty newBlocks in
      if newCumulativeBlocksDifficulty <=? cumulative
      then Some (mkState (blockchain st) cumulative (unspentTxOuts st) (txPool st),
                 Some "received blockchain invalid")
      else Some (mkState newBlocks newCumulativeBlocksDifficulty unspentTxOuts_
                         (UpdateTransactionPool unspentTxOuts_ (txPool st)),
                 None)
  end.

Definition HandleReceivedTransaction (st : State) (transaction : Transaction)
    : State * option error :=
  let '(pool, err) := AddToTransactionPool transaction (unspentTxOuts st) (txPool st) in
  (mkState (blockchain st) (cumulativeBlocksDifficulty st) (unspentTxOuts st) pool, err).

End Blockchain.

(** ** A reference instance of the library calls

    [RefLib] is used to run the model on concrete chains.  On integer-valued
    floats below [10^6] in magnitude [fmt_g] is Go's rendering; [math_Pow] is
    exact for base 2 and an integer exponent in range; the float to integer
    conversions truncate; hex decoding stops at the first malformed pair.
    Outside these ranges the fields are placeholders.  The instance knows no
    key and accepts no signature, so whatever it accepts is accepted
    whatever the keys are. *)

Definition SF_to_Z (x : float) : option Z :=
  match Prim2SF x with
  | S754_zero _ => Some 0
  | S754_finite s m e =>
      let a := if 0 <=? e then Z.pos m * 2 ^ e else Z.pos m / 2 ^ (- e) in
      Some (if s then - a else a)
  | _ => None
  end.

Definition SF_integral (x : float) : bool :=
  match Prim2SF x with
  | S754_zero _ => true
  | S754_finite s m e => (0 <=? e) || (Z.pos m mod 2 ^ (- e) =? 0)
  | _ => false
  end.

Definition ref_fmt_g (x : float) : string :=
  match Prim2SF x with
  | S754_zero true => "-0"
  | _ =>
      match SF_to_Z x with
      | Some z =>
          if SF_integral x && (Z.abs z <? 10 ^ 6) then fmt_d z else fmt_f x
      | None => fmt_f x
      end
  end.

Definition ref_math_Pow (x y : float) : float :=
  match SF_to_Z y with
  | Some k =>
      if PrimFloat.eqb x 2 && SF_integral y && (-1074 <=? k) && (k <=? 1023)
      then Z.ldexp 1 k else nan
  | None => nan
  end.

Definition ref_uint64_of_float (x : float) : Z :=
  match SF_to_Z x with
  | Some z => if (0 <=? z) && (z <? 2 ^ 64) then z else 2 ^ 63
  | None => 2 ^ 63
  end.

Definition ref_int_of_float (x : float) : Z :=
  match SF_to_Z x with
  | Some z => if (- 2 ^ 63 <=? z) && (z <? 2 ^ 63) then z else - 2 ^ 63
  | None => - 2 ^ 63
  end.

Definition ref_hex_value (c : ascii) : option Z :=
  let n := Z.of_N (N_of_ascii c) in
  if (48 <=? n) && (n <=? 57) then Some (n - 48)
  else if (97 <=? n) && (n <=? 102) then Some (n - 87)
  else if (65 <=? n) && (n <=? 70) then Some (n - 55)
  else None.

Fixpoint ref_hex_DecodeString (s : string) : list Z :=
  match s with
  | String p (String q rest) =>
      match ref_hex_value p, ref_hex_value q with
      | Some a, Some b => (16 * a + b) :: ref_hex_DecodeString rest
      | _, _ => []
      end
  | _ => []
  end.

Definition RefLib : GoLib := {|
  fmt_g := ref_fmt_g;
  math_Pow := ref_math_Pow;
  uint64_of_float := ref_uint64_of_float;
  int_of_float := ref_int_of_float;
  base58_Decode := fun _ => [];
  hex_DecodeString := ref_hex_DecodeString;
  elliptic_Unmarshal := fun _ => (None, None);
  asn1_Unmarshal := fun _ => (None, None, false);
  ecdsa_Verify := fun _ _ _ _ => Some false;
  asn1_Unmarshal_nil := ltac:(intros bs r s Heq; discriminate Heq)
|}.

(** ** Concrete transactions, blocks and chains *)

(** A transaction with the given inputs and outputs and the id that
    [GetTransactionId] gives it. *)
Definition withId (txIns : list TxIn) (txOuts : list TxOut) : Transaction :=
  mkTransaction (GetTransactionId (mkTransaction "" txIns txOuts)) txIns txOuts.

(** A block with the given fields and the hash that [utils.Hash] gives them. *)
Definition sealed (f : BlockFields) : Block :=
  mkBlock f (utils_Hash (@Sprintf_v_BlockFields RefLib f)).

Definition clock1020 : nat -> Z := fun _ => 1020.

(** A transaction without inputs whose single output is worth nothing, and a
    block at height 1 that holds it twice after its coinbase. *)
Definition tx_nothing : Transaction := withId [] [mkTxOut "a" 0%float].

Definition block1_twice : Block :=
  sealed (mkBlockFields 1 (Hash GenesisBlock) 1000
            [GetCoinbaseTransaction "miner" 1; tx_nothing; tx_nothing] 0%float 0).

Definition chain_twice : list Block := [GenesisBlock; block1_twice].

(** A transaction without inputs whose outputs total zero, a block at height
    1 that holds it, and a block at height 2 whose coinbase input names the
    third of these outputs. *)
Definition tx_split : Transaction :=
  withId [] [mkTxOut "a" (-5)%float; mkTxOut "b" 0%float; mkTxOut "c" 5%float].

Definition block1_split : Block :=
  sealed (mkBlockFields 1 (Hash GenesisBlock) 1000
            [GetCoinbaseTransaction "miner" 1; tx_split] 0%float 0).

Definition block2_burn : Block :=
  sealed (mkBlockFields 2 (Hash block1_split) 1010
            [withId [mkTxIn (Id tx_split) 2 ""] [mkTxOut "miner" 50%float]] 0%float 0).

Definition chain_burn : list Block := [GenesisBlock; block1_split; block2_burn].

(** Two blocks at height 1 that differ in the address they pay. *)
Definition block1_miner : Block :=
  sealed (mkBlockFields 1 (Hash GenesisBlock) 1000
            [GetCoinbaseTransaction "miner" 1] 0%float 0).

Definition block1_other : Block :=
  sealed (mkBlockFields 1 (Hash GenesisBlock) 1000
            [GetCoinbaseTransaction "other" 1] 0%float 0).

(** The unspent outputs after the genesis block. *)
Definition genesisUnspent : list UnspentTxOut :=
  [mkUnspentTxOut (Id GenesisTransaction) 0
     "S7H2fmjGPxznuu9NPcnYCyEqdg1ebSbMN6AJRqQQo4Z1D1yQdKwEGwiJezSDka6yqHDSb2jqaf3Tewg1tryEbDzG"
     50%float].

(** Blocks of which only the height and the timestamp matter. *)
Definition bare (index ts : Z) (difficulty : float) : Block :=
  mkBlock (mkBlockFields index "" ts [] difficulty 0) "".

(** ** The rules as the specification words them *)

Definition fmax0 (x : float) : float := if (x <? 0)%float then 0%float else x.

(** Section 4.4, difficulty retargeting, with [A = 10] and [T = 10]. *)
Definition spec_requiredDifficulty (C : list Block) (P : Block) : option float :=
  if (0 <? Index (Fields P)) && ((Index (Fields P) + 1) mod 10 =? 0) then
    R ← index C (Index (Fields P) + 1 - 10);
    let elapsed := Ts (Fields P) - Ts (Fields R) in
    if elapsed <? (10 * 10) / 2 then Some (Difficulty (Fields R) + 1)%float
    else if 2 * 10 * 10 <? elapsed then Some (fmax0 (Difficulty (Fields R) - 1)%float)
    else Some (Difficulty (Fields R))
  else Some (Difficulty (Fields P)).

(** Section 4.4, rule 4 of block validity. *)
Definition spec_timestampRule (now : Z) (P block : Block) : Prop :=
  Ts (Fields P) - 60 <= Ts (Fields block) /\ Ts (Fields block) <= now + 60.

(** Section 4.3: the references consumed and the outputs produced by a list
    of transactions. *)
Definition utxoKey (u : UnspentTxOut) : string * Z := (UTxOutId u, UTxOutIndex u).

Definition txInKey (i : TxIn) : string * Z := (TxOutId i, TxOutIndex i).

Definition consumed (txs : list Transaction) : list (string * Z) :=
  txs ≫= (fun t => txInKey <$> TxIns t).

Definition producedBy (t : Transaction) : list UnspentTxOut :=
  imap (fun j o => mkUnspentTxOut (Id t) (Z.of_nat j) (Address o) (Amount o)) (TxOuts t).

Definition produced (txs : list Transaction) : list UnspentTxOut :=
  txs ≫= producedBy.

Definition spec_processTransactions (txs : list Transaction) (utxoSet : list UnspentTxOut)
    : list UnspentTxOut :=
  filter (fun u => utxoKey u ∉ consumed txs) utxoSet ++ produced txs.

(** ** Notions used in the statements and their proofs *)

(** The entry that [updateUnspentTxOuts] appends to [consumedTxOuts] for an
    input. *)
Definition consumedEntry (i : TxIn) : UnspentTxOut :=
  mkUnspentTxOut (TxOutId i) (TxOutIndex i) "" 0%float.

(** What [validateTxIn] and [getTxInAmount] find for one input. *)
Definition resolves `{GoLib} (tx : Transaction) (U : list UnspentTxOut)
    (txIn : TxIn) (u : UnspentTxOut) : Prop :=
  List.find (refersTo (TxOutId txIn) (TxOutIndex txIn)) U = Some u
  /\ VerifySignature (Id tx) (Signature txIn) (Base58Decode (UAddress u)) = Some true.

(** The first entry of [U] that has the reference of an input. *)
Definition firstReferenced (U : list UnspentTxOut) (txIn : TxIn) (u : UnspentTxOut) : Prop :=
  exists before after,
    U = before ++ u :: after
    /\ utxoKey u = txInKey txIn
    /\ txInKey txIn ∉ utxoKey <$> before.

(** Section 4.2, validity of a transaction: every input references an
    entry of [U] under whose address its signature verifies, and the
    amounts of these entries add up to the amounts of the outputs. *)
Definition spec_validTransaction `{GoLib} (tx : Transaction) (U : list UnspentTxOut) : Prop :=
  GetTransactionId tx = Id tx
  /\ exists refs : list UnspentTxOut,
       Forall2
         (fun txIn u =>
            u ∈ U
            /\ UTxOutId u = TxOutId txIn /\ UTxOutIndex u = TxOutIndex txIn
            /\ VerifySignature (Id tx) (Signature txIn)
                 (Base58Decode (UAddress u)) = Some true)
         (TxIns tx) refs
       /\ PrimFloat.eqb
            (fold_left (fun total u => (total + UAmount u)%float) refs 0%float)
            (fold_left (fun total out => (total + Amount out)%float) (TxOuts tx) 0%float)
          = true.

(** The unspent output that [findUnspentTxOut] returns for an input. *)
Definition referenced (U : list UnspentTxOut) (txIn : TxIn) : UnspentTxOut :=
  (findUnspentTxOut (TxOutId txIn) (TxOutIndex txIn) U).1.

(** The key of an input in the map of [hasDuplicateTxIns]. *)
Definition txInMapKey (txIn : TxIn) : string :=
  TxOutId txIn +:+ fmt_d (TxOutIndex txIn).

(** Two transactions share an input reference. *)
Definition sharesInput (t1 t2 : Transaction) : Prop :=
  exists a b, a ∈ TxIns t1 /\ b ∈ TxIns t2 /\ txInKey a = txInKey b.

(** No entry of the pool shares an input reference with a later one. *)
Definition poolDisjoint (pool : list Transaction) : Prop :=
  ForallOrdPairs (fun t1 t2 => ~ sharesInput t1 t2) pool.


(** The ids of all transactions of a chain, block by block. *)
Definition chainTxIds (chain : list Block) : list string :=
  chain ≫= (fun b => Id <$> Transactions (Fields b)).

(** [replays blocks U U']: processing the transactions of [blocks] in order
    from [U] never fails and ends in [U']. *)
Inductive replays `{GoLib} : list Block -> list UnspentTxOut -> list UnspentTxOut -> Prop :=
  | replays_nil U : replays [] U U
  | replays_cons b rest U U' :
      validateBlockTransactions (Transactions (Fields b)) U (Index (Fields b)) = true ->
      replays rest (spec_processTransactions (Transactions (Fields b)) U) U' ->
      replays (b :: rest) U U'.

(** The invariant of the replay: references are unique and every unspent
    output comes from a transaction seen so far. *)
Definition utxoInv (seen : list string) (U : list UnspentTxOut) : Prop :=
  NoDup (utxoKey <$> U) /\ forall u, u ∈ U -> UTxOutId u ∈ seen.

(** The exact value of a [float64] as a real number; 0 for NaN and the
    infinities. *)
Definition exact (x : float) : R :=
  match Prim2SF x with
  | S754_finite s m e =>
      let magnitude :=
        if 0 <=? e then IZR (Z.pos m * 2 ^ e)
        else (IZR (Z.pos m) / IZR (2 ^ (- e)))%R in
      if s then (- magnitude)%R else magnitude
  | _ => 0%R
  end.

(** The sum over a list, in real arithmetic. *)
Definition total {A} (f : A -> R) (l : list A) : R :=
  fold_right (fun x s => (f x + s)%R) 0%R l.

(** Processing [blocks] in order from [U]: no coinbase input names an output
    that is unspent when its block is processed, and the outputs of every
    other transaction total exactly what the outputs it spends total. *)
Fixpoint conservesExactly (blocks : list Block) (U : list UnspentTxOut) : Prop :=
  match blocks with
  | [] => True
  | b :: rest =>
      match Transactions (Fields b) with
      | [] => True
      | coinbaseTx :: others =>
          (forall txIn, txIn ∈ TxIns coinbaseTx -> txInKey txIn ∉ utxoKey <$> U)
          /\ (forall t, t ∈ others ->
                total (fun txIn => exact (getTxInAmount txIn U)) (TxIns t)
                = total (fun out => exact (Amount out)) (TxOuts t))
      end
      /\ conservesExactly rest (spec_processTransactions (Transactions (Fields b)) U)
  end.

(** ** More of package [utils] *)

(** [IsHex]: a match of [^[0-9a-fA-F]+$].  Without flags [$] is the end of
    the text, so this is a non-empty string of hex digits. *)
Definition isHexDigit (c : ascii) : bool :=
  let n := N_of_ascii c in
  ((48 <=? n) && (n <=? 57) || (97 <=? n) && (n <=? 102) || (65 <=? n) && (n <=? 70))%N.

Fixpoint allHexDigits (s : string) : bool :=
  match s with
  | EmptyString => true
  | String c rest => isHexDigit c && allHexDigits rest
  end.

Definition IsHex (s : string) : bool :=
  match s with
  | EmptyString => false
  | String _ _ => allHexDigits s
  end.

(** [big.Int.SetString] in base 16: a sign or none, then hex digits, at
    least one, and nothing else; [None] is the [nil] returned otherwise. *)
Fixpoint hexNumber (s : string) (n : Z) : Z :=
  match s with
  | EmptyString => n
  | String c rest => hexNumber rest (16 * n + default 0 (ref_hex_value c))
  end.

Definition big_SetString16 (s : string) : option Z :=
  match s with
  | String "-" digits => if IsHex digits then Some (- hexNumber digits 0) else None
  | String "+" digits => if IsHex digits then Some (hexNumber digits 0) else None
  | _ => if IsHex s then Some (hexNumber s 0) else None
  end.

(** [big.Int.Bytes]: the magnitude, big-endian, without leading zeros. *)
Fixpoint big_Bytes_loop (fuel : nat) (n : Z) (bytes : list Z) : list Z :=
  match fuel with
  | O => bytes
  | S fuel' =>
      if n =? 0 then bytes else big_Bytes_loop fuel' (n / 256) (n mod 256 :: bytes)
  end.

Definition big_Bytes (x : Z) : list Z :=
  big_Bytes_loop (S (Z.to_nat (Z.log2 (Z.abs x)))) (Z.abs x) [].

(** The library calls of the wallet.  [privateKeyFile] is the content of
    the key file.  [secp256k1_ScalarBaseMult] gives the coordinates of a
    multiple of the base point, [nil] being [None]; its outer [None] is a
    panic of the library.  [elliptic_Marshal] panics or returns bytes.
    [ecdsa_Sign] takes the key and the hash and gives [r] and [s], both
    [nil] with an error; its [nat] stands for the randomness drawn at that
    call.  [asn1_Marshal] gives the bytes, none with an error. *)
Class WalletLib := {
  privateKeyFile : string;
  secp256k1_ScalarBaseMult : list Z -> option (option Z * option Z);
  elliptic_Marshal : option Z * option Z -> option (list Z);
  ecdsa_Sign : nat -> Z * (option Z * option Z) -> list Z -> option Z * option Z;
  asn1_Marshal : option Z * option Z -> list Z;
  base58_Encode : list Z -> string
}.

Section UtilsKeys.
Context `{GoLib} `{WalletLib}.

(** [hexToPrivateKey]: [D] and the coordinates of the public key.  [None] is
    a panic: [pk.D.Bytes()] with the nil [D] of a string that
    [SetString] does not read, or one inside [ScalarBaseMult]. *)
Definition hexToPrivateKey (privateKey : string) : option (Z * (option Z * option Z)) :=
  D ← big_SetString16 privateKey;
  publicKey ← secp256k1_ScalarBaseMult (big_Bytes D);
  Some (D, publicKey).

Definition GetPublicKey (privateKey : string) : option string :=
  pk ← hexToPrivateKey privateKey;
  marshaled ← elliptic_Marshal pk.2;
  Some (SHA256.hex_of_bytes marshaled).

Definition GetSignature (entropy : nat) (hash privateKey : string) : option string :=
  let hashBytes := hex_DecodeString hash in
  key ← hexToPrivateKey privateKey;
  let '(r, s) := ecdsa_Sign entropy key hashBytes in
  let marshaled := asn1_Marshal (r, s) in
  Some (SHA256.hex_of_bytes marshaled).

Definition Base58Encode (str : string) : string :=
  base58_Encode (hex_DecodeString str).

End UtilsKeys.

(** ** More of package [transactions] *)

Definition IsValidBase58Address `{GoLib} (base58Address : string) : bool :=
  let address := Base58Decode base58Address in
  if negb (bool_decide (String.length address = 130%nat)) then false
  else if negb (IsHex address) then false
  else if negb (String.prefix "04" address) then false
  else true.

(** [SignTxIn]; [None] is a panic: of [transaction.TxIns[txInIndex]] out of
    range, of [utils.GetPublicKey] or of [utils.GetSignature]. *)
Definition SignTxIn `{GoLib} `{WalletLib} (entropy : nat) (transaction : Transaction)
    (txInIndex : Z) (privateKey : string) (unspentTxOuts : list UnspentTxOut)
    : option (string * option error) :=
  txIn ← index (TxIns transaction) txInIndex;
  let '(referencedUnspentTxOut, err) :=
    findUnspentTxOut (TxOutId txIn) (TxOutIndex txIn) unspentTxOuts in
  match err with
  | Some e => Some ("", Some e)
  | None =>
      let referencedBase58Address := UAddress referencedUnspentTxOut in
      let referencedPublicKey := Base58Decode referencedBase58Address in
      publicKey ← GetPublicKey privateKey;
      if negb (bool_decide (publicKey = referencedPublicKey))
      then Some ("", Some "trying to sign an input with private key that does not match the address that is referenced in txIn")
      else
        signature ← GetSignature entropy (Id transaction) privateKey;
        Some (signature, None)
  end.

(** ** Package [wallet] *)

Section Wallet.
Context `{GoLib} `{WalletLib}.

Definition GetPrivateFromWallet : string := privateKeyFile.

(** [GetBase58Address]; [None] is the panic of [utils.GetPublicKey]. *)
Definition GetBase58Address : option string :=
  publicKey ← GetPublicKey GetPrivateFromWallet;
  Some (Base58Encode publicKey).

Definition toUnsignedTxIn (unspentTxOut : UnspentTxOut) : TxIn :=
  mkTxIn (UTxOutId unspentTxOut) (UTxOutIndex unspentTxOut) "".

Definition FindUnspentTxOuts (base58Address : string) (unspentTxOuts : list UnspentTxOut)
    : list UnspentTxOut :=
  fold_left
    (fun myUnspentTxOuts u =>
       if bool_decide (UAddress u = base58Address) then myUnspentTxOuts ++ [u]
       else myUnspentTxOuts)
    unspentTxOuts [].

Definition GetBalance (base58Address : string) (unspentTxOuts : list UnspentTxOut) : float :=
  fold_left (fun balance txOut => (balance + UAmount txOut)%float)
            (FindUnspentTxOuts base58Address unspentTxOuts) 0%float.

(** The loop of [FindTxOutsForAmount] over the entries not yet looked at. *)
Fixpoint FindTxOutsForAmount_loop (amount : float) (rest : list UnspentTxOut)
    (currentAmount : float) (includedUnspentTxOuts : list UnspentTxOut)
    : list UnspentTxOut * float * option error :=
  match rest with
  | [] => ([], amount,
           Some "cannot create transaction from the available unspent transaction outputs")
  | u :: rest' =>
      let includedUnspentTxOuts := includedUnspentTxOuts ++ [u] in
      let currentAmount := (currentAmount + UAmount u)%float in
      if (amount <=? currentAmount)%float
      then (includedUnspentTxOuts, (currentAmount - amount)%float, None)
      else FindTxOutsForAmount_loop amount rest' currentAmount includedUnspentTxOuts
  end.

Definition FindTxOutsForAmount (amount : float) (unspentTxOuts : list UnspentTxOut)
    : list UnspentTxOut * float * option error :=
  FindTxOutsForAmount_loop amount unspentTxOuts 0%float [].

Definition CreateTxOuts (targetBase58Address sourceBase58Address : string)
    (amount leftOverAmount : float) : list TxOut :=
  let txOut := mkTxOut targetBase58Address amount in
  if PrimFloat.eqb leftOverAmount 0 then [txOut]
  else [txOut; mkTxOut sourceBase58Address leftOverAmount].

Definition findTxIn (txIns : list TxIn) (txOutId : string) (txOutIndex : Z) : TxIn * bool :=
  match List.find
          (fun x => bool_decide (TxOutId x = txOutId) && bool_decide (TxOutIndex x = txOutIndex))
          txIns with
  | Some x => (x, true)
  | None => (TxIn_zero, false)
  end.

Definition filterTxPoolTxs (unspentTxOuts : list UnspentTxOut) (txPool : list Transaction)
    : list UnspentTxOut :=
  let txInsFlattened :=
    fold_left (fun txInsFlattened t => txInsFlattened ++ TxIns t) txPool [] in
  fold_left
    (fun filtered u =>
       let '(_, found) := findTxIn txInsFlattened (UTxOutId u) (UTxOutIndex u) in
       if negb found then filtered ++ [u] else filtered)
    unspentTxOuts [].

(** The signing loop of [CreateTransaction]: [n] inputs are left, from
    position [index] on; each round writes one signature into the inputs. *)
Fixpoint signTxIns (n : nat) (index : nat) (tx : Transaction) (myPrivateKey : string)
    (unspentTxOuts : list UnspentTxOut) : option Transaction :=
  match n with
  | O => Some tx
  | S n' =>
      '(signature, _) ← SignTxIn index tx (Z.of_nat index) myPrivateKey unspentTxOuts;
      let txIns :=
        alter (fun txIn => mkTxIn (TxOutId txIn) (TxOutIndex txIn) signature) index (TxIns tx) in
      signTxIns n' (S index) (mkTransaction (Id tx) txIns (TxOuts tx))
                myPrivateKey unspentTxOuts
  end.

(** [CreateTransaction]; [None] is a panic of [GetBase58Address] or of
    [SignTxIn]. *)
Definition CreateTransaction (base58Address : string) (amount : float)
    (unspentTxOuts : list UnspentTxOut) (txPool : list Transaction) : option Transaction :=
  let myPrivateKey := GetPrivateFromWallet in
  myBase58Address ← GetBase58Address;
  let myUnspentTxOutsA := FindUnspentTxOuts myBase58Address unspentTxOuts in
  let myUnspentTxOuts := filterTxPoolTxs myUnspentTxOutsA txPool in
  let '(includedUnspentTxOuts, leftOverAmount, _) :=
    FindTxOutsForAmount amount myUnspentTxOuts in
  let unsignedTxIns :=
    fold_left (fun unsignedTxIns u => unsignedTxIns ++ [toUnsignedTxIn u])
              includedUnspentTxOuts [] in
  let tx :=
    mkTransaction "" unsignedTxIns
      (CreateTxOuts base58Address myBase58Address amount leftOverAmount) in
  let tx := mkTransaction (GetTransactionId tx) (TxIns tx) (TxOuts tx) in
  signTxIns (length (TxIns tx)) 0 tx myPrivateKey unspentTxOuts.

End Wallet.

(** ** More of package [blockchain] *)

(** The zero values [Transaction{}] and [Block{}]. *)
Definition Transaction_zero : Transaction := mkTransaction "" [] [].
Definition Block_zero : Block := mkBlock (mkBlockFields 0 "" 0 [] 0%float 0) "".

Section Mining.
Context `{GoLib} `{WalletLib}.

Definition setPool (st : State) (pool : list Transaction) : State :=
  mkState (blockchain st) (cumulativeBlocksDifficulty st) (unspentTxOuts st) pool.

Definition getMyUnspentTransactionOutputs (st : State) : option (list UnspentTxOut) :=
  myBase58Address ← GetBase58Address;
  Some (FindUnspentTxOuts myBase58Address (unspentTxOuts st)).

Definition GetAccountBalance (st : State) : option float :=
  myBase58Address ← GetBase58Address;
  Some (GetBalance myBase58Address (unspentTxOuts st)).

(** The proof-of-work loop of [produceBlock], cut off after [fuel] rounds:
    the inner [None] is a loop still running, the outer one a panic. *)
Fixpoint proofOfWork (fuel : nat) (blockFields : BlockFields) : option (option Block) :=
  match fuel with
  | O => Some None
  | S fuel' =>
      let hash := utils_Hash (Sprintf_v_BlockFields blockFields) in
      '(matchesDifficulty, _) ← hashMatchesDifficulty hash (Difficulty blockFields);
      if (matchesDifficulty : bool) then Some (Some (mkBlock blockFields hash))
      else
        proofOfWork fuel'
          (mkBlockFields (Index blockFields) (PrevHash blockFields) (Ts blockFields)
             (Transactions blockFields) (Difficulty blockFields)
             (int_wrap (Nonce blockFields + 1)))
  end.

(** [produceBlock]: [nowMine] is the clock when the fields are built,
    [nowAdd] the clock when [AddBlockToChain] checks the block.  The
    broadcast after a success touches no variable of the state.  The outer
    [None] is a panic before the block is handed to [AddBlockToChain] or
    one that [AddBlockToChain] has here; a fault of [VerifySignature]
    while the block's transactions are checked is not among them. *)
Definition produceBlock (fuel : nat) (nowMine nowAdd : Z) (st : State)
    (transactions : list Transaction)
    : option (option (State * Block * option error)) :=
  lastBlock ← last (blockchain st);
  difficulty ← getDifficulty (blockchain st) lastBlock;
  let blockFields :=
    mkBlockFields (int_wrap (Index (Fields lastBlock) + 1)) (Hash lastBlock)
      (uint64_wrap nowMine) transactions difficulty 0 in
  mined ← proofOfWork fuel blockFields;
  match mined with
  | None => Some None
  | Some newBlock =>
      '(st', added) ← AddBlockToChain nowAdd st newBlock;
      if (added : bool) then Some (Some (st', newBlock, None))
      else Some (Some (st', Block_zero, Some "failed to produce valid block"))
  end.

Definition ProduceNextBlock (fuel : nat) (nowMine nowAdd : Z) (st : State)
    : option (option (State * Block * option error)) :=
  myBase58Address ← GetBase58Address;
  latest ← GetLatestBlock (blockchain st);
  let coinbaseTx :=
    GetCoinbaseTransaction myBase58Address (int_wrap (Index (Fields latest) + 1)) in
  let blockData := [coinbaseTx] ++ txPool st in
  produceBlock fuel nowMine nowAdd st blockData.

Definition SendCoinsToAddress (fuel : nat) (nowMine nowAdd : Z) (st : State)
    (base58Address : string) (amount : float)
    : option (option (State * Block * option error)) :=
  if (amount <=? 0)%float then Some (Some (st, Block_zero, Some "invalid amount"))
  else if negb (IsValidBase58Address base58Address)
  then Some (Some (st, Block_zero, Some "invalid address"))
  else
    myBase58Address ← GetBase58Address;
    latest ← GetLatestBlock (blockchain st);
    let coinbaseTx :=
      GetCoinbaseTransaction myBase58Address (int_wrap (Index (Fields latest) + 1)) in
    normalTx ← CreateTransaction base58Address amount (unspentTxOuts st) (txPool st);
    let blockData := [coinbaseTx; normalTx] in
    produceBlock fuel nowMine nowAdd st blockData.

Definition SendTransaction (st : State) (base58Address : string) (amount : float)
    : option (State * Transaction * option error) :=
  if (amount <=? 0)%float then Some (st, Transaction_zero, Some "invalid amount")
  else
    tx ← CreateTransaction base58Address amount (unspentTxOuts st) (txPool st);
    let '(pool, err) := AddToTransactionPool tx (unspentTxOuts st) (txPool st) in
    Some (setPool st pool, tx, err).

End Mining.

(** ** Package [p2p]: what a node does with the blocks and the transactions
    a peer sends, one message at a time *)

(** What is sent to the peers while a message is handled. *)
Inductive Sent :=
  | SentBlockchain (blocks : list Block)
  | SentGetAllBlocks
  | SentTxPool (txs : list Transaction).

Section P2p.
Context `{GoLib}.

(** [handleReceivedBlocks]; the broadcast of the new tip inside
    [ReplaceChain] is listed here. *)
Definition handleReceivedBlocks (now : Z) (clock : nat -> Z) (st : State)
    (blocks : list Block) : option (State * list Sent) :=
  match last blocks with
  | None => Some (st, [])
  | Some latestBlockReceived =>
      latestBlockHeld ← GetLatestBlock (blockchain st);
      if Index (Fields latestBlockHeld) <? Index (Fields latestBlockReceived) then
        if bool_decide (Hash latestBlockHeld = PrevHash (Fields latestBlockReceived)) then
          '(st', added) ← AddBlockToChain now st latestBlockReceived;
          if (added : bool) then
            latestBlock ← GetLatestBlock (blockchain st');
            Some (st', [SentBlockchain [latestBlock]])
          else Some (st', [])
        else if bool_decide (length blocks = 1%nat) then Some (st, [SentGetAllBlocks])
        else
          '(st', err) ← ReplaceChain clock st blocks;
          match err with
          | Some _ => Some (st', [])
          | None =>
              latestBlock ← GetLatestBlock (blockchain st');
              Some (st', [SentBlockchain [latestBlock]])
          end
      else Some (st, [])
  end.

(** The [TX_POOL] case of [handleMessage], after decoding. *)
Definition handleReceivedTxPool (st : State) (txs : list Transaction) : State * list Sent :=
  fold_left
    (fun '(st, sent) tx =>
       let '(st', err) := HandleReceivedTransaction st tx in
       match err with
       | None => (st', sent ++ [SentTxPool (txPool st')])
       | Some _ => (st', sent)
       end)
    txs (st, []).

End P2p.

(** ** Notions used in the statements about strings *)

(** The four binary digits of a value below 16, most significant first. *)
Definition binaryDigit (v k : Z) : ascii := if Z.testbit v k then "1"%char else "0"%char.

Definition bits4 (v : Z) : string :=
  String (binaryDigit v 3) (String (binaryDigit v 2)
    (String (binaryDigit v 1) (String (binaryDigit v 0) EmptyString))).

(** ** A reference base58 decoder

    [RefLib58] is [RefLib] with the decoding of the Bitcoin alphabet: the
    digits are read as a number in base 58, written out in bytes, after one
    zero byte for each leading [1]; a character outside the alphabet gives
    the empty result. *)

Definition base58Alphabet : string :=
  "123456789ABCDEFGHJKLMNPQRSTUVWXYZabcdefghijkmnopqrstuvwxyz".

Fixpoint positionIn (c : ascii) (alphabet : string) : option Z :=
  match alphabet with
  | EmptyString => None
  | String x rest =>
      if Ascii.eqb c x then Some 0 else Z.succ <$> positionIn c rest
  end.

Fixpoint ref_base58_value (s : string) (acc : Z) : option Z :=
  match s with
  | EmptyString => Some acc
  | String c rest =>
      d ← positionIn c base58Alphabet;
      ref_base58_value rest (58 * acc + d)
  end.

Fixpoint ref_big_endian (fuel : nat) (n : Z) (acc : list Z) : list Z :=
  match fuel with
  | O => acc
  | S fuel' => if n =? 0 then acc else ref_big_endian fuel' (n / 256) (n mod 256 :: acc)
  end.

Fixpoint ref_leading_ones (s : string) : nat :=
  match s with
  | String "1" rest => S (ref_leading_ones rest)
  | _ => O
  end.

Definition ref_base58_Decode (s : string) : list Z :=
  match ref_base58_value s 0 with
  | Some n => replicate (ref_leading_ones s) 0 ++ ref_big_endian (String.length s) n []
  | None => []
  end.

Definition RefLib58 : GoLib := {|
  fmt_g := ref_fmt_g;
  math_Pow := ref_math_Pow;
  uint64_of_float := ref_uint64_of_float;
  int_of_float := ref_int_of_float;
  base58_Decode := ref_base58_Decode;
  hex_DecodeString := ref_hex_DecodeString;
  elliptic_Unmarshal := fun _ => (None, None);
  asn1_Unmarshal := fun _ => (None, None, false);
  ecdsa_Verify := fun _ _ _ _ => Some false;
  asn1_Unmarshal_nil := ltac:(intros bs r s Heq; discriminate Heq)
|}.

(** The address that the genesis transaction pays. *)
Definition genesisAddress : string :=
  "S7H2fmjGPxznuu9NPcnYCyEqdg1ebSbMN6AJRqQQo4Z1D1yQdKwEGwiJezSDka6yqHDSb2jqaf3Tewg1tryEbDzG".

(** ** A reference for the curve and its signatures

    [secp256k1.S256] with [crypto/elliptic], [crypto/ecdsa] and the part of
    [encoding/asn1] that reads and writes a sequence of two integers. *)

Module Secp256k1.

Definition P : Z := 2 ^ 256 - 2 ^ 32 - 977.
Definition N : Z := 0xFFFFFFFFFFFFFFFFFFFFFFFFFFFFFFFEBAAEDCE6AF48A03BBFD25E8CD0364141.
Definition Gx : Z := 0x79BE667EF9DCBBAC55A06295CE870B07029BFCDB2DCE28D959F2815B16F81798.
Definition Gy : Z := 0x483ADA7726A3C4655DA4FBFC0E1108A8FD17B448A68554199C47D08FFB10D4B8.

Definition IsOnCurve (x y : Z) : bool := (y * y - (x * x * x + 7)) mod P =? 0.

Local Open Scope bigZ_scope.

(** The arithmetic of the points is done on the numbers of [BigZ], whose
    operations are those of [Z] on machine integers.  Points are in
    Jacobian coordinates; the third coordinate of the point at infinity is
    zero. *)
Definition Jacobian : Type := bigZ * bigZ * bigZ.

Definition p : bigZ := BigZ.of_Z P.

Definition infinity : Jacobian := (1, 1, 0).

Definition point (x y : Z) : Jacobian := (BigZ.of_Z x, BigZ.of_Z y, 1).

Definition double (a : Jacobian) : Jacobian :=
  let '(x, y, z) := a in
  if z =? 0 then a
  else
    let yy := y * y mod p in
    let s := 4 * x * yy mod p in
    let m := 3 * x * x mod p in
    let x' := (m * m - 2 * s) mod p in
    (x', (m * (s - x') - 8 * yy * yy) mod p, 2 * y * z mod p).

Definition add (a b : Jacobian) : Jacobian :=
  let '(x1, y1, z1) := a in
  let '(x2, y2, z2) := b in
  if z1 =? 0 then b
  else if z2 =? 0 then a
  else
    let zz1 := z1 * z1 mod p in
    let zz2 := z2 * z2 mod p in
    let u1 := x1 * zz2 mod p in
    let u2 := x2 * zz1 mod p in
    let s1 := y1 * z2 * zz2 mod p in
    let s2 := y2 * z1 * zz1 mod p in
    if u1 =? u2 then (if s1 =? s2 then double a else infinity)
    else
      let h := (u2 - u1) mod p in
      let r := (s2 - s1) mod p in
      let hh := h * h mod p in
      let hhh := h * hh mod p in
      let v := u1 * hh mod p in
      let x3 := (r * r - hhh - 2 * v) mod p in
      (x3, (r * (v - x3) - s1 * hhh) mod p, h * z1 * z2 mod p).

Fixpoint mul_positive (k : positive) (q : Jacobian) : Jacobian :=
  match k with
  | xH => q
  | xO k' => double (mul_positive k' q)
  | xI k' => add (double (mul_positive k' q)) q
  end.

Definition mul (k : Z) (q : Jacobian) : Jacobian :=
  match k with
  | Zpos k' => mul_positive k' q
  | _ => infinity
  end.

(** The inverse modulo a prime, by Euclid's algorithm. *)
Fixpoint euclid (fuel : nat) (a b x0 x1 : bigZ) : bigZ :=
  match fuel with
  | O => x0
  | S fuel' => if b =? 0 then x0 else euclid fuel' b (a mod b) x1 (x0 - a / b * x1)
  end.

Definition inverse (a m : Z) : Z :=
  BigZ.to_Z (euclid 600 (BigZ.of_Z a mod BigZ.of_Z m) (BigZ.of_Z m) 1 0 mod BigZ.of_Z m).

Definition affine (a : Jacobian) : option (Z * Z) :=
  let '(x, y, z) := a in
  if z =? 0 then None
  else
    let zi := BigZ.of_Z (inverse (BigZ.to_Z z) P) in
    let zzi := zi * zi mod p in
    Some (BigZ.to_Z (x * zzi mod p), BigZ.to_Z (y * zi * zzi mod p)).

End Secp256k1.

(** [big.Int.SetBytes]. *)
Definition big_SetBytes (bs : list Z) : Z := fold_left (fun n b => 256 * n + b) bs 0.

(** [big.Int.FillBytes] on a buffer of [n] bytes, for a number that
    fits. *)
Fixpoint big_FillBytes (n : nat) (x : Z) (acc : list Z) : list Z :=
  match n with
  | O => acc
  | S n' => big_FillBytes n' (x / 256) (x mod 256 :: acc)
  end.

(** [elliptic.Unmarshal]: 65 bytes, the first of which is 4, then two
    coordinates below the modulus of a point of the curve. *)
Definition ref_elliptic_Unmarshal (data : list Z) : option Z * option Z :=
  match data with
  | 4 :: coordinates =>
      if bool_decide (length coordinates = 64%nat) then
        let x := big_SetBytes (take 32 coordinates) in
        let y := big_SetBytes (drop 32 coordinates) in
        if (x <? Secp256k1.P) && (y <? Secp256k1.P) && Secp256k1.IsOnCurve x y
        then (Some x, Some y)
        else (None, None)
      else (None, None)
  | _ => (None, None)
  end.

(** [elliptic.Marshal]; [None] is its panic on a nil coordinate. *)
Definition ref_elliptic_Marshal (point : option Z * option Z) : option (list Z) :=
  match point with
  | (Some x, Some y) => Some (4 :: big_FillBytes 32 x [] ++ big_FillBytes 32 y [])
  | _ => None
  end.

(** [ScalarBaseMult] of the curve: [None] is its panic on a scalar of more
    than 32 bytes, nil coordinates are the result for the point at
    infinity. *)
Definition ref_ScalarBaseMult (k : list Z) : option (option Z * option Z) :=
  if bool_decide (32 < length k)%nat then None
  else
    match Secp256k1.affine
            (Secp256k1.mul (big_SetBytes k)
               (Secp256k1.point Secp256k1.Gx Secp256k1.Gy)) with
    | Some (x, y) => Some (Some x, Some y)
    | None => Some (None, None)
    end.

(** The tag-length-value at the head of [bs] in DER: the tag, the content
    and what follows it.  A length is one byte below 128, or the byte
    [128 + n] followed by [n] bytes, at most four, that spell a length of
    at least 128 without a leading zero. *)
Definition der_long_length (n : nat) (bs : list Z) : option (Z * list Z) :=
  if bool_decide (n = 0%nat) || bool_decide (4 < n)%nat || bool_decide (length bs < n)%nat
  then None
  else
    let len := big_SetBytes (take n bs) in
    if bool_decide (head bs = Some 0) || (len <? 128) then None
    else Some (len, drop n bs).

Definition der_value (bs : list Z) : option (Z * list Z * list Z) :=
  match bs with
  | tag :: len :: rest =>
      '(n, rest) ← (if len <? 128 then Some (len, rest)
                    else der_long_length (Z.to_nat (len - 128)) rest);
      if Z.of_nat (length rest) <? n then None
      else Some (tag, take (Z.to_nat n) rest, drop (Z.to_nat n) rest)
  | _ => None
  end.

(** An INTEGER at the head of [bs]: not empty, minimal, in two's
    complement. *)
Definition der_integer (bs : list Z) : option (Z * list Z) :=
  '(tag, content, rest) ← der_value bs;
  if negb (tag =? 2) then None
  else
    match content with
    | [] => None
    | [b] => Some (if b <? 128 then b else b - 256, rest)
    | b :: c :: _ =>
        if ((b =? 0) && (c <? 128)) || ((b =? 255) && (128 <=? c)) then None
        else
          let n := big_SetBytes content in
          Some (if b <? 128 then n else n - 256 ^ Z.of_nat (length content), rest)
    end.

(** [asn1.Unmarshal] into a struct of two [*big.Int]: a SEQUENCE that
    starts with two INTEGERs; bytes after them, inside the sequence or after
    it, are let through.  After an error the fields are given as unset. *)
Definition ref_asn1_Unmarshal (bs : list Z) : option Z * option Z * bool :=
  match
    '(tag, content, _) ← der_value bs;
    if negb (tag =? 48) then None
    else
      '(r, rest) ← der_integer content;
      '(s, _) ← der_integer rest;
      Some (r, s)
  with
  | Some (r, s) => (Some r, Some s, true)
  | None => (None, None, false)
  end.

(** [asn1.Marshal] of such a struct, for integers from 0 below [2^256];
    the result is empty when a pointer is nil, as the error is dropped. *)
Definition ref_marshal_integer (x : Z) : list Z :=
  let bytes := big_Bytes x in
  let content :=
    match bytes with
    | [] => [0]
    | b :: _ => if b <? 128 then bytes else 0 :: bytes
    end in
  2 :: Z.of_nat (length content) :: content.

Definition ref_asn1_Marshal (sig : option Z * option Z) : list Z :=
  match sig with
  | (Some r, Some s) =>
      let content := ref_marshal_integer r ++ ref_marshal_integer s in
      48 :: Z.of_nat (length content) :: content
  | _ => []
  end.

(** [hashToInt] of [crypto/ecdsa] for an order of 256 bits. *)
Definition hashToInt (hash : list Z) : Z := big_SetBytes (take 32 hash).

(** [ecdsa.Verify]: [r] and [s] out of range are turned down before the
    key is looked at; after that a nil coordinate is dereferenced. *)
Definition ref_ecdsa_Verify (pub : option Z * option Z) (hash : list Z) (r s : Z)
    : option bool :=
  if (r <=? 0) || (s <=? 0) || (Secp256k1.N <=? r) || (Secp256k1.N <=? s) then Some false
  else
    match pub with
    | (Some x, Some y) =>
        let e := hashToInt hash in
        let w := Secp256k1.inverse s Secp256k1.N in
        let u1 := e * w mod Secp256k1.N in
        let u2 := r * w mod Secp256k1.N in
        match Secp256k1.affine
                (Secp256k1.add
                   (Secp256k1.mul u1 (Secp256k1.point Secp256k1.Gx Secp256k1.Gy))
                   (Secp256k1.mul u2 (Secp256k1.point x y))) with
        | Some (x1, _) => Some (x1 mod Secp256k1.N =? r)
        | None => Some false
        end
    | _ => None
    end.

(** [ecdsa.Sign] with the number [k] that it draws given by [entropy];
    nil results are the error of a [k] that gives a zero. *)
Definition ref_ecdsa_Sign (entropy : nat) (priv : Z * (option Z * option Z))
    (hash : list Z) : option Z * option Z :=
  let k := 1 + Z.of_nat entropy mod (Secp256k1.N - 1) in
  match Secp256k1.affine
          (Secp256k1.mul k (Secp256k1.point Secp256k1.Gx Secp256k1.Gy)) with
  | Some (x, _) =>
      let r := x mod Secp256k1.N in
      let s := Secp256k1.inverse k Secp256k1.N * (hashToInt hash + priv.1 * r)
               mod Secp256k1.N in
      if (r =? 0) || (s =? 0) then (None, None) else (Some r, Some s)
  | None => (None, None)
  end.

(** [base58.Encode]. *)
Fixpoint ref_base58_digits (fuel : nat) (n : Z) (acc : string) : string :=
  match fuel with
  | O => acc
  | S fuel' =>
      if n =? 0 then acc
      else
        match String.get (Z.to_nat (n mod 58)) base58Alphabet with
        | Some c => ref_base58_digits fuel' (n / 58) (String c acc)
        | None => acc
        end
  end.

Fixpoint ref_leading_zeros (bs : list Z) : nat :=
  match bs with
  | 0 :: rest => S (ref_leading_zeros rest)
  | _ => O
  end.

Definition ref_base58_Encode (bs : list Z) : string :=
  String.concat "" (replicate (ref_leading_zeros bs) "1")
  +:+ ref_base58_digits (2 * length bs) (big_SetBytes bs) "".

(** [RefLib58] with the curve, the signatures and the DER of this
    reference. *)
Definition RefCrypto : GoLib := {|
  fmt_g := ref_fmt_g;
  math_Pow := ref_math_Pow;
  uint64_of_float := ref_uint64_of_float;
  int_of_float := ref_int_of_float;
  base58_Decode := ref_base58_Decode;
  hex_DecodeString := ref_hex_DecodeString;
  elliptic_Unmarshal := ref_elliptic_Unmarshal;
  asn1_Unmarshal := ref_asn1_Unmarshal;
  ecdsa_Verify := ref_ecdsa_Verify;
  asn1_Unmarshal_nil :=
    ltac:(intros bs r s; unfold ref_asn1_Unmarshal;
          destruct (_ ≫= _) as [[r' s'] |]; intros [= <- <-]; by split)
|}.

(** A transaction that spends the output of the genesis transaction, and
    a key for it.  The signature has [r = s = e], the id of the
    transaction read as a number, and the key is the point [R - G], where
    [R] is the point of the curve whose first coordinate is [r]: the point
    that [ecdsa.Verify] computes, [(e / s) G + (r / s) Q], is then [R]. *)
Definition spenderAddress : string :=
  "PJSW123b7MBX1hy7k54oCwMnsexWMT4bdYW4APY6ytYK35CxwvykduRZoxS3CuPvdzcMVGtuZToJJSYCTgoTLkwr".

Definition spendSignature : string :=
  "3044022005e6f2ed4b89cebe0b9a647110d3fadf344f8081928bd2d6d4ec27f85e9d51c8022005e6f2ed4b89cebe0b9a647110d3fadf344f8081928bd2d6d4ec27f85e9d51c8".

Definition tx_spend : Transaction :=
  withId [mkTxIn (Id GenesisTransaction) 0 spendSignature] [mkTxOut "a" 50%float].

(** Unspent outputs in which that key owns the output of the genesis
    transaction, and the same after the unspent outputs of the genesis
    block, so that two entries have the same reference. *)
Definition spenderUnspent : list UnspentTxOut :=
  [mkUnspentTxOut (Id GenesisTransaction) 0 spenderAddress 50%float].

Definition twiceUnspent : list UnspentTxOut := genesisUnspent ++ spenderUnspent.

(** The DER of the integers 1 and 1. *)
Definition signatureOfOnes : string := "3006020101020101".

(** ** Notions used in the statements about a node *)

(** The states a node can be in: it starts with the genesis block, and
    then blocks are appended, chains replace the chain and transactions are
    received, in any order; calls that panic lead nowhere. *)
Inductive nodeReachable `{GoLib} : State -> Prop :=
  | node_start : nodeReachable initialState
  | node_add now st newBlock st' added :
      nodeReachable st ->
      AddBlockToChain now st newBlock = Some (st', added) ->
      nodeReachable st'
  | node_replace clock st newBlocks st' err :
      nodeReachable st ->
      ReplaceChain clock st newBlocks = Some (st', err) ->
      nodeReachable st'
  | node_receive st transaction :
      nodeReachable st ->
      nodeReachable (HandleReceivedTransaction st transaction).1.

(** Every input of every transaction of the pool names an unspent output. *)
Definition poolSpendsUnspent (pool : list Transaction) (U : list UnspentTxOut) : Prop :=
  forall tx txIn, tx ∈ pool -> txIn ∈ TxIns tx -> txInKey txIn ∈ utxoKey <$> U.

(** Each block after the first names its predecessor: by height, by hash,
    and its own hash is the hash of its fields. *)
Definition chainLinked `{GoLib} (chain : list Block) : Prop :=
  forall i p b, chain !! i = Some p -> chain !! S i = Some b ->
    Index (Fields b) = int_wrap (Index (Fields p) + 1)
    /\ PrevHash (Fields b) = Hash p
    /\ Hash b = utils_Hash (Sprintf_v_BlockFields (Fields b)).

(** The state after a node that has just started appends [block1_miner]
    when its clock reads 1020. *)
Definition stateAfterBlock1 : State :=
  Eval vm_compute in
    match @AddBlockToChain RefLib 1020 (@initialState RefLib) block1_miner with
    | Some (st, _) => st
    | None => @initialState RefLib
    end.

(** ** Notions used in the statements about mining *)

(** The fields with another nonce, and the nonce after [k] increments. *)
Definition withNonce (f : BlockFields) (nonce : Z) : BlockFields :=
  mkBlockFields (Index f) (PrevHash f) (Ts f) (Transactions f) (Difficulty f) nonce.

Definition nonceAfter (k : nat) (nonce : Z) : Z :=
  Nat.iter k (fun n => int_wrap (n + 1)) nonce.

(** The hash of the fields meets their difficulty. *)
Definition meetsDifficulty `{GoLib} (f : BlockFields) : Prop :=
  exists rest,
    HexToBin (utils_Hash (Sprintf_v_BlockFields f))
    = zeros (Z.to_nat (int_of_float (Difficulty f))) +:+ rest.

(** A wallet with the key 1, whose public key is the base point, and the
    address ["miner"]; then the same wallet with the encoding of the
    reference, and a wallet whose key file ends with a line feed. *)
Definition RefWallet : WalletLib := {|
  privateKeyFile := "1";
  secp256k1_ScalarBaseMult := ref_ScalarBaseMult;
  elliptic_Marshal := ref_elliptic_Marshal;
  ecdsa_Sign := ref_ecdsa_Sign;
  asn1_Marshal := ref_asn1_Marshal;
  base58_Encode := fun _ => "miner"
|}.

Definition RefWallet58 : WalletLib := {|
  privateKeyFile := "1";
  secp256k1_ScalarBaseMult := ref_ScalarBaseMult;
  elliptic_Marshal := ref_elliptic_Marshal;
  ecdsa_Sign := ref_ecdsa_Sign;
  asn1_Marshal := ref_asn1_Marshal;
  base58_Encode := ref_base58_Encode
|}.

Definition RefWalletLineFeed : WalletLib := {|
  privateKeyFile := String "1" (String (ascii_of_nat 10) EmptyString);
  secp256k1_ScalarBaseMult := ref_ScalarBaseMult;
  elliptic_Marshal := ref_elliptic_Marshal;
  ecdsa_Sign := ref_ecdsa_Sign;
  asn1_Marshal := ref_asn1_Marshal;
  base58_Encode := ref_base58_Encode
|}.

(** The address of that key under [RefWallet58], unspent outputs in which
    it owns the output of the genesis transaction, and the signature of
    the id of [tx_spend] under the key 1 with the number [k = 1]. *)
Definition walletAddress : string :=
  "PucSdUxwL4xHpPiAWbia7uCeAxyFeqQEUrwAmm9ypvGFMEVVbmU3qgBWDcZTosuNbjh8zXqL2sMXBabFzS1DF5x3".

Definition walletUnspent : list UnspentTxOut :=
  [mkUnspentTxOut (Id GenesisTransaction) 0 walletAddress 50%float].

Definition walletSignature : string :=
  "3044022079be667ef9dcbbac55a06295ce870b07029bfcdb2dce28d959f2815b16f8179802207fa5596c45668a6a613ac706df5b05e636eb7d5cc059fbb02edea95375956960".

(** The state after a node with the wallet [RefWallet58] that has just
    started mines a block, and the transaction by which that wallet then
    pays 30 to the address ["a"]. *)
Definition stateAfterWalletBlock1 : State :=
  Eval vm_compute in
    match @ProduceNextBlock RefCrypto RefWallet58 1 1000 1020 (@initialState RefCrypto) with
    | Some (Some (st, _, _)) => st
    | _ => @initialState RefCrypto
    end.

Definition tx_sent : Transaction :=
  Eval vm_compute in
    match @CreateTransaction RefCrypto RefWallet58 "a" 30
            (unspentTxOuts stateAfterWalletBlock1) (txPool stateAfterWalletBlock1) with
    | Some tx => tx
    | None => Transaction_zero
    end.

(** ** Notions used in the statements about the wallet *)

(** The amounts of a list of unspent outputs added up from the left, as
    the loops of the wallet do. *)
Definition floatSum (l : list UnspentTxOut) : float :=
  fold_left (fun s u => (s + UAmount u)%float) l 0%float.

(** The unspent outputs of an address that no input of the pool names. *)
Definition spendable (address : string) (U : list UnspentTxOut) (pool : list Transaction)
    : list UnspentTxOut :=
  filter (fun u => UAddress u = address /\ utxoKey u ∉ txInKey <$> (pool ≫= TxIns)) U.

(** What the signing loop of [CreateTransaction] leaves in an input. *)
Definition signedOrEmpty `{GoLib} `{WalletLib} (id : string) (txIn : TxIn) : Prop :=
  Signature txIn = ""
  \/ exists entropy, GetSignature entropy id GetPrivateFromWallet = Some (Signature txIn).


(** * Properties *)

(** ** Machine integers *)

Lemma uint64_wrap_small z : 0 <= z < 2 ^ 64 -> uint64_wrap z = z.
Proof. intros Hz. unfold uint64_wrap. apply Z.mod_small. exact Hz. Qed.

Lemma int_wrap_small z : - 2 ^ 63 <= z < 2 ^ 63 -> int_wrap z = z.
Proof.
  intros Hz. unfold int_wrap.
  rewrite Z.mod_small by lia. lia.
Qed.

(** ** Signature verification *)

Section VerifySignatureFacts.
Context `{GoLib}.

Lemma VerifySignature_malformed (hash sig publicKeyHex : string) :
  (asn1_Unmarshal (hex_DecodeString sig)).2 = false ->
  VerifySignature hash sig publicKeyHex = Some false.
Proof.
  unfold VerifySignature.
  destruct (asn1_Unmarshal (hex_DecodeString sig)) as [[r s] ok].
  cbn [snd]. by intros ->.
Qed.

Lemma VerifySignature_None (hash sig publicKeyHex : string) :
  VerifySignature hash sig publicKeyHex = None
  <-> exists r s,
        asn1_Unmarshal (hex_DecodeString sig) = (Some r, Some s, true)
        /\ ecdsa_Verify (hexToPublicKey publicKeyHex) (hex_DecodeString hash) r s = None.
Proof.
  unfold VerifySignature.
  destruct (asn1_Unmarshal (hex_DecodeString sig)) as [[r s] ok] eqn:Hun.
  destruct ok.
  - destruct (asn1_Unmarshal_nil _ _ _ Hun) as [[r' ->] [s' ->]].
    split; [intros Hnone; by exists r', s' |].
    by intros (r0 & s0 & [= <- <-] & Hnone).
  - split; [discriminate |]. by intros (r0 & s0 & [= _ _ Hok] & _).
Qed.

End VerifySignatureFacts.

(** C9.  Whenever the signature bytes are not well-formed ASN.1-DER, that
    is, whenever [asn1.Unmarshal] reports an error, [VerifySignature]
    returns false, whatever the hash and the key; and [VerifySignature]
    never dereferences a nil [esig.R] or [esig.S], it faults only inside
    [ecdsa.Verify].  But it does fault there: with the well-formed
    signature of the integers 1 and 1 and a key string that is no point of
    the curve, here the empty string, [hexToPublicKey] passes on nil
    coordinates and [ecdsa.Verify] dereferences them. *)
Theorem VerifySignature_faults_on_nil_key :
  (forall (lib : GoLib) (hash sig publicKeyHex : string),
     ((asn1_Unmarshal (hex_DecodeString sig)).2 = false ->
      VerifySignature hash sig publicKeyHex = Some false)
     /\ (VerifySignature hash sig publicKeyHex = None
         <-> exists r s,
               asn1_Unmarshal (hex_DecodeString sig) = (Some r, Some s, true)
               /\ ecdsa_Verify (hexToPublicKey publicKeyHex) (hex_DecodeString hash) r s
                  = None))
  /\ @asn1_Unmarshal RefCrypto (@hex_DecodeString RefCrypto signatureOfOnes)
     = (Some 1, Some 1, true)
  /\ @hexToPublicKey RefCrypto "" = (None, None)
  /\ @VerifySignature RefCrypto (Id GenesisTransaction) signatureOfOnes "" = None.
Proof.
  split; [| repeat split; vm_compute; reflexivity].
  intros lib hash sig publicKeyHex.
  split; [apply VerifySignature_malformed | apply VerifySignature_None].
Qed.

(** ** Coinbase transactions *)

Lemma GetTransactionId_ins_outs id id' ins outs :
  GetTransactionId (mkTransaction id ins outs)
  = GetTransactionId (mkTransaction id' ins outs).
Proof. reflexivity. Qed.

(** C10. For every address [a] and block index [i], the coinbase
    transaction built by [GetCoinbaseTransaction a i] passes
    [validateCoinbaseTx] at the same index [i]: its id is the recomputed
    one, its only input carries [i] as [txOutIndex], and its only output
    pays 50 to [a]. *)
Theorem GetCoinbaseTransaction_valid (a : string) (i : Z) :
  validateCoinbaseTx (GetCoinbaseTransaction a i) i = true
  /\ GetTransactionId (GetCoinbaseTransaction a i) = Id (GetCoinbaseTransaction a i)
  /\ TxIns (GetCoinbaseTransaction a i) = [mkTxIn "" i ""]
  /\ TxOuts (GetCoinbaseTransaction a i) = [mkTxOut a 50%float].
Proof.
  split; [| split; [| split]]; try reflexivity.
  unfold validateCoinbaseTx, GetCoinbaseTransaction.
  cbn [Id TxIns TxOuts TxOutIndex Amount].
  rewrite (bool_decide_eq_true_2 _ (GetTransactionId_ins_outs _ _ _ _)).
  rewrite (bool_decide_eq_true_2 (i = i) eq_refl).
  reflexivity.
Qed.

(** ** The timestamp rule *)

(** C3, as stated, fails: with a predecessor at height 5 stamped 1000, a
    block stamped 940 and the clock at 1000, both bounds of the claim hold
    (940 >= 1000 - 60 and 940 <= 1000 + 60) and the block is turned down. *)
Lemma timestamp_bound_is_exclusive :
  timestampIsInvalid 1000 (bare 5 1000 0) (bare 6 940 0) = true
  /\ spec_timestampRule 1000 (bare 5 1000 0) (bare 6 940 0).
Proof. split; [reflexivity | unfold spec_timestampRule; simpl; lia]. Qed.

(** C3, amended.  When the predecessor has height 0, as the genesis block
    has, a block is never turned down for its timestamp, whatever the
    timestamps and the clock.  When the predecessor has another height,
    for timestamps of at least 60, a block is not turned down for its
    timestamp if and only if [P.ts - 60 < block.ts] and
    [block.ts < now + 60], both bounds strict. *)
Theorem timestamp_rule (now : Z) (P block : Block) :
  (Index (Fields P) = 0 -> timestampIsInvalid now P block = false)
  /\ (Index (Fields P) <> 0 ->
      60 <= Ts (Fields P) < 2 ^ 64 ->
      60 <= Ts (Fields block) < 2 ^ 64 ->
      0 <= now < 2 ^ 63 ->
      timestampIsInvalid now P block = false
      <-> Ts (Fields P) - 60 < Ts (Fields block) /\ Ts (Fields block) < now + 60).
Proof.
  unfold timestampIsInvalid. split.
  - intros Hz. by rewrite (bool_decide_eq_true_2 _ Hz).
  - intros Hnz HP HB Hnow.
    rewrite !uint64_wrap_small by lia.
    rewrite (bool_decide_eq_false_2 _ Hnz). cbn [negb andb].
    rewrite orb_false_iff, !Z.leb_gt. lia.
Qed.

Lemma timestamp_rule_witness :
  Ts (Fields GenesisBlock) = 0
  /\ timestampIsInvalid 1000 GenesisBlock (bare 1 0 0) = false
  /\ (timestampIsInvalid 1000 (bare 5 1000 0) (bare 6 941 0) = false
      <-> Ts (Fields (bare 5 1000 0)) - 60 < Ts (Fields (bare 6 941 0))
          /\ Ts (Fields (bare 6 941 0)) < 1000 + 60).
Proof.
  split; [reflexivity |]. split.
  - apply (proj1 (timestamp_rule 1000 GenesisBlock (bare 1 0 0))). reflexivity.
  - apply (proj2 (timestamp_rule 1000 (bare 5 1000 0) (bare 6 941 0))); simpl; lia.
Defined.

(** ** Difficulty retargeting *)

(** C2, as stated, fails: in a chain of ten blocks of difficulty 0 stamped
    0 to 9, the tip has height 9, so [(P.index + 1) mod 10 = 0] and the
    claim retargets to [R.difficulty + 1 = 1] (9 seconds elapsed); the code
    tests [P.index mod 10] and returns the tip's difficulty, 0. *)
Lemma retarget_height_is_multiple_of_ten :
  let C := map (fun i => bare i i 0) [0; 1; 2; 3; 4; 5; 6; 7; 8; 9] in
  let P := bare 9 9 0 in
  getDifficulty C P = Some 0%float
  /\ spec_requiredDifficulty C P = Some 1%float.
Proof. split; reflexivity. Qed.

(** C2, amended. For a tip [P] of height in range: [getDifficulty] returns
    [P.difficulty] unless [P.index] is a non-zero multiple of 10; when it is,
    and [R = C[P.index + 1 - 10]] is stamped no later than [P], it returns
    [R.difficulty + 1] when [elapsed = P.ts - R.ts] is below 50,
    [max(0, R.difficulty - 1)] when [elapsed] is above 200, and
    [R.difficulty] otherwise (so also at exactly 50 and exactly 200); the
    decreased difficulty is never below 0. *)
Theorem getDifficulty_rule (C : list Block) (P : Block) :
  0 <= Index (Fields P) < 2 ^ 62 ->
  0 <= Ts (Fields P) < 2 ^ 64 ->
  (~ (Index (Fields P) <> 0 /\ Index (Fields P) mod 10 = 0) ->
   getDifficulty C P = Some (Difficulty (Fields P)))
  /\ (forall R,
        Index (Fields P) <> 0 -> Index (Fields P) mod 10 = 0 ->
        index C (Index (Fields P) + 1 - 10) = Some R ->
        0 <= Ts (Fields R) <= Ts (Fields P) ->
        let elapsed := Ts (Fields P) - Ts (Fields R) in
        getDifficulty C P
        = Some (if elapsed <? 50 then (Difficulty (Fields R) + 1)%float
                else if 200 <? elapsed then fmax0 (Difficulty (Fields R) - 1)%float
                else Difficulty (Fields R)))
  /\ (forall x, (fmax0 x <? 0)%float = false).
Proof.
  intros Hidx Hts. unfold getDifficulty, difficultyAdjustmentInterval.
  rewrite Z.rem_mod_nonneg by lia.
  split; [| split].
  - intros Hnot.
    destruct (bool_decide_reflect (Index (Fields P) mod 10 = 0)) as [Hm | Hm];
      destruct (bool_decide_reflect (Index (Fields P) = 0)) as [Hz | Hz];
      simpl; try reflexivity.
    exfalso. apply Hnot. split; assumption.
  - intros R Hnz Hm HR HtsR.
    rewrite (bool_decide_eq_true_2 _ Hm), (bool_decide_eq_false_2 _ Hnz). simpl.
    unfold getAdjustedDifficulty, difficultyAdjustmentInterval, blockGenerationInterval.
    assert (Hge : 10 <= Index (Fields P)).
    { destruct (Z_lt_le_dec (Index (Fields P)) 10) as [Hlt | Hle]; [| exact Hle].
      rewrite Z.mod_small in Hm by lia. lia. }
    rewrite !int_wrap_small by (rewrite ?int_wrap_small; lia).
    destruct (Z.ltb_spec (Index (Fields P) + 1) 10) as [Hlt | _]; [lia |].
    rewrite HR. simpl.
    rewrite !uint64_wrap_small by lia.
    change (10 * 10 / 2) with 50. change (10 * 10 * 2) with 200.
    unfold fmax0.
    destruct (Ts (Fields P) - Ts (Fields R) <? 50); [reflexivity |].
    destruct (200 <? Ts (Fields P) - Ts (Fields R)); [| reflexivity].
    destruct (Difficulty (Fields R) - 1 <? 0)%float; reflexivity.
  - intros x. unfold fmax0.
    destruct (x <? 0)%float eqn:Hx; [reflexivity | exact Hx].
Qed.

Lemma getDifficulty_rule_witness :
  let C := map (fun i => bare i (10 * i) 3) [0; 1; 2; 3; 4; 5; 6; 7; 8; 9; 10] in
  getDifficulty C (bare 10 100 3) = Some 3%float.
Proof.
  intros C.
  pose proof (getDifficulty_rule C (bare 10 100 3)) as Hrule.
  destruct Hrule as [_ [Hretarget _]]; [simpl; lia | simpl; lia |].
  apply (Hretarget (bare 1 10 3)); simpl; try lia; reflexivity.
Defined.

(** ** Loops that append, as list operations *)

Section Loops.
Context {A B : Type}.

Lemma fold_left_snoc (f : A -> B) (l : list A) (acc : list B) :
  fold_left (fun acc x => acc ++ [f x]) l acc = acc ++ (f <$> l).
Proof.
  revert acc. induction l as [| x l IH]; intros acc; simpl.
  - by rewrite app_nil_r.
  - rewrite IH. by rewrite <- app_assoc.
Qed.

Lemma fold_left_append (f : A -> list B) (l : list A) (acc : list B) :
  fold_left (fun acc x => acc ++ f x) l acc = acc ++ (l ≫= f).
Proof.
  revert acc. induction l as [| x l IH]; intros acc; simpl.
  - by rewrite app_nil_r.
  - rewrite IH. by rewrite <- app_assoc.
Qed.

Lemma fold_left_keep (p : A -> bool) (g : list A -> A -> list A)
    (l : list A) (acc : list A) :
  (forall acc x, g acc x = if p x then acc ++ [x] else acc) ->
  fold_left g l acc = acc ++ filter (fun x => p x = true) l.
Proof.
  intros Hg. revert acc. induction l as [| x l IH]; intros acc; simpl.
  - by rewrite app_nil_r.
  - rewrite IH, Hg, filter_cons. destruct (p x) eqn:Hp.
    + rewrite decide_True by done. by rewrite <- app_assoc.
    + rewrite decide_False by done. done.
Qed.

End Loops.

(** ** The UTXO engine *)

Lemma appendTxOuts_imap id txOuts : forall j acc,
  appendTxOuts id j txOuts acc
  = acc ++ imap (fun k o => mkUnspentTxOut id (j + Z.of_nat k) (Address o) (Amount o)) txOuts.
Proof.
  induction txOuts as [| o rest IH]; intros j acc; simpl.
  - by rewrite app_nil_r.
  - rewrite IH, <- app_assoc. simpl. rewrite Z.add_0_r.
    do 2 f_equal. apply imap_ext. intros k x _. simpl. f_equal. lia.
Qed.

Lemma appendTxIns_fmap txIns acc :
  appendTxIns txIns acc = acc ++ (consumedEntry <$> txIns).
Proof. apply fold_left_snoc. Qed.

Lemma updateUnspentTxOuts_loop txs : forall new used,
  fold_left
    (fun '(newUnspentTxOuts, consumedTxOuts) t =>
       (appendTxOuts (Id t) 0 (TxOuts t) newUnspentTxOuts,
        appendTxIns (TxIns t) consumedTxOuts))
    txs (new, used)
  = (new ++ produced txs, used ++ (txs ≫= (fun t => consumedEntry <$> TxIns t))).
Proof.
  induction txs as [| t txs IH]; intros new used; simpl.
  - by rewrite !app_nil_r.
  - rewrite IH, appendTxOuts_imap, appendTxIns_fmap, <- !app_assoc.
    reflexivity.
Qed.

Lemma refersTo_true id ix v :
  refersTo id ix v = true <-> utxoKey v = (id, ix).
Proof.
  unfold refersTo, utxoKey.
  rewrite andb_true_iff, !bool_decide_eq_true.
  split; [intros [-> ->]; reflexivity | intros [= -> ->]; done].
Qed.

Lemma find_refersTo_None id ix l :
  List.find (refersTo id ix) l = None <-> (id, ix) ∉ utxoKey <$> l.
Proof.
  induction l as [| v l IH]; simpl.
  - split; [intros _; apply not_elem_of_nil | done].
  - rewrite not_elem_of_cons, <- IH.
    destruct (refersTo id ix v) eqn:Hv.
    + apply refersTo_true in Hv. split; [done | intros [Hne _]; congruence].
    + split; [| tauto]. intros Hnone. split; [| done].
      intros Heq. symmetry in Heq. apply refersTo_true in Heq. congruence.
Qed.

Lemma consumedEntry_keys txs :
  utxoKey <$> (txs ≫= (fun t => consumedEntry <$> TxIns t)) = consumed txs.
Proof.
  unfold consumed. induction txs as [| t txs IH]; [done |].
  rewrite !bind_cons, fmap_app, IH. f_equal.
  rewrite <- list_fmap_compose. done.
Qed.

Lemma updateUnspentTxOuts_spec txs utxoSet :
  updateUnspentTxOuts txs utxoSet = spec_processTransactions txs utxoSet.
Proof.
  unfold updateUnspentTxOuts, spec_processTransactions.
  rewrite updateUnspentTxOuts_loop. simpl.
  rewrite (fold_left_keep
             (fun u => bool_decide
                         ((findUnspentTxOut (UTxOutId u) (UTxOutIndex u)
                             (txs ≫= (fun t => consumedEntry <$> TxIns t))).2 <> None))).
  - f_equal. apply list_filter_iff. intros u.
    rewrite bool_decide_eq_true, <- consumedEntry_keys.
    unfold findUnspentTxOut.
    rewrite <- (find_refersTo_None (UTxOutId u) (UTxOutIndex u)).
    destruct (List.find _ _); simpl; split; congruence.
  - intros acc u. destruct (findUnspentTxOut _ _ _).2 eqn:Hfound.
    + rewrite bool_decide_eq_true_2; done.
    + rewrite bool_decide_eq_false_2; [done | intros Hne; by apply Hne].
Qed.

Section ProcessTransactionsFacts.
Context `{GoLib}.

(** C5. [ProcessTransactions] returns an error when
    [validateBlockTransactions] fails, and otherwise returns the unspent
    outputs of [U] whose reference no input of [txs] names, followed by one
    new unspent output [(tx.id, j, out.address, out.amount)] for every
    transaction [tx] of [txs] and every position [j] of an output [out] of
    [tx]. *)
Theorem ProcessTransactions_spec (txs : list Transaction) (U : list UnspentTxOut) (i : Z) :
  ProcessTransactions txs U i
  = (if validateBlockTransactions txs U i
     then (spec_processTransactions txs U, None)
     else ([], Some "invalid block transactions"))
  /\ (forall u,
        u ∈ spec_processTransactions txs U
        <-> (u ∈ U
             /\ forall t txIn, t ∈ txs -> txIn ∈ TxIns t ->
                  ~ (TxOutId txIn = UTxOutId u /\ TxOutIndex txIn = UTxOutIndex u))
            \/ (exists t j out,
                  t ∈ txs /\ TxOuts t !! j = Some out
                  /\ u = mkUnspentTxOut (Id t) (Z.of_nat j) (Address out) (Amount out))).
Proof.
  split.
  - unfold ProcessTransactions. rewrite updateUnspentTxOuts_spec.
    destruct (validateBlockTransactions txs U i); reflexivity.
  - intros u. unfold spec_processTransactions, produced, producedBy, consumed.
    assert (Hkept :
      (utxoKey u ∉ txs ≫= (fun t => txInKey <$> TxIns t)) /\ u ∈ U
      <-> u ∈ U
          /\ forall t txIn, t ∈ txs -> txIn ∈ TxIns t ->
               ~ (TxOutId txIn = UTxOutId u /\ TxOutIndex txIn = UTxOutIndex u)).
    { split.
      * intros [Hnot Hu]. split; [exact Hu |].
        intros t txIn Ht HtxIn [Hid Hix]. apply Hnot.
        apply list_elem_of_bind. exists t. split; [| exact Ht].
        apply list_elem_of_fmap. exists txIn. split; [| exact HtxIn].
        unfold utxoKey, txInKey. by rewrite Hid, Hix.
      * intros [Hu Hnot]. split; [| exact Hu].
        intros Hin. apply list_elem_of_bind in Hin as (t & Hin & Ht).
        apply list_elem_of_fmap in Hin as (txIn & Hkey & HtxIn).
        apply (Hnot t txIn Ht HtxIn).
        unfold utxoKey, txInKey in Hkey. by injection Hkey as -> ->. }
    assert (Hnew :
      (exists t, u ∈ imap (fun j o => mkUnspentTxOut (Id t) (Z.of_nat j) (Address o) (Amount o))
                        (TxOuts t) /\ t ∈ txs)
      <-> exists t j out,
            t ∈ txs /\ TxOuts t !! j = Some out
            /\ u = mkUnspentTxOut (Id t) (Z.of_nat j) (Address out) (Amount out)).
    { split.
      * intros (t & Hu & Ht). apply elem_of_lookup_imap in Hu as (j & out & -> & Hout).
        by exists t, j, out.
      * intros (t & j & out & Ht & Hout & ->). exists t. split; [| exact Ht].
        apply elem_of_lookup_imap. by exists j, out. }
    rewrite elem_of_app, list_elem_of_filter, Hkept.
    rewrite (list_elem_of_bind _ u txs), Hnew. reflexivity.
Qed.

End ProcessTransactionsFacts.

(** ** Transaction validation *)

Lemma find_refersTo_Some_1 id ix U u :
  List.find (refersTo id ix) U = Some u -> u ∈ U /\ utxoKey u = (id, ix).
Proof.
  intros Hfind. apply find_some in Hfind as [Hin Href].
  split; [by apply list_elem_of_In | by apply refersTo_true].
Qed.

Lemma find_refersTo_Some_2 id ix U u :
  NoDup (utxoKey <$> U) -> u ∈ U -> utxoKey u = (id, ix) ->
  List.find (refersTo id ix) U = Some u.
Proof.
  induction U as [| v U IH]; intros Hnodup Hin Hkey.
  - by apply elem_of_nil in Hin.
  - rewrite fmap_cons in Hnodup. apply NoDup_cons in Hnodup as [Hfresh Hnodup].
    simpl. destruct (refersTo id ix v) eqn:Hv.
    + apply refersTo_true in Hv.
      apply elem_of_cons in Hin as [-> | Hin]; [done |].
      exfalso. apply Hfresh. rewrite Hv, <- Hkey. by apply list_elem_of_fmap_2.
    + apply elem_of_cons in Hin as [-> | Hin].
      * apply refersTo_true in Hkey. congruence.
      * by apply IH.
Qed.

Section ValidateTransactionFacts.
Context `{GoLib}.

Lemma totalTxIns_Some tx U txIns : forall total r,
  totalTxIns txIns tx U total = Some r
  <-> exists refs,
        Forall2 (resolves tx U) txIns refs
        /\ r = fold_left (fun total u => (total + UAmount u)%float) refs total.
Proof.
  induction txIns as [| txIn rest IH]; intros total r; simpl.
  - split.
    + intros [= <-]. exists []. split; [constructor | reflexivity].
    + intros (refs & Hrefs & ->). inversion Hrefs. reflexivity.
  - unfold validateTxIn, getTxInAmount, findUnspentTxOut.
    destruct (List.find _ U) as [u |] eqn:Hfind; simpl.
    + destruct (VerifySignature _ _ _) as [[|] |] eqn:Hsig; simpl.
      * rewrite IH. split.
        -- intros (refs & Hrefs & ->). exists (u :: refs).
           split; [constructor; [split |]; assumption | reflexivity].
        -- intros (refs & Hrefs & ->).
           inversion Hrefs as [| ? u' ? refs' [Hfind' _] Hrest]; subst.
           rewrite Hfind in Hfind'. injection Hfind' as <-.
           exists refs'. split; [assumption | reflexivity].
      * split; [discriminate |].
        intros (refs & Hrefs & _).
        inversion Hrefs as [| ? u' ? refs' [Hfind' Hsig'] Hrest]; subst.
        rewrite Hfind in Hfind'. injection Hfind' as <-. congruence.
      * split; [discriminate |].
        intros (refs & Hrefs & _).
        inversion Hrefs as [| ? u' ? refs' [Hfind' Hsig'] Hrest]; subst.
        rewrite Hfind in Hfind'. injection Hfind' as <-. congruence.
    + split; [discriminate |].
      intros (refs & Hrefs & _).
      inversion Hrefs as [| ? u' ? refs' [Hfind' _] Hrest]; subst. congruence.
Qed.

Lemma ValidateTransaction_true tx U :
  ValidateTransaction tx U = true
  <-> GetTransactionId tx = Id tx
      /\ exists refs,
           Forall2 (resolves tx U) (TxIns tx) refs
           /\ PrimFloat.eqb
                (fold_left (fun total u => (total + UAmount u)%float) refs 0%float)
                (totalTxOuts (TxOuts tx)) = true.
Proof.
  unfold ValidateTransaction.
  destruct (bool_decide_reflect (GetTransactionId tx = Id tx)) as [Hid | Hid]; simpl.
  - destruct (totalTxIns (TxIns tx) tx U 0%float) as [r |] eqn:Htotal.
    + apply totalTxIns_Some in Htotal as (refs & Hrefs & ->).
      destruct (PrimFloat.eqb _ _) eqn:Heq; simpl.
      * split; [| done]. intros _. split; [done |]. by exists refs.
      * split; [done |]. intros (_ & refs' & Hrefs' & Heq').
        assert (refs' = refs) as ->; [| congruence].
        clear Heq Heq'. revert refs' Hrefs'.
        induction Hrefs as [| txIn u ins refs [Hfind _] _ IH]; intros refs' Hrefs';
          inversion Hrefs' as [| ? u' ? refs'' [Hfind' _] Hrest]; subst; [done |].
        rewrite Hfind in Hfind'. injection Hfind' as <-. f_equal. by apply IH.
    + split; [done |]. intros (_ & refs & Hrefs & _).
      assert (totalTxIns (TxIns tx) tx U 0%float
              = Some (fold_left (fun total u => (total + UAmount u)%float) refs 0%float))
        as Hsome by (apply totalTxIns_Some; by exists refs).
      congruence.
  - split; [done | intros [Hid' _]; contradiction].
Qed.

Lemma find_refersTo_first (txIn : TxIn) (U : list UnspentTxOut) (u : UnspentTxOut) :
  List.find (refersTo (TxOutId txIn) (TxOutIndex txIn)) U = Some u
  <-> firstReferenced U txIn u.
Proof.
  unfold firstReferenced, txInKey.
  generalize (TxOutId txIn) (TxOutIndex txIn). intros id ix.
  induction U as [| v U IH]; simpl.
  - split; [discriminate |]. intros (l1 & l2 & Heq & _). by destruct l1.
  - destruct (refersTo id ix v) eqn:Hv.
    + split.
      * intros [= <-]. exists [], U. split; [done |].
        split; [by apply refersTo_true | apply not_elem_of_nil].
      * intros (l1 & l2 & Heq & Hkey & Hnotin). destruct l1 as [| w l1].
        -- by injection Heq as -> _.
        -- injection Heq as -> _. exfalso. apply Hnotin.
           rewrite fmap_cons. apply refersTo_true in Hv. rewrite Hv.
           apply list_elem_of_here.
    + rewrite IH. split.
      * intros (l1 & l2 & -> & Hkey & Hnotin). exists (v :: l1), l2.
        split; [done |]. split; [done |].
        rewrite fmap_cons. apply not_elem_of_cons. split; [| done].
        intros Heq. symmetry in Heq. apply refersTo_true in Heq. congruence.
      * intros (l1 & l2 & Heq & Hkey & Hnotin). destruct l1 as [| w l1].
        -- injection Heq as -> _. apply refersTo_true in Hkey. congruence.
        -- injection Heq as -> ->. exists l1, l2. split; [done |]. split; [done |].
           rewrite fmap_cons in Hnotin. by apply not_elem_of_cons in Hnotin as [_ ?].
Qed.

(** C4, amended.  [ValidateTransaction tx U] succeeds if and only if the
    recomputed id equals [tx.id], every input of [tx] has a first entry
    of [U] with its [(txOutId, txOutIndex)] and under the address of that
    entry (base58-decoded) the input's signature verifies over [tx.id],
    and the total of the amounts of these entries equals the total of
    the output amounts, both added up in order with [float64] addition
    and compared with [==].  When no two entries of [U] have the same
    reference, the first entry is the only one, and this is the validity
    of the specification. *)
Theorem ValidateTransaction_iff (tx : Transaction) (U : list UnspentTxOut) :
  (ValidateTransaction tx U = true
   <-> GetTransactionId tx = Id tx
       /\ exists refs : list UnspentTxOut,
            Forall2
              (fun txIn u =>
                 firstReferenced U txIn u
                 /\ VerifySignature (Id tx) (Signature txIn)
                      (Base58Decode (UAddress u)) = Some true)
              (TxIns tx) refs
            /\ PrimFloat.eqb
                 (fold_left (fun total u => (total + UAmount u)%float) refs 0%float)
                 (fold_left (fun total out => (total + Amount out)%float) (TxOuts tx)
                    0%float)
               = true)
  /\ (NoDup (utxoKey <$> U) ->
      ValidateTransaction tx U = true <-> spec_validTransaction tx U).
Proof.
  split.
  - rewrite ValidateTransaction_true. unfold totalTxOuts.
    assert (Hrefs : forall refs,
      Forall2 (resolves tx U) (TxIns tx) refs
      <-> Forall2
            (fun txIn u =>
               firstReferenced U txIn u
               /\ VerifySignature (Id tx) (Signature txIn)
                    (Base58Decode (UAddress u)) = Some true)
            (TxIns tx) refs).
    { intros refs.
      split; (intros Hall; eapply Forall2_impl; [exact Hall |]); unfold resolves;
        intros txIn u [Hfind Hsig]; (split; [| exact Hsig]);
        by apply find_refersTo_first. }
    split; intros [Hid (refs & Hall & Heq)]; (split; [exact Hid |]);
      exists refs; (split; [by apply Hrefs | exact Heq]).
  - intros Hnodup. rewrite ValidateTransaction_true.
    unfold spec_validTransaction, totalTxOuts.
    assert (Hrefs : forall refs,
      Forall2 (resolves tx U) (TxIns tx) refs
      <-> Forall2
            (fun txIn u =>
               u ∈ U
               /\ UTxOutId u = TxOutId txIn /\ UTxOutIndex u = TxOutIndex txIn
               /\ VerifySignature (Id tx) (Signature txIn)
                    (Base58Decode (UAddress u)) = Some true)
            (TxIns tx) refs).
    { intros refs.
      split; (intros Hall; eapply Forall2_impl; [exact Hall |]); unfold resolves.
      - intros txIn u [Hfind Hsig].
        apply find_refersTo_Some_1 in Hfind as [Hin [= Hid Hix]]. done.
      - intros txIn u (Hin & Hid & Hix & Hsig). split; [| exact Hsig].
        apply find_refersTo_Some_2; [done | done |].
        unfold utxoKey. by rewrite Hid, Hix. }
    split; intros [Hid (refs & Hall & Heq)]; (split; [exact Hid |]);
      exists refs; (split; [by apply Hrefs | exact Heq]).
Qed.

End ValidateTransactionFacts.

Section ValidateTransactionExample.
#[local] Existing Instance RefCrypto.

(** C4, as stated, fails on unspent outputs in which two entries have the
    same reference.  In [twiceUnspent] the output of the genesis
    transaction is listed for the address of the genesis block and then
    for the key of [tx_spend].  The signature of [tx_spend] verifies under
    the second address, the amounts are equal and the id is right, so the
    transaction is valid as the specification words it; the code checks
    the signature against the first entry only, where [VerifySignature]
    returns false, and turns the transaction down. *)
Lemma ValidateTransaction_checks_first_entry :
  ValidateTransaction tx_spend twiceUnspent = false
  /\ VerifySignature (Id tx_spend) spendSignature (Base58Decode genesisAddress)
     = Some false
  /\ spec_validTransaction tx_spend twiceUnspent.
Proof.
  split; [vm_compute; reflexivity |]. split; [vm_compute; reflexivity |].
  split; [vm_compute; reflexivity |].
  exists spenderUnspent. split; [| vm_compute; reflexivity].
  apply Forall2_cons. split; [| apply Forall2_nil_2].
  split; [apply elem_of_app; right; apply list_elem_of_here |].
  split; [reflexivity |]. split; [reflexivity |].
  vm_compute. reflexivity.
Qed.

Lemma ValidateTransaction_iff_witness :
  ValidateTransaction tx_spend spenderUnspent = true
  /\ TxIns tx_spend <> []
  /\ spec_validTransaction tx_spend spenderUnspent.
Proof.
  assert (Hvalid : ValidateTransaction tx_spend spenderUnspent = true)
    by (vm_compute; reflexivity).
  split; [exact Hvalid |]. split; [discriminate |].
  apply (proj2 (ValidateTransaction_iff tx_spend spenderUnspent)).
  - apply NoDup_singleton.
  - exact Hvalid.
Defined.

End ValidateTransactionExample.

(** ** The transaction pool *)


Lemma containsTxIn_true txIns txIn :
  containsTxIn txIns txIn = true <-> exists x, x ∈ txIns /\ txInKey x = txInKey txIn.
Proof.
  unfold containsTxIn. rewrite existsb_exists. unfold txInKey.
  split; intros (x & Hx & Heq); exists x.
  - apply list_elem_of_In in Hx. split; [done |].
    apply andb_true_iff in Heq as [Hid Hix].
    apply bool_decide_eq_true in Hid, Hix. by rewrite Hid, Hix.
  - apply list_elem_of_In in Hx. split; [done |].
    injection Heq as Hid Hix. apply andb_true_iff.
    by rewrite !bool_decide_eq_true.
Qed.

Lemma getTxPoolIns_bind pool : getTxPoolIns pool = pool ≫= TxIns.
Proof. unfold getTxPoolIns. by rewrite fold_left_append. Qed.

Lemma isValidTxForPool_true tx pool :
  isValidTxForPool tx pool = true <-> forall t, t ∈ pool -> ~ sharesInput t tx.
Proof.
  unfold isValidTxForPool. rewrite forallb_forall, getTxPoolIns_bind. split.
  - intros Hall t Ht (a & b & Ha & Hb & Hkey).
    specialize (Hall b (proj1 (list_elem_of_In _ _) Hb)).
    apply negb_true_iff, not_true_iff_false in Hall. apply Hall.
    apply containsTxIn_true. exists a. split; [| exact Hkey].
    apply list_elem_of_bind. by exists t.
  - intros Hnone txIn HtxIn. apply list_elem_of_In in HtxIn.
    apply negb_true_iff, not_true_iff_false. intros Hin.
    apply containsTxIn_true in Hin as (x & Hx & Hkey).
    apply list_elem_of_bind in Hx as (t & Hx & Ht).
    apply (Hnone t Ht). by exists x, txIn.
Qed.

Lemma UpdateTransactionPool_filter U pool :
  UpdateTransactionPool U pool
  = filter (fun t => forallb (fun txIn => hasTxIn txIn U) (TxIns t) = true) pool.
Proof.
  unfold UpdateTransactionPool.
  by rewrite (fold_left_keep (fun t => forallb (fun txIn => hasTxIn txIn U) (TxIns t))).
Qed.

Section PairwiseFacts.
Context {A : Type} (R : A -> A -> Prop).

Lemma ForallOrdPairs_snoc l x :
  ForallOrdPairs R l -> Forall (fun y => R y x) l -> ForallOrdPairs R (l ++ [x]).
Proof.
  induction 1 as [| y l Hy Hl IH]; intros Hx; simpl.
  - constructor; constructor.
  - apply Forall_cons in Hx as [Hyx Hx]. constructor; [| by apply IH].
    apply Forall_app. split; [exact Hy | by constructor].
Qed.

Lemma ForallOrdPairs_filter (P : A -> Prop) `{forall x, Decision (P x)} l :
  ForallOrdPairs R l -> ForallOrdPairs R (filter P l).
Proof.
  induction 1 as [| y l Hy Hl IH]; [constructor |].
  rewrite filter_cons. destruct (decide (P y)); [| exact IH].
  constructor; [| exact IH].
  apply Forall_forall. intros x Hx. apply list_elem_of_filter in Hx as [_ Hx].
  revert x Hx. by apply Forall_forall.
Qed.


End PairwiseFacts.

Section TxpoolFacts.
Context `{GoLib}.

Lemma poolDisjoint_add tx U pool :
  poolDisjoint pool -> poolDisjoint (AddToTransactionPool tx U pool).1.
Proof.
  intros Hpool. unfold AddToTransactionPool.
  destruct (ValidateTransaction tx U); simpl; [| exact Hpool].
  destruct (isValidTxForPool tx pool) eqn:Hvalid; simpl; [| exact Hpool].
  apply ForallOrdPairs_snoc; [exact Hpool |].
  apply Forall_forall. by apply isValidTxForPool_true.
Qed.

Lemma poolDisjoint_update U pool :
  poolDisjoint pool -> poolDisjoint (UpdateTransactionPool U pool).
Proof.
  intros Hpool. rewrite UpdateTransactionPool_filter.
  by apply ForallOrdPairs_filter.
Qed.



End TxpoolFacts.

(** ** Whole-chain validation as a replay *)

Section ReplayFacts.
Context `{GoLib}.

Lemma IsValidBlockChain_loop_replays clock chain rest : forall n prev U0 U,
  IsValidBlockChain_loop clock chain n prev rest U0 = Some (U, None) ->
  replays rest U0 U.
Proof.
  induction rest as [| b rest IH]; intros n prev U0 U Hloop; simpl in Hloop.
  - injection Hloop as <-. constructor.
  - destruct (match prev with
              | Some p => IsValidBlock (clock n) chain p b
              | None => Some true
              end) as [valid |]; simpl in Hloop; [| discriminate].
    destruct valid; simpl in Hloop; [| discriminate].
    unfold ProcessTransactions in Hloop. rewrite updateUnspentTxOuts_spec in Hloop.
    destruct (validateBlockTransactions _ _ _) eqn:Hvalid; simpl in Hloop;
      [| discriminate].
    apply IH in Hloop. by constructor.
Qed.

Lemma IsValidBlockChain_replays clock chain U :
  IsValidBlockChain clock chain = Some (U, None) -> replays chain [] U.
Proof.
  unfold IsValidBlockChain. intros Hvalid.
  destruct (chain !! 0%nat) as [b0 |]; simpl in Hvalid; [| discriminate].
  destruct (bool_decide _); simpl in Hvalid; [| discriminate].
  by eapply IsValidBlockChain_loop_replays.
Qed.

End ReplayFacts.

(** ** Uniqueness of references in the UTXO set *)

Lemma NoDup_fmap_filter {A B} (f : A -> B) (P : A -> Prop) `{forall x, Decision (P x)} l :
  NoDup (f <$> l) -> NoDup (f <$> filter P l).
Proof.
  induction l as [| x l IH]; [done |].
  rewrite fmap_cons, NoDup_cons, filter_cons. intros [Hx Hl].
  destruct (decide (P x)); [| by apply IH].
  rewrite fmap_cons, NoDup_cons. split; [| by apply IH].
  intros Hin. apply Hx.
  apply list_elem_of_fmap in Hin as (y & -> & Hy).
  apply list_elem_of_filter in Hy as [_ Hy]. by apply list_elem_of_fmap_2.
Qed.

Lemma producedBy_keys t u : u ∈ producedBy t -> UTxOutId u = Id t.
Proof.
  unfold producedBy. intros Hu.
  apply elem_of_lookup_imap in Hu as (j & out & -> & _). reflexivity.
Qed.

Lemma produced_ids txs u : u ∈ produced txs -> UTxOutId u ∈ Id <$> txs.
Proof.
  unfold produced. intros Hu. apply list_elem_of_bind in Hu as (t & Hu & Ht).
  rewrite (producedBy_keys t u Hu). by apply list_elem_of_fmap_2.
Qed.

Lemma NoDup_producedBy t : NoDup (utxoKey <$> producedBy t).
Proof.
  apply NoDup_alt. intros i j key Hi Hj. unfold producedBy in Hi, Hj.
  rewrite list_lookup_fmap, list_lookup_imap in Hi, Hj.
  destruct (TxOuts t !! i) as [oi |]; simpl in Hi; [| discriminate Hi].
  destruct (TxOuts t !! j) as [oj |]; simpl in Hj; [| discriminate Hj].
  rewrite <- Hj in Hi. injection Hi as Hij. lia.
Qed.

Lemma NoDup_produced txs : NoDup (Id <$> txs) -> NoDup (utxoKey <$> produced txs).
Proof.
  unfold produced. induction txs as [| t txs IH]; [intros _; constructor |].
  rewrite fmap_cons, NoDup_cons, bind_cons, fmap_app. intros [Ht Htxs].
  apply NoDup_app. split; [apply NoDup_producedBy | split; [| by apply IH]].
  intros key Hkey Hkey'. apply Ht.
  apply list_elem_of_fmap in Hkey as (u & -> & Hu).
  apply list_elem_of_fmap in Hkey' as (u' & Heq & Hu').
  apply producedBy_keys in Hu. apply (produced_ids txs) in Hu'.
  unfold utxoKey in Heq. injection Heq as Hid _. by rewrite <- Hu, Hid.
Qed.

Lemma utxoInv_step seen txs U :
  utxoInv seen U ->
  NoDup (Id <$> txs) ->
  (forall id, id ∈ Id <$> txs -> id ∉ seen) ->
  utxoInv (seen ++ (Id <$> txs)) (spec_processTransactions txs U).
Proof.
  intros [Hnodup Hseen] Hids Hfresh. unfold spec_processTransactions. split.
  - rewrite fmap_app. apply NoDup_app.
    split; [by apply NoDup_fmap_filter | split; [| by apply NoDup_produced]].
    intros key Hkey Hkey'.
    apply list_elem_of_fmap in Hkey as (u & -> & Hu).
    apply list_elem_of_filter in Hu as [_ Hu].
    apply list_elem_of_fmap in Hkey' as (u' & Heq & Hu').
    apply produced_ids in Hu'. unfold utxoKey in Heq. injection Heq as Hid _.
    apply (Hfresh (UTxOutId u)); [by rewrite Hid | by apply Hseen].
  - intros u Hu. apply elem_of_app. apply elem_of_app in Hu as [Hu | Hu].
    + left. apply list_elem_of_filter in Hu as [_ Hu]. by apply Hseen.
    + right. by apply produced_ids.
Qed.

Section UniqueReferences.
Context `{GoLib}.

Lemma replays_utxoInv blocks U U' :
  replays blocks U U' ->
  forall seen,
    utxoInv seen U ->
    NoDup (chainTxIds blocks) ->
    (forall id, id ∈ chainTxIds blocks -> id ∉ seen) ->
    utxoInv (seen ++ chainTxIds blocks) U'.
Proof.
  unfold chainTxIds.
  induction 1 as [U | b rest U U' _ _ IH]; intros seen Hinv Hnodup Hfresh.
  - by rewrite app_nil_r.
  - rewrite bind_cons in Hnodup, Hfresh |- *.
    apply NoDup_app in Hnodup as (Hb & Hdisj & Hrest).
    rewrite app_assoc. apply IH; [| exact Hrest |].
    + apply utxoInv_step; [exact Hinv | exact Hb |].
      intros id Hid. apply Hfresh, elem_of_app. by left.
    + intros id Hid Hseen. apply elem_of_app in Hseen as [Hseen | Hseen].
      * apply (Hfresh id); [apply elem_of_app; by right | exact Hseen].
      * by apply (Hdisj id).
Qed.

(** C6, amended. For every chain accepted by whole-chain validation in
    which no two transactions (of the same or of different blocks) have
    the same id, every [(txOutId, txOutIndex)] pair occurs at most once in
    the resulting UTXO set. *)
Theorem accepted_chain_references_unique (clock : nat -> Z) (chain : list Block)
    (U : list UnspentTxOut) :
  IsValidBlockChain clock chain = Some (U, None) ->
  NoDup (chainTxIds chain) ->
  NoDup (utxoKey <$> U).
Proof.
  intros Hvalid Hids. apply IsValidBlockChain_replays in Hvalid.
  apply (replays_utxoInv chain [] U Hvalid []); [| exact Hids |].
  - split; [constructor | intros u Hu; by apply elem_of_nil in Hu].
  - intros id _. apply not_elem_of_nil.
Qed.

End UniqueReferences.

Section UniqueReferencesExamples.
#[local] Existing Instance RefLib.

(** C6, as stated, fails: the chain of the genesis block and a block at
    height 1 that holds, after its coinbase, the same transaction twice
    (no input, one output worth nothing) is accepted, and the resulting
    UTXO set holds the reference [(id, 0)] of that output twice. *)
Lemma accepted_chain_with_repeated_reference :
  exists U,
    IsValidBlockChain clock1020 chain_twice = Some (U, None)
    /\ ~ NoDup (utxoKey <$> U).
Proof.
  eexists. split; [vm_compute; reflexivity |].
  intros Hnodup.
  apply NoDup_cons in Hnodup as [_ Hnodup].
  apply NoDup_cons in Hnodup as [_ Hnodup].
  apply NoDup_cons in Hnodup as [Hnotin _].
  apply Hnotin. apply list_elem_of_here.
Qed.

Lemma accepted_chain_references_unique_witness :
  exists U,
    IsValidBlockChain clock1020 [GenesisBlock; block1_miner] = Some (U, None)
    /\ NoDup (utxoKey <$> U).
Proof.
  eexists. split; [vm_compute; reflexivity |].
  apply (accepted_chain_references_unique clock1020 [GenesisBlock; block1_miner]).
  - vm_compute. reflexivity.
  - apply (bool_decide_unpack _). vm_compute. exact I.
Defined.

End UniqueReferencesExamples.

(** ** Exact totals *)

Lemma eqb_coinBaseAmount (a : float) :
  PrimFloat.eqb a coinBaseAmount = true -> a = coinBaseAmount.
Proof.
  intros Heq. apply Prim2SF_inj.
  rewrite FloatAxioms.eqb_spec in Heq.
  change (Prim2SF coinBaseAmount) with (S754_finite false 7036874417766400 (-47)) in *.
  destruct (Prim2SF a) as [s | s | | s m e];
    unfold SFeqb, SFcompare in Heq; try discriminate Heq;
    try (destruct s; discriminate Heq).
  destruct s; [discriminate Heq |].
  destruct (Z.compare_spec e (-47)) as [He | He | He]; try discriminate Heq.
  destruct (PosDef.Pos.compare_cont Eq m 7036874417766400) eqn:Hm;
    try discriminate Heq.
  apply (Pos.compare_eq m) in Hm. by rewrite Hm, He.
Qed.

Lemma exact_coinBaseAmount : exact coinBaseAmount = 50%R.
Proof.
  unfold exact.
  replace (Prim2SF coinBaseAmount) with (S754_finite false 7036874417766400 (-47))
    by reflexivity.
  lazy beta iota zeta delta [Z.leb Z.compare Z.opp Z.pow Z.pow_pos Pos.iter Z.mul Pos.mul
                             Pos.add Pos.succ].
  lra.
Qed.

Section Totals.
Context {A : Type} (f : A -> R).

Lemma total_app l k : total f (l ++ k) = (total f l + total f k)%R.
Proof. induction l as [| x l IH]; simpl; [lra | rewrite IH; lra]. Qed.

Lemma total_fmap {B} (g : B -> A) l : total f (g <$> l) = total (fun x => f (g x)) l.
Proof.
  induction l as [| x l IH]; [done |].
  rewrite fmap_cons. simpl. by rewrite IH.
Qed.

Lemma total_bind {B} (g : B -> list A) l :
  total f (l ≫= g) = total (fun x => total f (g x)) l.
Proof.
  induction l as [| x l IH]; [done |].
  rewrite bind_cons, total_app, IH. done.
Qed.

Lemma total_Permutation l k : l ≡ₚ k -> total f l = total f k.
Proof. induction 1; simpl; lra. Qed.

Lemma total_filter (P : A -> Prop) `{forall x, Decision (P x)} l :
  total f l = (total f (filter P l) + total f (filter (fun x => ~ P x) l))%R.
Proof.
  induction l as [| x l IH]; simpl; [lra |].
  rewrite !filter_cons. destruct (decide (P x)).
  - rewrite decide_False by tauto. simpl. lra.
  - rewrite decide_True by tauto. simpl. lra.
Qed.

Lemma total_ext (g : A -> R) l :
  (forall x, x ∈ l -> f x = g x) -> total f l = total g l.
Proof.
  induction l as [| x l IH]; intros Hfg; simpl; [done |].
  rewrite (Hfg x), IH; [done | | apply list_elem_of_here].
  intros y Hy. apply Hfg. by apply list_elem_of_further.
Qed.

End Totals.

Lemma filter_ext_in {A} (P Q : A -> Prop)
    `{forall x, Decision (P x)} `{forall x, Decision (Q x)} (l : list A) :
  (forall x, x ∈ l -> P x <-> Q x) -> filter P l = filter Q l.
Proof.
  induction l as [| x l IH]; intros HPQ; [done |].
  rewrite !filter_cons.
  assert (Hx : P x <-> Q x) by (apply HPQ, list_elem_of_here).
  rewrite IH by (intros y Hy; apply HPQ; by apply list_elem_of_further).
  destruct (decide (P x)), (decide (Q x)); tauto.
Qed.

(** ** Inputs of a validated block *)

Lemma hasDuplicateTxIns_loop_false txIns : forall hashmap,
  hasDuplicateTxIns_loop txIns hashmap = false ->
  NoDup (txInMapKey <$> txIns)
  /\ forall txIn, txIn ∈ txIns -> default false (hashmap !! txInMapKey txIn) = false.
Proof.
  induction txIns as [| txIn rest IH]; intros hashmap Hloop.
  - split; [constructor | intros txIn Hin; by apply elem_of_nil in Hin].
  - simpl in Hloop. fold (txInMapKey txIn) in Hloop.
    destruct (default false (hashmap !! txInMapKey txIn)) eqn:Hseen; [discriminate |].
    apply IH in Hloop as [Hnodup Hrest].
    assert (Hfresh : forall x, x ∈ rest -> txInMapKey x <> txInMapKey txIn).
    { intros x Hx Heq. specialize (Hrest x Hx).
      by rewrite Heq, lookup_insert_eq in Hrest. }
    split.
    + rewrite fmap_cons. apply NoDup_cons. split; [| exact Hnodup].
      intros Hin. apply list_elem_of_fmap in Hin as (x & Heq & Hx).
      by apply (Hfresh x Hx).
    + intros x Hx. apply elem_of_cons in Hx as [-> | Hx]; [exact Hseen |].
      specialize (Hrest x Hx).
      rewrite lookup_insert_ne in Hrest; [exact Hrest |].
      intros Heq. by apply (Hfresh x Hx).
Qed.

Lemma hasDuplicateTxIns_false txIns :
  hasDuplicateTxIns txIns = false -> NoDup (txInKey <$> txIns).
Proof.
  intros Hdup. apply hasDuplicateTxIns_loop_false in Hdup as [Hnodup _].
  apply (NoDup_fmap_1 (fun key : string * Z => key.1 +:+ fmt_d key.2)).
  by rewrite <- list_fmap_compose.
Qed.

Lemma flattenTxIns_bind txs : flattenTxIns txs = txs ≫= TxIns.
Proof. unfold flattenTxIns. by rewrite fold_left_append. Qed.

Lemma validateCoinbaseTx_true tx blockIndex :
  validateCoinbaseTx tx blockIndex = true ->
  exists txIn out,
    TxIns tx = [txIn] /\ TxOuts tx = [out] /\ Amount out = coinBaseAmount.
Proof.
  unfold validateCoinbaseTx. intros Hvalid.
  destruct (bool_decide _); simpl in Hvalid; [| discriminate].
  destruct (TxIns tx) as [| txIn [| ? ?]]; try discriminate.
  destruct (bool_decide _); simpl in Hvalid; [| discriminate].
  destruct (TxOuts tx) as [| out [| ? ?]]; try discriminate.
  destruct (PrimFloat.eqb (Amount out) coinBaseAmount) eqn:Heq; [| discriminate].
  exists txIn, out. by rewrite (eqb_coinBaseAmount _ Heq).
Qed.

Lemma getTxInAmount_referenced txIn U :
  getTxInAmount txIn U = UAmount (referenced U txIn).
Proof.
  unfold getTxInAmount, referenced, findUnspentTxOut.
  by destruct (List.find _ U).
Qed.

Lemma referenced_found U txIn u :
  List.find (refersTo (TxOutId txIn) (TxOutIndex txIn)) U = Some u ->
  referenced U txIn = u.
Proof. unfold referenced, findUnspentTxOut. by intros ->. Qed.

Lemma consumed_Permutation U txIns :
  NoDup (utxoKey <$> U) ->
  NoDup (txInKey <$> txIns) ->
  (forall txIn, txIn ∈ txIns ->
     exists u, List.find (refersTo (TxOutId txIn) (TxOutIndex txIn)) U = Some u) ->
  filter (fun u => utxoKey u ∈ txInKey <$> txIns) U ≡ₚ referenced U <$> txIns.
Proof.
  intros HU Hins Hfound.
  assert (Hkey : forall txIn, txIn ∈ txIns ->
            referenced U txIn ∈ U /\ utxoKey (referenced U txIn) = txInKey txIn).
  { intros txIn Hin. destruct (Hfound txIn Hin) as [u Hu].
    rewrite (referenced_found U txIn u Hu). by apply find_refersTo_Some_1. }
  apply NoDup_Permutation.
  - apply NoDup_filter. by apply (NoDup_fmap_1 utxoKey).
  - apply (NoDup_fmap_1 utxoKey). rewrite <- list_fmap_compose.
    rewrite (list_fmap_ext (utxoKey ∘ referenced U) txInKey txIns); [exact Hins |].
    intros i txIn Hi. simpl. apply Hkey. by eapply list_elem_of_lookup_2.
  - intros u. rewrite list_elem_of_filter, !list_elem_of_fmap. split.
    + intros [(txIn & Heq & Hin) Hu]. exists txIn. split; [| exact Hin].
      destruct (Hfound txIn Hin) as [u' Hu'].
      rewrite (referenced_found U txIn u' Hu').
      pose proof (find_refersTo_Some_2 _ _ U u HU Hu Heq) as Hfind.
      unfold txInKey in Hfind. congruence.
    + intros (txIn & -> & Hin). destruct (Hkey txIn Hin) as [HinU Heq].
      split; [| exact HinU]. by exists txIn.
Qed.

Lemma total_imap_amount (g : nat -> TxOut -> UnspentTxOut) outs :
  (forall j out, UAmount (g j out) = Amount out) ->
  total (fun u => exact (UAmount u)) (imap g outs)
  = total (fun out => exact (Amount out)) outs.
Proof.
  revert g. induction outs as [| out outs IH]; intros g Hg; [done |].
  rewrite imap_cons. simpl. rewrite Hg, IH; [done |].
  intros j out'. apply Hg.
Qed.

Lemma total_producedBy t :
  total (fun u => exact (UAmount u)) (producedBy t)
  = total (fun out => exact (Amount out)) (TxOuts t).
Proof. by apply total_imap_amount. Qed.

Section Conservation.
Context `{GoLib}.

Lemma ValidateTransaction_found tx U txIn :
  ValidateTransaction tx U = true -> txIn ∈ TxIns tx ->
  exists u, List.find (refersTo (TxOutId txIn) (TxOutIndex txIn)) U = Some u.
Proof.
  intros Hvalid Hin. apply ValidateTransaction_true in Hvalid as (_ & refs & Hrefs & _).
  apply list_elem_of_lookup_1 in Hin as [i Hi].
  destruct (Forall2_lookup_l _ _ _ _ _ Hrefs Hi) as (u & _ & Hu & _).
  by exists u.
Qed.

Lemma block_total U coinbaseTx others blockIndex :
  NoDup (utxoKey <$> U) ->
  validateBlockTransactions (coinbaseTx :: others) U blockIndex = true ->
  (forall txIn, txIn ∈ TxIns coinbaseTx -> txInKey txIn ∉ utxoKey <$> U) ->
  (forall t, t ∈ others ->
     total (fun txIn => exact (getTxInAmount txIn U)) (TxIns t)
     = total (fun out => exact (Amount out)) (TxOuts t)) ->
  total (fun u => exact (UAmount u)) (spec_processTransactions (coinbaseTx :: others) U)
  = (total (fun u => exact (UAmount u)) U + 50)%R.
Proof.
  intros HU Hvalid Hcoinbase Hexact.
  unfold validateBlockTransactions in Hvalid.
  destruct (validateCoinbaseTx coinbaseTx blockIndex) eqn:Hcb; simpl in Hvalid;
    [| discriminate].
  destruct (hasDuplicateTxIns _) eqn:Hdup; [discriminate |].
  apply validateCoinbaseTx_true in Hcb as (txIn0 & out0 & Hins0 & Houts0 & Hamount).
  apply hasDuplicateTxIns_false in Hdup.
  rewrite flattenTxIns_bind, bind_cons, fmap_app in Hdup.
  apply NoDup_app in Hdup as (_ & _ & Hdup).
  assert (Hfound : forall txIn, txIn ∈ others ≫= TxIns ->
            exists u, List.find (refersTo (TxOutId txIn) (TxOutIndex txIn)) U = Some u).
  { intros txIn Hin. apply list_elem_of_bind in Hin as (t & Hin & Ht).
    apply (ValidateTransaction_found t); [| exact Hin].
    rewrite forallb_forall in Hvalid. apply Hvalid. by apply list_elem_of_In. }
  pose proof (consumed_Permutation U _ HU Hdup Hfound) as Hperm.
  apply (total_Permutation (fun u => exact (UAmount u))) in Hperm.
  rewrite total_fmap, total_bind in Hperm.
  rewrite (total_ext _ (fun t => total (fun out => exact (Amount out)) (TxOuts t)))
    in Hperm.
  2: { intros t Ht. rewrite <- (Hexact t Ht).
       apply total_ext. intros txIn _. by rewrite getTxInAmount_referenced. }
  assert (Hsame :
    filter (fun u => utxoKey u ∈ consumed (coinbaseTx :: others)) U
    = filter (fun u => utxoKey u ∈ txInKey <$> (others ≫= TxIns)) U).
  { apply filter_ext_in. intros u Hu. unfold consumed.
    rewrite bind_cons, elem_of_app.
    assert (Hflat : (others ≫= fun t => txInKey <$> TxIns t)
                    = txInKey <$> (others ≫= TxIns)).
    { clear. induction others as [| t others IH]; [done |].
      by rewrite !bind_cons, fmap_app, IH. }
    rewrite Hflat. split; [| by right].
    intros [Hin | Hin]; [| exact Hin]. exfalso.
    apply list_elem_of_fmap in Hin as (txIn & Heq & Hin).
    apply (Hcoinbase txIn Hin). rewrite <- Heq. by apply list_elem_of_fmap_2. }
  unfold spec_processTransactions.
  rewrite total_app.
  rewrite (total_filter _ (fun u => utxoKey u ∈ consumed (coinbaseTx :: others)) U).
  rewrite Hsame, Hperm.
  unfold produced. rewrite bind_cons, total_app, total_bind.
  rewrite (total_ext _ (fun t => total (fun out => exact (Amount out)) (TxOuts t))
             others) by (intros t _; apply total_producedBy).
  rewrite total_producedBy, Houts0. simpl.
  rewrite Hamount, exact_coinBaseAmount.
  lra.
Qed.

End Conservation.

Section ChainTotal.
Context `{GoLib}.

Lemma replays_total blocks U U' :
  replays blocks U U' ->
  forall seen,
    utxoInv seen U ->
    NoDup (chainTxIds blocks) ->
    (forall id, id ∈ chainTxIds blocks -> id ∉ seen) ->
    conservesExactly blocks U ->
    total (fun u => exact (UAmount u)) U'
    = (total (fun u => exact (UAmount u)) U + 50 * INR (length blocks))%R.
Proof.
  unfold chainTxIds.
  induction 1 as [U | b rest U U' Hvalid _ IH];
    intros seen Hinv Hnodup Hfresh Hexact.
  - simpl. lra.
  - rewrite bind_cons in Hnodup, Hfresh.
    apply NoDup_app in Hnodup as (Hb & Hdisj & Hrest).
    simpl in Hexact. destruct Hexact as [Hblock Hexact].
    rewrite (IH (seen ++ (Id <$> Transactions (Fields b)))); [| | exact Hrest | | exact Hexact].
    + destruct (Transactions (Fields b)) as [| coinbaseTx others] eqn:Htxs;
        [discriminate Hvalid |].
      destruct Hblock as [Hcoinbase Hothers].
      rewrite (block_total U coinbaseTx others (Index (Fields b)));
        [| apply Hinv | exact Hvalid | exact Hcoinbase | exact Hothers].
      change (length (b :: rest)) with (S (length rest)). rewrite S_INR. lra.
    + apply utxoInv_step; [exact Hinv | exact Hb |].
      intros id Hid. apply Hfresh, elem_of_app. by left.
    + intros id Hid Hseen. apply elem_of_app in Hseen as [Hseen | Hseen].
      * apply (Hfresh id); [apply elem_of_app; by right | exact Hseen].
      * by apply (Hdisj id).
Qed.

(** C7, amended. For every chain accepted by whole-chain validation in
    which no two transactions have the same id, no coinbase input names an
    output that is unspent when its block is processed, and the outputs of
    every non-coinbase transaction total, as real numbers, exactly what the
    outputs it spends total, the real-number sum of the amounts in the
    terminal UTXO set is 50 times the number of blocks. *)
Theorem accepted_chain_total (clock : nat -> Z) (chain : list Block)
    (U : list UnspentTxOut) :
  IsValidBlockChain clock chain = Some (U, None) ->
  NoDup (chainTxIds chain) ->
  conservesExactly chain [] ->
  total (fun u => exact (UAmount u)) U = (50 * INR (length chain))%R.
Proof.
  intros Hvalid Hids Hexact. apply IsValidBlockChain_replays in Hvalid.
  rewrite (replays_total chain [] U Hvalid []); [simpl; lra | | exact Hids | | exact Hexact].
  - split; [constructor | intros u Hu; by apply elem_of_nil in Hu].
  - intros id _. apply not_elem_of_nil.
Qed.

End ChainTotal.

Section ChainTotalExamples.
#[local] Existing Instance RefLib.

(** C7, as stated, fails: the chain of the genesis block, a block at height
    1 holding a transaction without inputs whose three outputs are worth -5,
    0 and 5, and a block at height 2 whose coinbase input names the third of
    these outputs, is accepted; the amounts left unspent are 50, 50, -5, 0
    and 50, which total 145 and not 150. *)
Lemma accepted_chain_with_burnt_output :
  exists U,
    IsValidBlockChain clock1020 chain_burn = Some (U, None)
    /\ UAmount <$> U = [50; 50; -5; 0; 50]%float
    /\ fold_left (fun s u => (s + UAmount u)%float) U 0%float = 145%float
    /\ PrimFloat.eqb 145 (50 * 3) = false.
Proof.
  eexists. split; [vm_compute; reflexivity |].
  split; [| split]; vm_compute; reflexivity.
Qed.

Lemma accepted_chain_total_witness :
  exists U,
    IsValidBlockChain clock1020 [GenesisBlock; block1_miner] = Some (U, None)
    /\ total (fun u => exact (UAmount u)) U
       = (50 * INR (length [GenesisBlock; block1_miner]))%R.
Proof.
  eexists. split; [vm_compute; reflexivity |].
  apply (accepted_chain_total clock1020 [GenesisBlock; block1_miner]).
  - vm_compute. reflexivity.
  - apply (bool_decide_unpack _). vm_compute. exact I.
  - repeat split.
    + intros txIn _. apply not_elem_of_nil.
    + intros t Ht. by apply elem_of_nil in Ht.
    + intros txIn HtxIn. apply list_elem_of_singleton in HtxIn as ->.
      apply (bool_decide_unpack _). vm_compute. exact I.
    + intros t Ht. by apply elem_of_nil in Ht.
Defined.

End ChainTotalExamples.

(** ** Fork choice *)

Section ForkChoiceExamples.
#[local] Existing Instance RefLib.

(** C1, on the code: a node that has just started appends [block1_miner];
    the counter [cumulativeBlocksDifficulty], still 0, is incremented to 1
    although the local chain weighs 2.  A candidate chain of the same weight
    2 is then compared with the counter, found heavier, and replaces the
    local chain. *)
Theorem ReplaceChain_replaces_on_tie :
  exists st st',
    AddBlockToChain 1020 initialState block1_miner = Some (st, true)
    /\ blockchain st = [GenesisBlock; block1_miner]
    /\ cumulativeBlocksDifficulty st = 1
    /\ GetCumulativeDifficulty (blockchain st) = 2
    /\ GetCumulativeDifficulty [GenesisBlock; block1_other] = 2
    /\ ReplaceChain clock1020 st [GenesisBlock; block1_other] = Some (st', None)
    /\ blockchain st' = [GenesisBlock; block1_other].
Proof.
  eexists. eexists.
  do 6 (split; [vm_compute; reflexivity |]).
  vm_compute. reflexivity.
Qed.

End ForkChoiceExamples.


(** * Further properties *)

(** ** Duplicate inputs *)

Lemma hasDuplicateTxIns_loop_NoDup txIns : forall hashmap,
  NoDup (txInMapKey <$> txIns) ->
  (forall txIn, txIn ∈ txIns -> default false (hashmap !! txInMapKey txIn) = false) ->
  hasDuplicateTxIns_loop txIns hashmap = false.
Proof.
  induction txIns as [| txIn rest IH]; intros hashmap Hnodup Hfresh; [done |].
  rewrite fmap_cons in Hnodup. apply NoDup_cons in Hnodup as [Hnotin Hnodup].
  simpl. fold (txInMapKey txIn).
  rewrite (Hfresh txIn) by apply list_elem_of_here.
  apply IH; [exact Hnodup |].
  intros x Hx. rewrite lookup_insert_ne.
  - apply Hfresh. by apply list_elem_of_further.
  - intros Heq. apply Hnotin. rewrite Heq. by apply list_elem_of_fmap_2.
Qed.

Lemma hasDuplicateTxIns_NoDup (txIns : list TxIn) :
  hasDuplicateTxIns txIns = false <-> NoDup (txInMapKey <$> txIns).
Proof.
  split.
  - intros Hdup. by apply hasDuplicateTxIns_loop_false in Hdup as [Hnodup _].
  - intros Hnodup. apply hasDuplicateTxIns_loop_NoDup; [exact Hnodup |].
    intros txIn _. by rewrite lookup_empty.
Qed.

(** X1. [hasDuplicateTxIns] returns false exactly when the map keys of the
    inputs, [txOutId] followed by the decimal [txOutIndex], are pairwise
    distinct; so a list it lets through has pairwise distinct references,
    and a list in which some reference occurs twice is always reported. *)
Theorem hasDuplicateTxIns_iff (txIns : list TxIn) :
  (hasDuplicateTxIns txIns = false <-> NoDup (txInMapKey <$> txIns))
  /\ (hasDuplicateTxIns txIns = false -> NoDup (txInKey <$> txIns))
  /\ (forall l1 a l2 b l3,
        txIns = l1 ++ a :: l2 ++ b :: l3 -> txInKey a = txInKey b ->
        hasDuplicateTxIns txIns = true).
Proof.
  split; [| split].
  - apply hasDuplicateTxIns_NoDup.
  - apply hasDuplicateTxIns_false.
  - intros l1 a l2 b l3 -> Hkey.
    apply not_false_iff_true. intros Hdup.
    apply hasDuplicateTxIns_false in Hdup.
    rewrite fmap_app, fmap_cons, fmap_app, fmap_cons in Hdup.
    apply NoDup_app in Hdup as (_ & _ & Hdup).
    apply NoDup_cons in Hdup as [Hnotin _].
    apply Hnotin. rewrite Hkey. apply elem_of_app. right. apply list_elem_of_here.
Qed.

(** ** Transaction ids *)

Lemma TxInCollection_Content_keys (ins ins' : list TxIn) :
  txInKey <$> ins = txInKey <$> ins' ->
  TxInCollection_Content ins = TxInCollection_Content ins'.
Proof.
  unfold TxInCollection_Content. generalize ""%string.
  revert ins'. induction ins as [| i ins IH]; intros [| i' ins'] acc Hkeys;
    try discriminate Hkeys; [done |].
  rewrite !fmap_cons in Hkeys. injection Hkeys as Hid Hix Hkeys. simpl.
  assert (TxIn_Content i = TxIn_Content i') as ->.
  { unfold TxIn_Content. by rewrite Hid, Hix. }
  by apply IH.
Qed.

(** X2. The id of a transaction depends on the references of its inputs and
    on its outputs only: neither the [Id] field nor any signature enters
    it, so signing the inputs of a transaction leaves its id as it was. *)
Theorem GetTransactionId_ignores_signatures (id id' : string) (sign : TxIn -> string)
    (txIns : list TxIn) (txOuts : list TxOut) :
  GetTransactionId
    (mkTransaction id
       ((fun txIn => mkTxIn (TxOutId txIn) (TxOutIndex txIn) (sign txIn)) <$> txIns) txOuts)
  = GetTransactionId (mkTransaction id' txIns txOuts).
Proof.
  unfold GetTransactionId. cbn [TxIns TxOuts].
  rewrite (TxInCollection_Content_keys _ txIns); [done |].
  rewrite <- list_fmap_compose. by apply list_fmap_ext.
Qed.

(** ** Looking up an unspent output *)

(** X4. [findUnspentTxOut] returns an error exactly when no entry has the
    reference asked for, and then the zero value; otherwise it returns the
    first entry with that reference.  [getTxInAmount] is the amount of that
    entry, and 0 when there is none. *)
Theorem findUnspentTxOut_spec (txOutId : string) (txOutIndex : Z) (U : list UnspentTxOut) :
  ((findUnspentTxOut txOutId txOutIndex U).2 <> None
   <-> (txOutId, txOutIndex) ∉ utxoKey <$> U)
  /\ ((txOutId, txOutIndex) ∉ utxoKey <$> U ->
      (findUnspentTxOut txOutId txOutIndex U).1 = UnspentTxOut_zero
      /\ getTxInAmount (mkTxIn txOutId txOutIndex "") U = 0%float)
  /\ (forall u,
        findUnspentTxOut txOutId txOutIndex U = (u, None)
        <-> exists l1 l2,
              U = l1 ++ u :: l2 /\ utxoKey u = (txOutId, txOutIndex)
              /\ (txOutId, txOutIndex) ∉ utxoKey <$> l1)
  /\ (forall u signature,
        findUnspentTxOut txOutId txOutIndex U = (u, None) ->
        getTxInAmount (mkTxIn txOutId txOutIndex signature) U = UAmount u).
Proof.
  split; [| split; [| split]].
  - unfold findUnspentTxOut. rewrite <- find_refersTo_None.
    destruct (List.find _ U); simpl; split; congruence.
  - intros Hnone. apply find_refersTo_None in Hnone.
    unfold getTxInAmount, findUnspentTxOut. cbn [TxOutId TxOutIndex].
    rewrite Hnone. done.
  - unfold findUnspentTxOut. intros u. induction U as [| v U IH]; simpl.
    + split; [discriminate |]. intros (l1 & l2 & Heq & _). by destruct l1.
    + destruct (refersTo txOutId txOutIndex v) eqn:Hv.
      * split.
        -- intros [= <-]. exists [], U. split; [done |].
           split; [by apply refersTo_true | apply not_elem_of_nil].
        -- intros (l1 & l2 & Heq & Hkey & Hnotin). destruct l1 as [| w l1].
           ++ by injection Heq as -> _.
           ++ injection Heq as -> _. exfalso. apply Hnotin.
              rewrite fmap_cons. apply refersTo_true in Hv. rewrite Hv.
              apply list_elem_of_here.
      * rewrite IH. split.
        -- intros (l1 & l2 & -> & Hkey & Hnotin). exists (v :: l1), l2.
           split; [done |]. split; [done |].
           rewrite fmap_cons. apply not_elem_of_cons. split; [| done].
           intros Heq. symmetry in Heq. apply refersTo_true in Heq. congruence.
        -- intros (l1 & l2 & Heq & Hkey & Hnotin). destruct l1 as [| w l1].
           ++ injection Heq as -> _. apply refersTo_true in Hkey. congruence.
           ++ injection Heq as -> ->. exists l1, l2. split; [done |]. split; [done |].
              rewrite fmap_cons in Hnotin. by apply not_elem_of_cons in Hnotin as [_ ?].
  - intros u signature Hfind. unfold getTxInAmount. cbn [TxOutId TxOutIndex].
    by rewrite Hfind.
Qed.


(** ** Validation of a block's transactions *)

(** X3. [validateCoinbaseTx] accepts a transaction at a block index exactly
    when its id is the recomputed one, it has a single input whose
    [txOutIndex] is the block index, and a single output whose amount is 50;
    the [txOutId] and the signature of the input and the address of the
    output are not looked at. *)
Theorem validateCoinbaseTx_iff (tx : Transaction) (blockIndex : Z) :
  validateCoinbaseTx tx blockIndex = true
  <-> GetTransactionId tx = Id tx
      /\ exists txOutId signature address,
           TxIns tx = [mkTxIn txOutId blockIndex signature]
           /\ TxOuts tx = [mkTxOut address 50%float].
Proof.
  split.
  - intros Hvalid.
    pose proof (validateCoinbaseTx_true tx blockIndex Hvalid)
      as (txIn & out & Hins & Houts & Hamount).
    unfold validateCoinbaseTx in Hvalid. rewrite Hins in Hvalid.
    destruct (bool_decide_reflect (GetTransactionId tx = Id tx)) as [Hid | Hid];
      simpl in Hvalid; [| discriminate].
    destruct (bool_decide_reflect (TxOutIndex txIn = blockIndex)) as [Hix | Hix];
      simpl in Hvalid; [| discriminate].
    split; [exact Hid |].
    exists (TxOutId txIn), (Signature txIn), (Address out).
    rewrite Hins, Houts, <- Hix. split; [by destruct txIn |].
    destruct out as [address amount]. simpl in Hamount. by rewrite Hamount.
  - intros (Hid & txOutId & signature & address & Hins & Houts).
    unfold validateCoinbaseTx. rewrite Hins, Houts.
    rewrite (bool_decide_eq_true_2 _ Hid). cbn [TxOutIndex Amount negb].
    rewrite (bool_decide_eq_true_2 (blockIndex = blockIndex) eq_refl).
    reflexivity.
Qed.

Section BlockTransactions.
Context `{GoLib}.

Lemma validateBlockTransactions_true (txs : list Transaction) (U : list UnspentTxOut)
    (blockIndex : Z) :
  validateBlockTransactions txs U blockIndex = true
  <-> exists coinbaseTx others,
        txs = coinbaseTx :: others
        /\ validateCoinbaseTx coinbaseTx blockIndex = true
        /\ NoDup (txInMapKey <$> (txs ≫= TxIns))
        /\ forall t, t ∈ others -> ValidateTransaction t U = true.
Proof.
  unfold validateBlockTransactions. destruct txs as [| coinbaseTx others].
  - split; [discriminate | intros (? & ? & ? & _); discriminate].
  - rewrite flattenTxIns_bind.
    pose proof (hasDuplicateTxIns_NoDup ((coinbaseTx :: others) ≫= TxIns)) as Hdup.
    split.
    + intros Hvalid. exists coinbaseTx, others. split; [done |].
      destruct (validateCoinbaseTx coinbaseTx blockIndex); simpl in Hvalid;
        [| discriminate].
      destruct (hasDuplicateTxIns _) eqn:Hd; [discriminate |].
      split; [done |]. split; [by apply Hdup |].
      intros t Ht. rewrite forallb_forall in Hvalid. apply Hvalid.
      by apply list_elem_of_In.
    + intros (cb & others' & [= <- <-] & Hcb & Hnodup & Hothers).
      rewrite Hcb. cbn [negb]. apply Hdup in Hnodup. rewrite Hnodup.
      apply forallb_forall. intros t Ht. apply Hothers. by apply list_elem_of_In.
Qed.


(** X5. [validateBlockTransactions] succeeds exactly when the list is not
    empty, its first transaction is a valid coinbase for the block index,
    the map keys of all inputs of all transactions (the coinbase input
    included) are pairwise distinct, and every transaction after the first
    passes [ValidateTransaction]; the empty list is always turned down. *)
Theorem validateBlockTransactions_iff (txs : list Transaction) (U : list UnspentTxOut)
    (blockIndex : Z) :
  (validateBlockTransactions txs U blockIndex = true
   <-> exists coinbaseTx others,
         txs = coinbaseTx :: others
         /\ validateCoinbaseTx coinbaseTx blockIndex = true
         /\ NoDup (txInMapKey <$> (txs ≫= TxIns))
         /\ forall t, t ∈ others -> ValidateTransaction t U = true)
  /\ validateBlockTransactions [] U blockIndex = false.
Proof. split; [apply validateBlockTransactions_true | reflexivity]. Qed.

End BlockTransactions.

(** ** The transaction pool, continued *)

Lemma hasTxIn_true txIn U :
  hasTxIn txIn U = true <-> txInKey txIn ∈ utxoKey <$> U.
Proof.
  unfold hasTxIn. rewrite existsb_exists, list_elem_of_fmap. split.
  - intros (u & Hu & Href). exists u. apply refersTo_true in Href.
    split; [done | by apply list_elem_of_In].
  - intros (u & Hkey & Hu). exists u. split; [by apply list_elem_of_In |].
    by apply refersTo_true.
Qed.

Section TxpoolMore.
Context `{GoLib}.

(** X6. After [UpdateTransactionPool] the pool holds exactly the entries
    all of whose inputs reference an entry of the given UTXO list, in
    their former order; in particular an entry without inputs is never
    removed, and refreshing twice with the same list is refreshing once. *)
Theorem UpdateTransactionPool_spec (U : list UnspentTxOut) (pool : list Transaction) :
  (forall t,
     t ∈ UpdateTransactionPool U pool
     <-> t ∈ pool /\ forall txIn, txIn ∈ TxIns t -> txInKey txIn ∈ utxoKey <$> U)
  /\ UpdateTransactionPool U pool `sublist_of` pool
  /\ (forall t, t ∈ pool -> TxIns t = [] -> t ∈ UpdateTransactionPool U pool)
  /\ UpdateTransactionPool U (UpdateTransactionPool U pool) = UpdateTransactionPool U pool.
Proof.
  assert (Hmem : forall t,
            t ∈ UpdateTransactionPool U pool
            <-> t ∈ pool /\ forall txIn, txIn ∈ TxIns t -> txInKey txIn ∈ utxoKey <$> U).
  { intros t. rewrite UpdateTransactionPool_filter, list_elem_of_filter, forallb_forall.
    split.
    - intros [Hall Ht]. split; [exact Ht |].
      intros txIn HtxIn. apply hasTxIn_true, Hall. by apply list_elem_of_In.
    - intros [Ht Hall]. split; [| exact Ht].
      intros txIn HtxIn. apply hasTxIn_true, Hall. by apply list_elem_of_In. }
  split; [exact Hmem |]. split; [| split].
  - rewrite UpdateTransactionPool_filter. apply sublist_filter.
  - intros t Ht Hnone. apply Hmem. split; [exact Ht |].
    rewrite Hnone. intros txIn HtxIn. by apply elem_of_nil in HtxIn.
  - rewrite !UpdateTransactionPool_filter. clear Hmem.
    induction pool as [| t pool IH]; [done |].
    rewrite filter_cons. destruct (decide _) as [Ht | Ht]; [| exact IH].
    rewrite filter_cons, decide_True by exact Ht. by rewrite IH.
Qed.

(** X7. [AddToTransactionPool] returns no error exactly when the transaction
    passes [ValidateTransaction] and shares no input reference with a pool
    entry, and then the new pool is the old one with the transaction at the
    end.  A transaction with an input cannot be admitted a second time; a
    valid transaction without inputs is admitted every time. *)
Theorem AddToTransactionPool_spec (tx : Transaction) (U : list UnspentTxOut)
    (pool : list Transaction) :
  ((AddToTransactionPool tx U pool).2 = None
   <-> ValidateTransaction tx U = true /\ forall t, t ∈ pool -> ~ sharesInput t tx)
  /\ ((AddToTransactionPool tx U pool).2 = None ->
      (AddToTransactionPool tx U pool).1 = pool ++ [tx])
  /\ ((AddToTransactionPool tx U pool).2 <> None ->
      (AddToTransactionPool tx U pool).1 = pool)
  /\ (TxIns tx <> [] ->
      forall U', (AddToTransactionPool tx U' (pool ++ [tx])).2 <> None)
  /\ (TxIns tx = [] -> ValidateTransaction tx U = true ->
      (AddToTransactionPool tx U pool).2 = None).
Proof.
  assert (Hiff : (AddToTransactionPool tx U pool).2 = None
            <-> ValidateTransaction tx U = true /\ forall t, t ∈ pool -> ~ sharesInput t tx).
  { unfold AddToTransactionPool. rewrite <- isValidTxForPool_true.
    destruct (ValidateTransaction tx U), (isValidTxForPool tx pool); simpl;
      split; try done; intros [? ?]; done. }
  split; [exact Hiff |]. split; [| split; [| split]].
  - unfold AddToTransactionPool.
    destruct (ValidateTransaction tx U), (isValidTxForPool tx pool); simpl; done.
  - unfold AddToTransactionPool.
    destruct (ValidateTransaction tx U), (isValidTxForPool tx pool); simpl; done.
  - intros Hins U' Hnone. unfold AddToTransactionPool in Hnone.
    destruct (ValidateTransaction tx U'); simpl in Hnone; [| discriminate].
    destruct (isValidTxForPool tx (pool ++ [tx])) eqn:Hvalid; simpl in Hnone;
      [| discriminate].
    destruct (TxIns tx) as [| txIn rest] eqn:Htx; [done |].
    apply (proj1 (isValidTxForPool_true _ _) Hvalid tx).
    + apply elem_of_app. right. apply list_elem_of_here.
    + exists txIn, txIn. rewrite Htx. split; [apply list_elem_of_here |].
      split; [apply list_elem_of_here | done].
  - intros Hins Hvalid. apply Hiff. split; [exact Hvalid |].
    intros t _ (a & b & _ & Hb & _). rewrite Hins in Hb. by apply elem_of_nil in Hb.
Qed.

End TxpoolMore.

(** ** Strings of hex and binary digits *)

Lemma string_append_assoc (a b c : string) : (a +:+ b) +:+ c = a +:+ (b +:+ c).
Proof.
  induction a as [|x a IH]; [reflexivity |].
  change (String x ((a +:+ b) +:+ c) = String x (a +:+ b +:+ c)). by rewrite IH.
Qed.

Lemma string_append_nil_r (a : string) : a +:+ "" = a.
Proof.
  induction a as [|x a IH]; [reflexivity |].
  change (String x (a +:+ "") = String x a). by rewrite IH.
Qed.

Lemma string_length_append (a b : string) :
  String.length (a +:+ b) = (String.length a + String.length b)%nat.
Proof.
  induction a as [|x a IH]; [reflexivity |].
  change (S (String.length (a +:+ b)) = S (String.length a + String.length b)).
  by rewrite IH.
Qed.

Lemma string_append_cons (x : ascii) (a b : string) :
  String x a +:+ b = String x (a +:+ b).
Proof. reflexivity. Qed.

Lemma string_prefix_append (p s : string) :
  String.prefix p s = true <-> exists rest, s = p +:+ rest.
Proof.
  revert s; induction p as [|x p IH]; intros s.
  - destruct s; simpl; split; eauto.
  - destruct s as [|y s]; simpl.
    + split; [discriminate | intros [rest Hrest]; discriminate].
    + destruct (Ascii.ascii_dec x y) as [->|Hne].
      * rewrite IH. split; intros [rest Hrest]; exists rest;
          rewrite ?string_append_cons in *; congruence.
      * split; [discriminate |].
        intros [rest Hrest]. rewrite string_append_cons in Hrest. congruence.
Qed.

Lemma hexDict_value (c : ascii) :
  hexDict (toLower c) =
    match ref_hex_value c with Some v => bits4 v | None => "" end.
Proof.
  destruct c as [b0 b1 b2 b3 b4 b5 b6 b7].
  destruct b0, b1, b2, b3, b4, b5, b6, b7; vm_compute; reflexivity.
Qed.

Lemma isHexDigit_value (c : ascii) :
  isHexDigit c = match ref_hex_value c with Some _ => true | None => false end.
Proof.
  destruct c as [b0 b1 b2 b3 b4 b5 b6 b7].
  destruct b0, b1, b2, b3, b4, b5, b6, b7; vm_compute; reflexivity.
Qed.

Lemma hexDict_length (c : ascii) :
  String.length (hexDict (toLower c)) = if isHexDigit c then 4%nat else 0%nat.
Proof.
  destruct c as [b0 b1 b2 b3 b4 b5 b6 b7].
  destruct b0, b1, b2, b3, b4, b5, b6, b7; vm_compute; reflexivity.
Qed.

Lemma HexToBin_length_le (s : string) :
  (String.length (HexToBin s) <= 4 * String.length s)%nat.
Proof.
  induction s as [|c s IH]; simpl; [lia |].
  rewrite string_length_append, hexDict_length. destruct (isHexDigit c); lia.
Qed.

(** X8 ([utils.HexToBin], [utils.IsHex]).  [HexToBin] works digit by digit:
    a hex digit of either case becomes the four binary digits of its value,
    any other byte is dropped without a trace; so it distributes over
    concatenation, and on a string that [IsHex] accepts the result has
    exactly four binary digits per hex digit. *)
Theorem HexToBin_spec :
  (forall c rest,
      HexToBin (String c rest) =
        match ref_hex_value c with
        | Some v => bits4 v +:+ HexToBin rest
        | None => HexToBin rest
        end)
  /\ (forall a b, HexToBin (a +:+ b) = HexToBin a +:+ HexToBin b)
  /\ (forall s, IsHex s = true ->
        String.length (HexToBin s) = (4 * String.length s)%nat)
  /\ (forall s, IsHex s = true <->
        s <> "" /\ forall c, c ∈ list_ascii_of_string s -> isHexDigit c = true)
  /\ (forall s, String.length (HexToBin s) <= 4 * String.length s)%nat.
Proof.
  pose proof hexDict_length as Hlen.
  assert (Hall : forall s, allHexDigits s = true ->
                   String.length (HexToBin s) = (4 * String.length s)%nat).
  { induction s as [|c s IH]; simpl; [reflexivity |].
    rewrite andb_true_iff. intros [Hc Hs].
    rewrite string_length_append, Hlen, Hc, (IH Hs). lia. }
  assert (Hmem : forall s, allHexDigits s = true <->
                   forall c, c ∈ list_ascii_of_string s -> isHexDigit c = true).
  { induction s as [|c s IH]; simpl.
    - split; [intros _ c Hc; inversion Hc | reflexivity].
    - rewrite andb_true_iff, IH. split.
      + intros [Hc Hs] x Hx. apply elem_of_cons in Hx as [->|Hx]; auto.
      + intros Hx. split; [apply Hx; left | intros x Hin; apply Hx; by right]. }
  split; [| split; [| split; [| split]]].
  - intros c rest. simpl. rewrite hexDict_value.
    destruct (ref_hex_value c); reflexivity.
  - induction a as [|c a IH]; intros b; simpl; [reflexivity |].
    by rewrite IH, string_append_assoc.
  - intros [|c s]; [discriminate |]. apply Hall.
  - intros [|c s].
    + split; [discriminate | intros [Hne _]; congruence].
    + unfold IsHex. rewrite Hmem. split; [intros Hs; split; [discriminate | exact Hs] | tauto].
  - apply HexToBin_length_le.
Qed.

(** ** Proof of work on the binary digits of a hash *)

Lemma concat_replicate_zeros (n : nat) :
  String.concat "" (replicate n "0") = zeros n.
Proof.
  induction n as [|[|n] IH]; [reflexivity | reflexivity |].
  change (String "0" (String.concat "" (replicate (S n) "0")) = String "0" (zeros (S n))).
  by rewrite IH.
Qed.

Lemma zeros_length (n : nat) : String.length (zeros n) = n.
Proof. induction n as [|n IH]; simpl; [reflexivity | by rewrite IH]. Qed.

Section ProofOfWorkFacts.
Context `{GoLib}.

(** X9 ([hashMatchesDifficulty]).  With [n = int(difficulty)]: a negative
    [n] is a panic of [strings.Repeat]; otherwise the answer is whether the
    binary digits of the hash start with [n] zeros.  So [n = 0] is met by
    every hash, and an [n] above four times the length of the hash by
    none. *)
Theorem hashMatchesDifficulty_spec (hash : string) (difficulty : float) :
  let n := int_of_float difficulty in
  (n < 0 -> hashMatchesDifficulty hash difficulty = None)
  /\ (0 <= n ->
      exists matches,
        hashMatchesDifficulty hash difficulty = Some (matches, zeros (Z.to_nat n))
        /\ (matches = true <-> exists rest, HexToBin hash = zeros (Z.to_nat n) +:+ rest))
  /\ (n = 0 -> hashMatchesDifficulty hash difficulty = Some (true, ""))
  /\ (4 * Z.of_nat (String.length hash) < n ->
      hashMatchesDifficulty hash difficulty = Some (false, zeros (Z.to_nat n))).
Proof.
  intros n.
  assert (Hrun : 0 <= n ->
            hashMatchesDifficulty hash difficulty
            = Some (String.prefix (zeros (Z.to_nat n)) (HexToBin hash), zeros (Z.to_nat n))).
  { intros Hn. unfold hashMatchesDifficulty, strings_Repeat. fold n.
    destruct (Z.ltb_spec n 0) as [Hneg|_]; [lia |].
    simpl. by rewrite concat_replicate_zeros. }
  split; [| split; [| split]].
  - intros Hn. unfold hashMatchesDifficulty, strings_Repeat. fold n.
    destruct (Z.ltb_spec n 0) as [_|Hpos]; [reflexivity | lia].
  - intros Hn. eexists. split; [exact (Hrun Hn) |]. apply string_prefix_append.
  - intros Hn. rewrite Hrun by lia. rewrite Hn. simpl.
    by destruct (HexToBin hash).
  - intros Hn. rewrite Hrun by lia. f_equal. f_equal.
    destruct (String.prefix _ _) eqn:Hpre; [| reflexivity].
    apply string_prefix_append in Hpre as [rest Hrest].
    apply (f_equal String.length) in Hrest.
    rewrite string_length_append, zeros_length in Hrest.
    pose proof (HexToBin_length_le hash). lia.
Qed.

End ProofOfWorkFacts.

(** ** Addresses *)

Lemma hex_digit_value (d : Z) :
  0 <= d < 16 ->
  isHexDigit (SHA256.hex_digit d) = true /\ ref_hex_value (SHA256.hex_digit d) = Some d.
Proof.
  intros Hd.
  assert (Hc : d = 0 \/ d = 1 \/ d = 2 \/ d = 3 \/ d = 4 \/ d = 5 \/ d = 6 \/ d = 7
               \/ d = 8 \/ d = 9 \/ d = 10 \/ d = 11 \/ d = 12 \/ d = 13 \/ d = 14
               \/ d = 15) by lia.
  repeat (destruct Hc as [->|Hc]; [vm_compute; split; reflexivity |]).
  subst d. vm_compute. split; reflexivity.
Qed.

Lemma hex_of_bytes_length (bs : list Z) :
  String.length (SHA256.hex_of_bytes bs) = (2 * length bs)%nat.
Proof.
  induction bs as [|b bs IH]; [reflexivity |].
  cbn [SHA256.hex_of_bytes String.length length]. rewrite IH. lia.
Qed.

Lemma hex_of_bytes_allHexDigits (bs : list Z) :
  Forall (fun b => 0 <= b < 256) bs -> allHexDigits (SHA256.hex_of_bytes bs) = true.
Proof.
  induction 1 as [|b bs Hb _ IH]; [reflexivity |].
  cbn [SHA256.hex_of_bytes allHexDigits].
  assert (Hhi : 0 <= b / 16 < 16)
    by (split; [apply Z.div_pos; lia | apply Z.div_lt_upper_bound; lia]).
  assert (Hlo : 0 <= b mod 16 < 16) by (apply Z.mod_pos_bound; lia).
  rewrite (proj1 (hex_digit_value _ Hhi)), (proj1 (hex_digit_value _ Hlo)).
  exact IH.
Qed.

Lemma hex_of_bytes_prefix_04 (b : Z) (bs : list Z) :
  0 <= b < 256 ->
  String.prefix "04" (SHA256.hex_of_bytes (b :: bs)) = true <-> b = 4.
Proof.
  intros Hb.
  assert (Hhi : 0 <= b / 16 < 16)
    by (split; [apply Z.div_pos; lia | apply Z.div_lt_upper_bound; lia]).
  assert (Hlo : 0 <= b mod 16 < 16) by (apply Z.mod_pos_bound; lia).
  destruct (hex_digit_value _ Hhi) as [_ Vhi], (hex_digit_value _ Hlo) as [_ Vlo].
  split.
  - intros Hpre. apply string_prefix_append in Hpre as [rest Hrest].
    cbn [SHA256.hex_of_bytes] in Hrest.
    change ("04" +:+ rest) with (String "0" (String "4" rest)) in Hrest.
    injection Hrest as Ehi Elo _.
    rewrite Ehi in Vhi. rewrite Elo in Vlo.
    change (Some 0 = Some (b / 16)) in Vhi. change (Some 4 = Some (b mod 16)) in Vlo.
    injection Vhi as Vhi. injection Vlo as Vlo.
    rewrite (Z.div_mod b 16) by lia. rewrite <- Vhi, <- Vlo. reflexivity.
  - intros ->. apply string_prefix_append. eexists. reflexivity.
Qed.

Section AddressFacts.
Context `{GoLib}.

(** X10 ([IsValidBase58Address], [utils.Base58Decode], [utils.IsHex]).  An
    address is accepted exactly when its base58 decoding has 65 bytes of
    which the first is 4, the shape of an uncompressed public key; nothing
    else about the bytes is looked at. *)
Theorem IsValidBase58Address_iff (base58Address : string) :
  Forall (fun b => 0 <= b < 256) (base58_Decode base58Address) ->
  IsValidBase58Address base58Address = true
  <-> length (base58_Decode base58Address) = 65%nat
      /\ head (base58_Decode base58Address) = Some 4.
Proof.
  intros Hbytes. unfold IsValidBase58Address, Base58Decode.
  rewrite hex_of_bytes_length.
  assert (Hhex : base58_Decode base58Address <> [] ->
                 IsHex (SHA256.hex_of_bytes (base58_Decode base58Address)) = true).
  { pose proof (hex_of_bytes_allHexDigits _ Hbytes) as Hall.
    destruct (base58_Decode base58Address); [congruence | intros _; exact Hall]. }
  assert (Hpre : String.prefix "04" (SHA256.hex_of_bytes (base58_Decode base58Address)) = true
                 <-> head (base58_Decode base58Address) = Some 4).
  { destruct (base58_Decode base58Address) as [|b bs].
    - split; discriminate.
    - rewrite (hex_of_bytes_prefix_04 b bs (Forall_inv Hbytes)).
      cbn [head]. split; congruence. }
  revert Hhex Hpre.
  generalize (SHA256.hex_of_bytes (base58_Decode base58Address)) as address.
  intros address Hhex Hpre.
  case_bool_decide as Hlen; cbn [negb].
  - rewrite Hhex by (intros Hnil; rewrite Hnil in Hlen; discriminate Hlen).
    cbn [negb]. destruct (String.prefix "04" address); cbn [negb].
    + split; [intros _; split; [lia | by apply Hpre] | reflexivity].
    + split; [discriminate | intros [_ Hhead]; by apply Hpre].
  - split; [discriminate | intros [Hlen' _]; lia].
Qed.

End AddressFacts.

Lemma IsValidBase58Address_iff_witness :
  Forall (fun b => 0 <= b < 256) (ref_base58_Decode genesisAddress)
  /\ @IsValidBase58Address RefLib58 genesisAddress = true.
Proof.
  assert (Hbytes : Forall (fun b => 0 <= b < 256) (ref_base58_Decode genesisAddress)).
  { apply Forall_forall. intros b Hb. vm_compute in Hb.
    repeat (apply elem_of_cons in Hb as [->|Hb]; [lia |]). inversion Hb. }
  split; [exact Hbytes |].
  refine (proj2 (@IsValidBase58Address_iff RefLib58 genesisAddress Hbytes) _).
  vm_compute. split; reflexivity.
Defined.

(** ** Blocks and chains *)

(** A positive number is printed without a leading zero. *)
Lemma to_uint_head (p : positive) (d : Decimal.uint) :
  Pos.to_uint p <> Decimal.D0 d.
Proof.
  intros Hp.
  assert (Hnorm : Decimal.unorm (Pos.to_uint p) = Pos.to_uint p).
  { rewrite <- DecimalPos.Unsigned.to_of, DecimalPos.Unsigned.of_to. reflexivity. }
  rewrite Hp in Hnorm. change (Decimal.unorm d = Decimal.D0 d) in Hnorm.
  assert (Hd : d = Decimal.Nil \/ d <> Decimal.Nil)
    by (destruct d; [by left | by right ..]).
  destruct Hd as [-> | Hd].
  - exact (DecimalPos.Unsigned.to_uint_nonzero p Hp).
  - pose proof (DecimalFacts.nb_digits_unorm d Hd) as Hle.
    rewrite Hnorm in Hle. cbn [Decimal.nb_digits] in Hle. lia.
Qed.

Lemma fmt_d_head_zero (z : Z) (rest rest' : string) :
  fmt_d z +:+ rest = String "0" rest' -> z = 0.
Proof.
  unfold fmt_d. destruct z as [| p | p]; [reflexivity | |].
  - cbn [Z.to_int NilZero.string_of_int]. unfold NilZero.string_of_uint.
    pose proof (to_uint_head p) as Hhead.
    pose proof (DecimalPos.Unsigned.to_uint_nonnil p) as Hnil.
    destruct (Pos.to_uint p) as [| d | d | d | d | d | d | d | d | d | d];
      cbn [NilEmpty.string_of_uint]; rewrite ?string_append_cons;
      try discriminate; [contradiction | by destruct (Hhead d)].
  - cbn [Z.to_int NilZero.string_of_int]. rewrite string_append_cons. discriminate.
Qed.

Section BlockFacts.
Context `{GoLib}.

Lemma Sprintf_v_Block_shape (b : Block) :
  exists rest,
    Sprintf_v_Block b = String "{" (String "{" (fmt_d (Index (Fields b)) +:+ rest)).
Proof.
  eexists. unfold Sprintf_v_Block, Sprintf_v_BlockFields.
  rewrite 2!string_append_cons. f_equal.
  change ("" +:+ ?x) with x.
  rewrite string_append_cons. f_equal.
  change ("" +:+ ?x) with x.
  rewrite string_append_assoc. reflexivity.
Qed.

Lemma genesis_rendering_index (first : Block) :
  Sprintf_v_Block first = Sprintf_v_Block GenesisBlock -> Index (Fields first) = 0.
Proof.
  destruct (Sprintf_v_Block_shape first) as [rest ->].
  destruct (Sprintf_v_Block_shape GenesisBlock) as [rest' ->].
  intros Heq. injection Heq as Heq.
  exact (fmt_d_head_zero _ rest rest' Heq).
Qed.

(** In a list of blocks that starts at index 0 and in which each block has
    the index after its predecessor's, the index of a block is its
    position. *)
Lemma heights_are_positions (chain : list Block) (first : Block) :
  chain !! 0%nat = Some first -> Index (Fields first) = 0 ->
  (forall i p b, chain !! i = Some p -> chain !! S i = Some b ->
     Index (Fields b) = int_wrap (Index (Fields p) + 1)) ->
  forall i b, chain !! i = Some b -> Z.of_nat i < 2 ^ 63 -> Index (Fields b) = Z.of_nat i.
Proof.
  intros Hfirst Hzero Hsucc. induction i as [| i IH]; intros b Hb Hi.
  - rewrite Hfirst in Hb. injection Hb as <-. exact Hzero.
  - destruct (chain !! i) as [p |] eqn:Hp.
    + rewrite (Hsucc i p b Hp Hb), (IH p eq_refl) by lia.
      rewrite int_wrap_small by lia. lia.
    + apply lookup_ge_None in Hp. apply lookup_lt_Some in Hb. lia.
Qed.

Lemma IsValidBlock_true now chain p b :
  IsValidBlock now chain p b = Some true
  <-> int_wrap (Index (Fields p) + 1) = Index (Fields b)
      /\ Hash p = PrevHash (Fields b)
      /\ utils_Hash (Sprintf_v_BlockFields (Fields b)) = Hash b
      /\ timestampIsInvalid now p b = false
      /\ exists required requiredPrefix,
           getDifficulty chain p = Some required
           /\ PrimFloat.eqb required (Difficulty (Fields b)) = true
           /\ hashMatchesDifficulty (Hash b) (Difficulty (Fields b))
              = Some (true, requiredPrefix).
Proof.
  unfold IsValidBlock.
  case_bool_decide as Hsucc; cbn [negb];
    [| split; [discriminate | intros (? & _); contradiction]].
  case_bool_decide as Hprev; cbn [negb];
    [| split; [discriminate | intros (_ & ? & _); contradiction]].
  case_bool_decide as Hhash; cbn [negb];
    [| split; [discriminate | intros (_ & _ & ? & _); contradiction]].
  destruct (timestampIsInvalid now p b);
    [split; [discriminate | intros (_ & _ & _ & ? & _); discriminate] |].
  destruct (getDifficulty chain p) as [required |]; cbn [mbind option_bind];
    [| split; [discriminate | intros (_ & _ & _ & _ & ? & ? & ? & _); discriminate]].
  destruct (PrimFloat.eqb required (Difficulty (Fields b))) eqn:Heqb; cbn [negb].
  - destruct (hashMatchesDifficulty (Hash b) (Difficulty (Fields b)))
      as [[matches requiredPrefix] |]; cbn [mbind option_bind].
    + destruct matches; cbn [negb].
      * split; [| reflexivity]. intros _. repeat (split; [done |]).
        exists required, requiredPrefix. by rewrite Heqb.
      * split; [discriminate |].
        intros (_ & _ & _ & _ & ? & ? & _ & _ & Hm). discriminate Hm.
    + split; [discriminate |].
      intros (_ & _ & _ & _ & ? & ? & _ & _ & Hm). discriminate Hm.
  - split; [discriminate |].
    intros (_ & _ & _ & _ & ? & ? & Hreq & Hm & _).
    injection Hreq as <-. congruence.
Qed.

Lemma IsValidBlock_linked now chain p b :
  IsValidBlock now chain p b = Some true ->
  Index (Fields b) = int_wrap (Index (Fields p) + 1)
  /\ PrevHash (Fields b) = Hash p
  /\ Hash b = utils_Hash (Sprintf_v_BlockFields (Fields b)).
Proof.
  intros Hvalid. apply IsValidBlock_true in Hvalid as (Hsucc & Hprev & Hhash & _).
  by rewrite Hsucc, Hprev, Hhash.
Qed.

Lemma replays_app l1 l2 U U1 U2 :
  replays l1 U U1 -> replays l2 U1 U2 -> replays (l1 ++ l2) U U2.
Proof.
  induction 1 as [U | b rest U U' Hvalid _ IH]; intros Hl2; [exact Hl2 |].
  simpl. apply replays_cons; [exact Hvalid | by apply IH].
Qed.

Lemma IsValidBlockChain_loop_valid clock chain rest : forall n prev U0 U,
  IsValidBlockChain_loop clock chain n prev rest U0 = Some (U, None) ->
  (forall p b, prev = Some p -> rest !! 0%nat = Some b ->
     IsValidBlock (clock n) chain p b = Some true)
  /\ (forall i p b, rest !! i = Some p -> rest !! S i = Some b ->
        IsValidBlock (clock (n + S i)%nat) chain p b = Some true).
Proof.
  induction rest as [| x rest IH]; intros n prev U0 U Hloop.
  - split; [intros p b _ Hb | intros i p b Hp]; discriminate.
  - cbn [IsValidBlockChain_loop] in Hloop.
    destruct (match prev with
              | Some p => IsValidBlock (clock n) chain p x
              | None => Some true
              end) as [valid |] eqn:Hvalid; [| discriminate Hloop].
    cbn [mbind option_bind] in Hloop.
    destruct valid; cbn [negb] in Hloop; [| discriminate Hloop].
    destruct (ProcessTransactions (Transactions (Fields x)) U0 (Index (Fields x)))
      as [retValue [e |]]; [discriminate Hloop |].
    apply IH in Hloop as [Hfirst Hrest].
    split.
    + intros p b -> Hb. injection Hb as <-. exact Hvalid.
    + intros [| i] p b Hp Hb.
      * injection Hp as <-. replace (n + 1)%nat with (S n) by lia.
        by apply Hfirst.
      * replace (n + S (S i))%nat with (S n + S i)%nat by lia.
        by apply Hrest.
Qed.

Lemma IsValidBlockChain_valid clock chain U :
  IsValidBlockChain clock chain = Some (U, None) ->
  (exists first, chain !! 0%nat = Some first
                 /\ Sprintf_v_Block first = Sprintf_v_Block GenesisBlock)
  /\ (forall i p b, chain !! i = Some p -> chain !! S i = Some b ->
        IsValidBlock (clock (S i)) chain p b = Some true).
Proof.
  unfold IsValidBlockChain. intros Hchain.
  destruct (chain !! 0%nat) as [first |] eqn:Hfirst; [| discriminate Hchain].
  cbn [mbind option_bind] in Hchain.
  case_bool_decide as Hgenesis; cbn [negb] in Hchain; [| discriminate Hchain].
  split; [by exists first |].
  apply IsValidBlockChain_loop_valid in Hchain as [_ Hrest].
  intros i p b Hp Hb. exact (Hrest i p b Hp Hb).
Qed.

(** X11 ([IsValidBlockChain], [IsValidBlock]).  In a chain that
    [IsValidBlockChain] accepts the first block prints as the genesis block,
    and every later block passed [IsValidBlock] against its predecessor: its
    index is the next one, it carries the predecessor's hash, its own hash
    is the hash of its fields, and the binary digits of that hash start
    with as many zeros as its difficulty asks for. *)
Theorem accepted_chain_linked (clock : nat -> Z) (chain : list Block)
    (U : list UnspentTxOut) :
  IsValidBlockChain clock chain = Some (U, None) ->
  (exists first, chain !! 0%nat = Some first
                 /\ Sprintf_v_Block first = Sprintf_v_Block GenesisBlock)
  /\ (forall i b, chain !! i = Some b -> Z.of_nat i < 2 ^ 63 ->
        Index (Fields b) = Z.of_nat i)
  /\ (forall i p b, chain !! i = Some p -> chain !! S i = Some b ->
        Index (Fields b) = int_wrap (Index (Fields p) + 1)
        /\ PrevHash (Fields b) = Hash p
        /\ Hash b = utils_Hash (Sprintf_v_BlockFields (Fields b))
        /\ 0 <= int_of_float (Difficulty (Fields b))
        /\ exists rest,
             HexToBin (Hash b)
             = zeros (Z.to_nat (int_of_float (Difficulty (Fields b)))) +:+ rest).
Proof.
  intros Hchain. apply IsValidBlockChain_valid in Hchain as [Hfirst Hvalid].
  split; [exact Hfirst |]. split.
  { destruct Hfirst as (first & Hfirst & Hgenesis).
    apply (heights_are_positions chain first Hfirst (genesis_rendering_index _ Hgenesis)).
    intros i p b Hp Hb. by apply (IsValidBlock_linked (clock (S i)) chain), Hvalid. }
  intros i p b Hp Hb. specialize (Hvalid i p b Hp Hb).
  pose proof (IsValidBlock_linked _ _ _ _ Hvalid) as (Hsucc & Hprev & Hhash).
  repeat (split; [done |]).
  apply IsValidBlock_true in Hvalid
    as (_ & _ & _ & _ & required & requiredPrefix & _ & _ & Hmatch).
  unfold hashMatchesDifficulty, strings_Repeat in Hmatch.
  destruct (Z.ltb_spec (int_of_float (Difficulty (Fields b))) 0) as [Hneg | Hpos];
    [discriminate Hmatch |].
  split; [exact Hpos |].
  cbn [mbind option_bind] in Hmatch. injection Hmatch as Hmatch _.
  rewrite concat_replicate_zeros in Hmatch.
  by apply string_prefix_append.
Qed.

End BlockFacts.

Lemma accepted_chain_linked_witness :
  (exists U, @IsValidBlockChain RefLib clock1020 [GenesisBlock; block1_miner] = Some (U, None))
  /\ (forall i b, [GenesisBlock; block1_miner] !! i = Some b -> Z.of_nat i < 2 ^ 63 ->
        Index (Fields b) = Z.of_nat i)
  /\ forall i p b,
       [GenesisBlock; block1_miner] !! i = Some p ->
       [GenesisBlock; block1_miner] !! S i = Some b ->
       Index (Fields b) = int_wrap (Index (Fields p) + 1)
       /\ PrevHash (Fields b) = Hash p
       /\ Hash b = utils_Hash (@Sprintf_v_BlockFields RefLib (Fields b))
       /\ 0 <= @int_of_float RefLib (Difficulty (Fields b))
       /\ exists rest,
            HexToBin (Hash b)
            = zeros (Z.to_nat (@int_of_float RefLib (Difficulty (Fields b)))) +:+ rest.
Proof.
  assert (Hchain : exists U,
            @IsValidBlockChain RefLib clock1020 [GenesisBlock; block1_miner] = Some (U, None)).
  { eexists. vm_compute. reflexivity. }
  split; [exact Hchain |].
  destruct Hchain as [U Hchain].
  exact (proj2 (@accepted_chain_linked RefLib clock1020 _ U Hchain)).
Defined.

(** ** Appending a block and replacing the chain *)

Section NodeFacts.
Context `{GoLib}.

Lemma ProcessTransactions_eq txs U i :
  ProcessTransactions txs U i
  = if validateBlockTransactions txs U i
    then (spec_processTransactions txs U, None)
    else ([], Some "invalid block transactions").
Proof.
  unfold ProcessTransactions.
  destruct (validateBlockTransactions txs U i); cbn [negb]; [| reflexivity].
  by rewrite updateUnspentTxOuts_spec.
Qed.

Lemma UpdateTransactionPool_spends U pool :
  poolSpendsUnspent (UpdateTransactionPool U pool) U.
Proof.
  intros tx txIn Htx HtxIn. rewrite UpdateTransactionPool_filter in Htx.
  apply list_elem_of_filter in Htx as [Hall _].
  rewrite forallb_forall in Hall. apply hasTxIn_true, Hall.
  by apply list_elem_of_In.
Qed.

Lemma AddBlockToChain_cases now st newBlock st' added :
  AddBlockToChain now st newBlock = Some (st', added) ->
  (added = false /\ st' = st)
  \/ (added = true
      /\ exists latest,
           last (blockchain st) = Some latest
           /\ IsValidBlock now (blockchain st) latest newBlock = Some true
           /\ validateBlockTransactions (Transactions (Fields newBlock)) (unspentTxOuts st)
                (Index (Fields newBlock)) = true
           /\ st' = mkState
                      (blockchain st ++ [newBlock])
                      (uint64_wrap
                         (cumulativeBlocksDifficulty st
                          + uint64_of_float (math_Pow 2 (Difficulty (Fields newBlock)))))
                      (spec_processTransactions (Transactions (Fields newBlock))
                         (unspentTxOuts st))
                      (UpdateTransactionPool
                         (spec_processTransactions (Transactions (Fields newBlock))
                            (unspentTxOuts st))
                         (txPool st))).
Proof.
  unfold AddBlockToChain, GetLatestBlock. intros Hadd.
  destruct (last (blockchain st)) as [latest |]; [| discriminate Hadd].
  cbn [mbind option_bind] in Hadd.
  destruct (IsValidBlock now (blockchain st) latest newBlock) as [valid |] eqn:Hvalid;
    [| discriminate Hadd].
  cbn [mbind option_bind] in Hadd.
  destruct valid; cbn [negb] in Hadd.
  - rewrite ProcessTransactions_eq in Hadd.
    destruct (validateBlockTransactions _ _ _) eqn:Htxs.
    + injection Hadd as <- <-. right. split; [reflexivity |]. by exists latest.
    + injection Hadd as <- <-. by left.
  - injection Hadd as <- <-. by left.
Qed.

(** X12 ([AddBlockToChain]).  A call that returns false leaves the chain,
    the unspent outputs, the pool and the difficulty counter as they were.
    A call that returns true has appended exactly the new block, which
    passed [IsValidBlock] against the tip; the unspent outputs are the old
    ones without those the block's inputs name, followed by the block's
    outputs; the counter grows by two to the block's difficulty; and the
    pool is the old pool without the transactions that name an output that
    is no longer unspent. *)
Theorem AddBlockToChain_spec (now : Z) (st : State) (newBlock : Block) (st' : State)
    (added : bool) :
  AddBlockToChain now st newBlock = Some (st', added) ->
  (added = false -> st' = st)
  /\ (added = true ->
      (exists latest,
         last (blockchain st) = Some latest
         /\ IsValidBlock now (blockchain st) latest newBlock = Some true)
      /\ blockchain st' = blockchain st ++ [newBlock]
      /\ ProcessTransactions (Transactions (Fields newBlock)) (unspentTxOuts st)
           (Index (Fields newBlock)) = (unspentTxOuts st', None)
      /\ unspentTxOuts st'
         = filter (fun u => utxoKey u ∉ consumed (Transactions (Fields newBlock)))
             (unspentTxOuts st)
           ++ produced (Transactions (Fields newBlock))
      /\ cumulativeBlocksDifficulty st'
         = uint64_wrap (cumulativeBlocksDifficulty st
                        + uint64_of_float (math_Pow 2 (Difficulty (Fields newBlock))))
      /\ txPool st' = UpdateTransactionPool (unspentTxOuts st') (txPool st)
      /\ txPool st' `sublist_of` txPool st
      /\ (forall tx, tx ∈ txPool st'
            <-> tx ∈ txPool st
                /\ forall txIn, txIn ∈ TxIns tx ->
                     txInKey txIn ∈ utxoKey <$> unspentTxOuts st')).
Proof.
  intros Hadd.
  apply AddBlockToChain_cases in Hadd
    as [[-> ->] | [-> (latest & Hlast & Hvalid & Htxs & ->)]].
  - split; [done | discriminate].
  - split; [discriminate |]. intros _.
    split; [by exists latest |].
    cbn [blockchain unspentTxOuts txPool cumulativeBlocksDifficulty].
    split; [reflexivity |].
    split; [by rewrite ProcessTransactions_eq, Htxs |].
    do 3 (split; [reflexivity |]).
    rewrite UpdateTransactionPool_filter.
    split; [apply sublist_filter |].
    intros tx. rewrite list_elem_of_filter, forallb_forall.
    split.
    + intros [Hall Htx]. split; [exact Htx |].
      intros txIn HtxIn. apply hasTxIn_true, Hall. by apply list_elem_of_In.
    + intros [Htx Hall]. split; [| exact Htx].
      intros txIn HtxIn. apply hasTxIn_true, Hall. by apply list_elem_of_In.
Qed.

Lemma ReplaceChain_cases clock st newBlocks st' err :
  ReplaceChain clock st newBlocks = Some (st', err) ->
  let cumulative :=
    if bool_decide (cumulativeBlocksDifficulty st = 0)
    then GetCumulativeDifficulty (blockchain st)
    else cumulativeBlocksDifficulty st in
  (err = Some "received blockchain invalid"
   /\ (st' = st
       \/ (exists U, IsValidBlockChain clock newBlocks = Some (U, None))
          /\ GetCumulativeDifficulty newBlocks <= cumulative
          /\ st' = mkState (blockchain st) cumulative (unspentTxOuts st) (txPool st)))
  \/ (err = None
      /\ exists U,
           IsValidBlockChain clock newBlocks = Some (U, None)
           /\ cumulative < GetCumulativeDifficulty newBlocks
           /\ st' = mkState newBlocks (GetCumulativeDifficulty newBlocks) U
                      (UpdateTransactionPool U (txPool st))).
Proof.
  intros Hrep cumulative. unfold ReplaceChain in Hrep.
  destruct (IsValidBlockChain clock newBlocks) as [[U [e |]] |] eqn:Hchain;
    cbn [mbind option_bind] in Hrep; [| | discriminate Hrep].
  - injection Hrep as <- <-. left. split; [reflexivity | by left].
  - fold cumulative in Hrep.
    destruct (Z.leb_spec (GetCumulativeDifficulty newBlocks) cumulative) as [Hle | Hlt].
    + injection Hrep as <- <-. left. split; [reflexivity |]. right.
      split; [by exists U |]. by split.
    + injection Hrep as <- <-. right. split; [reflexivity |]. by exists U.
Qed.

(** X13 ([ReplaceChain]).  An empty candidate is a panic.  A call that
    returns an error leaves the chain, the unspent outputs and the pool as
    they were.  A call that returns no error has installed the candidate,
    which [IsValidBlockChain] accepted with the unspent outputs now held
    and whose cumulative difficulty is strictly above the figure the node
    held for its own chain; the counter is set to it and the pool is
    refreshed against the new unspent outputs. *)
Theorem ReplaceChain_spec (clock : nat -> Z) (st : State) (newBlocks : list Block)
    (st' : State) (err : option error) :
  ReplaceChain clock st newBlocks = Some (st', err) ->
  ReplaceChain clock st [] = None
  /\ newBlocks <> []
  /\ (err <> None ->
      blockchain st' = blockchain st
      /\ unspentTxOuts st' = unspentTxOuts st
      /\ txPool st' = txPool st)
  /\ (err = None ->
      blockchain st' = newBlocks
      /\ IsValidBlockChain clock newBlocks = Some (unspentTxOuts st', None)
      /\ cumulativeBlocksDifficulty st' = GetCumulativeDifficulty newBlocks
      /\ (if bool_decide (cumulativeBlocksDifficulty st = 0)
          then GetCumulativeDifficulty (blockchain st)
          else cumulativeBlocksDifficulty st) < cumulativeBlocksDifficulty st'
      /\ txPool st' = UpdateTransactionPool (unspentTxOuts st') (txPool st)
      /\ poolSpendsUnspent (txPool st') (unspentTxOuts st')).
Proof.
  intros Hrep. split; [reflexivity |]. split.
  { intros ->. discriminate Hrep. }
  apply ReplaceChain_cases in Hrep
    as [[-> [-> | (_ & _ & ->)]] | [-> (U & Hchain & Hlt & ->)]].
  - split; [done | discriminate].
  - split; [done | discriminate].
  - split; [done |]. intros _. cbn [blockchain unspentTxOuts txPool cumulativeBlocksDifficulty].
    repeat (split; [done |]). apply UpdateTransactionPool_spends.
Qed.

End NodeFacts.

Lemma AddBlockToChain_spec_witness :
  @AddBlockToChain RefLib 1020 (@initialState RefLib) block1_miner
  = Some (stateAfterBlock1, true)
  /\ blockchain stateAfterBlock1 = blockchain (@initialState RefLib) ++ [block1_miner]
  /\ UAddress <$> unspentTxOuts stateAfterBlock1 = [genesisAddress; "miner"].
Proof.
  assert (Hadd : @AddBlockToChain RefLib 1020 (@initialState RefLib) block1_miner
                 = Some (stateAfterBlock1, true)) by (vm_compute; reflexivity).
  split; [exact Hadd |].
  destruct (@AddBlockToChain_spec RefLib _ _ _ _ _ Hadd) as [_ Hgrown].
  destruct (Hgrown eq_refl) as (_ & Hchain & _ & HU & _).
  split; [exact Hchain |]. rewrite HU. vm_compute. reflexivity.
Defined.

Lemma ReplaceChain_spec_witness :
  exists st',
    @ReplaceChain RefLib clock1020 stateAfterBlock1 [GenesisBlock; block1_other]
    = Some (st', None)
    /\ blockchain st' = [GenesisBlock; block1_other]
    /\ cumulativeBlocksDifficulty stateAfterBlock1 < cumulativeBlocksDifficulty st'.
Proof.
  eexists.
  assert (Hrep : @ReplaceChain RefLib clock1020 stateAfterBlock1 [GenesisBlock; block1_other]
                 = Some (_, None)) by (vm_compute; reflexivity).
  split; [exact Hrep |].
  destruct (@ReplaceChain_spec RefLib _ _ _ _ _ Hrep) as (_ & _ & _ & Hnew).
  destruct (Hnew eq_refl) as (Hchain & _ & _ & Hlt & _).
  split; [exact Hchain |]. exact Hlt.
Defined.

(** ** What a node always holds *)

Section NodeInvariant.
Context `{GoLib}.

Lemma genesis_transactions_valid :
  validateBlockTransactions (Transactions (Fields GenesisBlock)) [] 0 = true.
Proof. vm_compute. reflexivity. Qed.

Lemma chainLinked_snoc chain latest newBlock now :
  chainLinked chain ->
  last chain = Some latest ->
  IsValidBlock now chain latest newBlock = Some true ->
  chainLinked (chain ++ [newBlock]).
Proof.
  intros Hlinked Hlast Hvalid i p b Hp Hb.
  destruct (decide (S i < length chain)%nat) as [Hin | Hout].
  - rewrite lookup_app_l in Hp by lia. rewrite lookup_app_l in Hb by lia.
    by apply (Hlinked i).
  - assert (S i = length chain) as Hi.
    { apply lookup_lt_Some in Hb. rewrite length_app in Hb. simpl in Hb. lia. }
    rewrite lookup_app_l in Hp by lia.
    rewrite lookup_app_r in Hb by lia.
    rewrite Hi, Nat.sub_diag in Hb. injection Hb as <-.
    rewrite last_lookup in Hlast.
    replace (Nat.pred (length chain)) with i in Hlast by lia.
    rewrite Hlast in Hp. injection Hp as <-.
    by apply (IsValidBlock_linked now chain).
Qed.

Lemma AddToTransactionPool_spends tx U pool :
  poolSpendsUnspent pool U ->
  poolSpendsUnspent (AddToTransactionPool tx U pool).1 U.
Proof.
  intros Hpool. unfold AddToTransactionPool.
  destruct (ValidateTransaction tx U) eqn:Hvalid; cbn [negb]; [| exact Hpool].
  destruct (isValidTxForPool tx pool); cbn [negb fst]; [| exact Hpool].
  intros t txIn Ht HtxIn. apply elem_of_app in Ht as [Ht | Ht].
  - by apply (Hpool t).
  - apply list_elem_of_singleton in Ht as ->.
    destruct (ValidateTransaction_found _ _ _ Hvalid HtxIn) as [u Hu].
    apply find_refersTo_Some_1 in Hu as [Hu Hkey].
    apply list_elem_of_fmap. exists u. split; [| exact Hu].
    unfold txInKey. by rewrite Hkey.
Qed.

Lemma nodeReachable_invariant (st : State) :
  nodeReachable st ->
  (exists first latest,
     blockchain st !! 0%nat = Some first
     /\ Sprintf_v_Block first = Sprintf_v_Block GenesisBlock
     /\ GetLatestBlock (blockchain st) = Some latest)
  /\ chainLinked (blockchain st)
  /\ replays (blockchain st) [] (unspentTxOuts st)
  /\ poolDisjoint (txPool st)
  /\ poolSpendsUnspent (txPool st) (unspentTxOuts st).
Proof.
  assert (Hlatest : forall (chain : list Block) first,
            chain !! 0%nat = Some first -> exists latest, last chain = Some latest).
  { intros chain first Hfirst. destruct (last chain) as [latest |] eqn:Hlast;
      [by exists latest |].
    apply last_None in Hlast. by rewrite Hlast in Hfirst. }
  induction 1 as [| now st newBlock st' added _ IH Hadd
                  | clock st newBlocks st' err _ IH Hrep
                  | st transaction _ IH].
  - split; [exists GenesisBlock, GenesisBlock; split; [| split]; reflexivity |].
    split; [intros i p b Hp Hb; destruct i; discriminate Hb |].
    split.
    + unfold initialState. cbn [unspentTxOuts blockchain].
      rewrite ProcessTransactions_eq, genesis_transactions_valid. cbn [fst].
      apply replays_cons; [exact genesis_transactions_valid | apply replays_nil].
    + split; [apply FOP_nil |]. intros tx txIn Htx.
      change (tx ∈ @nil Transaction) in Htx. apply elem_of_nil in Htx. destruct Htx.
  - destruct IH as ((first & latest & Hfirst & Hgenesis & Hlast) & Hlinked & Hreplay
                     & Hdisjoint & Hspends).
    apply AddBlockToChain_cases in Hadd
      as [[-> ->] | [-> (tip & Htip & Hvalid & Htxs & ->)]].
    + split; [by exists first, latest |]. done.
    + cbn [blockchain unspentTxOuts txPool].
      split.
      { exists first, newBlock. split; [by apply lookup_app_l_Some |].
        split; [exact Hgenesis |]. unfold GetLatestBlock. by rewrite last_snoc. }
      split; [by apply (chainLinked_snoc _ tip _ now) |].
      split.
      { apply (replays_app _ _ _ _ _ Hreplay).
        apply replays_cons; [exact Htxs | apply replays_nil]. }
      split; [by apply poolDisjoint_update | apply UpdateTransactionPool_spends].
  - destruct IH as ((first & latest & Hfirst & Hgenesis & Hlast) & Hlinked & Hreplay
                     & Hdisjoint & Hspends).
    apply ReplaceChain_cases in Hrep
      as [[-> [-> | (_ & _ & ->)]] | [-> (U & Hchain & Hlt & ->)]].
    + split; [by exists first, latest |]. done.
    + cbn [blockchain unspentTxOuts txPool]. split; [by exists first, latest |]. done.
    + cbn [blockchain unspentTxOuts txPool].
      pose proof (IsValidBlockChain_valid _ _ _ Hchain)
        as [(first' & Hfirst' & Hgenesis') Hvalid].
      destruct (Hlatest _ _ Hfirst') as [latest' Hlast'].
      split; [by exists first', latest' |].
      split.
      { intros i p b Hp Hb.
        exact (IsValidBlock_linked _ _ _ _ (Hvalid i p b Hp Hb)). }
      split; [by apply (IsValidBlockChain_replays clock) |].
      split; [by apply poolDisjoint_update | apply UpdateTransactionPool_spends].
  - destruct IH as (Hchain & Hlinked & Hreplay & Hdisjoint & Hspends).
    unfold HandleReceivedTransaction.
    destruct (AddToTransactionPool transaction (unspentTxOuts st) (txPool st))
      as [pool err] eqn:Hadd.
    cbn [fst blockchain unspentTxOuts txPool].
    replace pool with (AddToTransactionPool transaction (unspentTxOuts st) (txPool st)).1
      by (by rewrite Hadd).
    repeat (split; [done |]).
    split; [by apply poolDisjoint_add | by apply AddToTransactionPool_spends].
Qed.

Lemma nodeReachable_heights (st : State) :
  nodeReachable st ->
  forall i b, blockchain st !! i = Some b -> Z.of_nat i < 2 ^ 63 ->
    Index (Fields b) = Z.of_nat i.
Proof.
  intros Hreach.
  destruct (nodeReachable_invariant st Hreach)
    as ((first & latest & Hfirst & Hgenesis & _) & Hlinked & _).
  apply (heights_are_positions _ first Hfirst (genesis_rendering_index _ Hgenesis)).
  intros i p b Hp Hb. by destruct (Hlinked i p b Hp Hb).
Qed.

(** X14 (the package variables [blockchain], [unspentTxOuts] and [txPool]
    under [AddBlockToChain], [ReplaceChain] and [HandleReceivedTransaction]).
    Whatever blocks, chains and transactions a node is handed after its
    start: its chain is never empty and its first block prints as the
    genesis block; the index of a block is its position in the chain; each
    later block names its predecessor by hash and carries the hash of its
    own fields; the unspent outputs are
    what processing the chain block by block from nothing gives; no two
    transactions of the pool share an input reference; and every input in
    the pool names an output that is unspent. *)
Theorem node_invariant (st : State) :
  nodeReachable st ->
  (exists first latest,
     blockchain st !! 0%nat = Some first
     /\ Sprintf_v_Block first = Sprintf_v_Block GenesisBlock
     /\ GetLatestBlock (blockchain st) = Some latest)
  /\ (forall i b, blockchain st !! i = Some b -> Z.of_nat i < 2 ^ 63 ->
        Index (Fields b) = Z.of_nat i)
  /\ chainLinked (blockchain st)
  /\ replays (blockchain st) [] (unspentTxOuts st)
  /\ poolDisjoint (txPool st)
  /\ poolSpendsUnspent (txPool st) (unspentTxOuts st).
Proof.
  intros Hreach.
  destruct (nodeReachable_invariant st Hreach) as (Hfirst & Hrest).
  split; [exact Hfirst |]. split; [by apply nodeReachable_heights | exact Hrest].
Qed.

End NodeInvariant.

Lemma node_invariant_witness :
  @nodeReachable RefLib stateAfterBlock1
  /\ @replays RefLib (blockchain stateAfterBlock1) [] (unspentTxOuts stateAfterBlock1)
  /\ @chainLinked RefLib (blockchain stateAfterBlock1).
Proof.
  assert (Hreach : @nodeReachable RefLib stateAfterBlock1).
  { apply (@node_add RefLib 1020 (@initialState RefLib) block1_miner _ true);
      [apply node_start | vm_compute; reflexivity]. }
  split; [exact Hreach |].
  destruct (@node_invariant RefLib _ Hreach) as (_ & _ & Hlinked & Hreplay & _).
  split; [exact Hreplay | exact Hlinked].
Defined.

(** ** Messages from peers *)

Section P2pFacts.
Context `{GoLib}.

Lemma accepted_chain_tip clock chain U tip :
  IsValidBlockChain clock chain = Some (U, None) ->
  last chain = Some tip ->
  Z.of_nat (length chain) < 2 ^ 63 ->
  Index (Fields tip) = Z.of_nat (length chain) - 1.
Proof.
  intros Hchain Htip Hlen.
  apply IsValidBlockChain_valid in Hchain as [(first & Hfirst & Hgenesis) Hvalid].
  rewrite last_lookup in Htip.
  pose proof (lookup_lt_Some _ _ _ Htip) as Hlt.
  rewrite (heights_are_positions chain first Hfirst (genesis_rendering_index _ Hgenesis)
             (fun i p b Hp Hb =>
                proj1 (IsValidBlock_linked _ _ _ _ (Hvalid i p b Hp Hb)))
             _ tip Htip) by lia.
  lia.
Qed.

Lemma nodeReachable_tip st tip :
  nodeReachable st ->
  last (blockchain st) = Some tip ->
  Z.of_nat (length (blockchain st)) < 2 ^ 63 ->
  Index (Fields tip) = Z.of_nat (length (blockchain st)) - 1.
Proof.
  intros Hreach Htip Hlen. rewrite last_lookup in Htip.
  pose proof (lookup_lt_Some _ _ _ Htip) as Hlt.
  rewrite (nodeReachable_heights st Hreach _ tip Htip) by lia. lia.
Qed.

(** X15 ([handleReceivedBlocks]).  On a node in a state it can reach, a
    batch of blocks either changes nothing of the chain, the unspent
    outputs and the pool (an empty batch, a tip that is not higher than the
    node's, a block or a chain that is turned down, or a single block that
    does not follow the node's tip, for which the whole chain is asked),
    or the node appends the last block of the batch, or it installs the
    batch, which then has at least two blocks; in both cases the new tip is
    the last block of the batch and is what the node sends out.  Below
    [2^63] blocks the chain never gets shorter. *)
Theorem handleReceivedBlocks_spec (now : Z) (clock : nat -> Z) (st : State)
    (blocks : list Block) (st' : State) (sent : list Sent) :
  nodeReachable st ->
  handleReceivedBlocks now clock st blocks = Some (st', sent) ->
  nodeReachable st'
  /\ (blocks = [] -> st' = st /\ sent = [])
  /\ (forall held received,
        last (blockchain st) = Some held -> last blocks = Some received ->
        Index (Fields received) <= Index (Fields held) -> st' = st /\ sent = [])
  /\ ((blockchain st' = blockchain st /\ unspentTxOuts st' = unspentTxOuts st
       /\ txPool st' = txPool st
       /\ (sent = [] \/ sent = [SentGetAllBlocks] /\ length blocks = 1%nat))
      \/ (exists tip,
            sent = [SentBlockchain [tip]] /\ last blocks = Some tip
            /\ last (blockchain st') = Some tip
            /\ (blockchain st' = blockchain st ++ [tip]
                \/ blockchain st' = blocks /\ (2 <= length blocks)%nat)))
  /\ (Z.of_nat (length (blockchain st)) < 2 ^ 63 ->
      Z.of_nat (length blocks) < 2 ^ 63 ->
      (length (blockchain st) <= length (blockchain st'))%nat).
Proof.
  intros Hreach Hrun. unfold handleReceivedBlocks, GetLatestBlock in Hrun.
  destruct (last blocks) as [received |] eqn:Hreceived.
  2:{ injection Hrun as <- <-. split; [exact Hreach |]. split; [done |].
      split; [intros held received _ Hr; discriminate Hr |].
      split; [left; repeat split; by left | lia]. }
  assert (Hne : blocks <> []) by (intros ->; discriminate Hreceived).
  destruct (last (blockchain st)) as [held |] eqn:Hheld; [| discriminate Hrun].
  cbn [mbind option_bind] in Hrun.
  destruct (Z.ltb_spec (Index (Fields held)) (Index (Fields received))) as [Hhigher | Hlower].
  2:{ injection Hrun as <- <-. split; [exact Hreach |]. split; [done |].
      split; [done |]. split; [left; repeat split; by left | lia]. }
  split; [| split; [done | split]].
  - (* the state that results can be reached *)
    case_bool_decide as Hfollows.
    + destruct (AddBlockToChain now st received) as [[st1 added] |] eqn:Hadd;
        [| discriminate Hrun].
      cbn [mbind option_bind] in Hrun.
      assert (nodeReachable st1) by (by eapply node_add).
      destruct added.
      * destruct (last (blockchain st1)); [| discriminate Hrun].
        cbn [mbind option_bind] in Hrun. by injection Hrun as <- <-.
      * by injection Hrun as <- <-.
    + case_bool_decide as Hsingle; [by injection Hrun as <- <- |].
      destruct (ReplaceChain clock st blocks) as [[st1 err] |] eqn:Hrep;
        [| discriminate Hrun].
      cbn [mbind option_bind] in Hrun.
      assert (nodeReachable st1) by (by eapply node_replace).
      destruct err.
      * by injection Hrun as <- <-.
      * destruct (last (blockchain st1)); [| discriminate Hrun].
        cbn [mbind option_bind] in Hrun. by injection Hrun as <- <-.
  - intros held' received' Hh Hr Hle.
    injection Hh as <-. injection Hr as <-. lia.
  - (* what changes, what is sent, and the length of the chain *)
    case_bool_decide as Hfollows.
    + destruct (AddBlockToChain now st received) as [[st1 added] |] eqn:Hadd;
        [| discriminate Hrun].
      cbn [mbind option_bind] in Hrun.
      apply AddBlockToChain_cases in Hadd
        as [[-> ->] | [-> (tip & Htip & Hvalid & Htxs & ->)]].
      * injection Hrun as <- <-. split; [left; repeat split; by left | lia].
      * cbn [blockchain] in Hrun. rewrite last_snoc in Hrun.
        cbn [mbind option_bind] in Hrun. injection Hrun as <- <-.
        cbn [blockchain]. split.
        -- right. exists received. split; [done |]. split; [done |].
           split; [by rewrite last_snoc | by left].
        -- rewrite length_app. lia.
    + case_bool_decide as Hsingle.
      { injection Hrun as <- <-. split; [| lia].
        left. repeat split. right. by split. }
      destruct (ReplaceChain clock st blocks) as [[st1 err] |] eqn:Hrep;
        [| discriminate Hrun].
      cbn [mbind option_bind] in Hrun.
      apply ReplaceChain_cases in Hrep
        as [[-> [-> | (_ & _ & ->)]] | [-> (U & Hchain & Hlt & ->)]].
      * injection Hrun as <- <-. split; [left; repeat split; by left | lia].
      * injection Hrun as <- <-. cbn [blockchain unspentTxOuts txPool].
        split; [left; repeat split; by left | lia].
      * cbn [blockchain] in Hrun. rewrite Hreceived in Hrun.
        cbn [mbind option_bind] in Hrun. injection Hrun as <- <-.
        cbn [blockchain]. split.
        -- right. exists received. split; [done |]. split; [done |].
           split; [done |]. right. split; [done |].
           destruct blocks as [| b1 [| b2 rest]]; simpl in *; [done | done | lia].
        -- intros Hlen Hlen'.
           pose proof (accepted_chain_tip _ _ _ _ Hchain Hreceived Hlen') as Hr.
           pose proof (nodeReachable_tip _ _ Hreach Hheld Hlen) as Hh.
           lia.
Qed.

Lemma handleReceivedTxPool_snoc (st : State) (txs : list Transaction) (tx : Transaction) :
  handleReceivedTxPool st (txs ++ [tx])
  = let '(st1, sent) := handleReceivedTxPool st txs in
    let '(st', err) := HandleReceivedTransaction st1 tx in
    match err with
    | None => (st', sent ++ [SentTxPool (txPool st')])
    | Some _ => (st', sent)
    end.
Proof.
  unfold handleReceivedTxPool. rewrite fold_left_app. cbn [fold_left].
  by destruct (fold_left _ txs (st, [])) as [st1 sent].
Qed.

(** X16 (the [TX_POOL] case of [handleMessage]).  A batch of transactions
    from a peer leaves the chain and the unspent outputs alone and only
    adds to the end of the pool: what is added is a sublist of the batch,
    in its order; there is one broadcast per transaction added, each with
    the whole pool as it is right after that addition; and the state that
    results is one the node can reach. *)
Theorem handleReceivedTxPool_spec (st : State) (txs : list Transaction) :
  blockchain (handleReceivedTxPool st txs).1 = blockchain st
  /\ unspentTxOuts (handleReceivedTxPool st txs).1 = unspentTxOuts st
  /\ cumulativeBlocksDifficulty (handleReceivedTxPool st txs).1
     = cumulativeBlocksDifficulty st
  /\ (exists accepted,
        txPool (handleReceivedTxPool st txs).1 = txPool st ++ accepted
        /\ accepted `sublist_of` txs
        /\ (handleReceivedTxPool st txs).2
           = (fun k => SentTxPool (txPool st ++ take (S k) accepted))
               <$> seq 0 (length accepted))
  /\ (nodeReachable st -> nodeReachable (handleReceivedTxPool st txs).1).
Proof.
  induction txs as [| tx txs IH] using rev_ind.
  - cbn. repeat (split; [done |]). split; [| done].
    exists []. by rewrite app_nil_r.
  - rewrite handleReceivedTxPool_snoc.
    destruct (handleReceivedTxPool st txs) as [st1 sent].
    cbn [fst snd] in IH.
    destruct IH as (Hchain & HU & Hcum & (accepted & Hpool & Hsub & Hsent) & Hreach).
    pose proof (fun Hst => node_receive st1 tx (Hreach Hst)) as Hreach'.
    unfold HandleReceivedTransaction in *.
    unfold AddToTransactionPool in *.
    destruct (ValidateTransaction tx (unspentTxOuts st1)); cbn [negb] in *.
    + destruct (isValidTxForPool tx (txPool st1)); cbn [negb fst snd] in *;
        cbn [blockchain unspentTxOuts txPool cumulativeBlocksDifficulty].
      * repeat (split; [done |]). split; [| exact Hreach'].
        exists (accepted ++ [tx]). split; [by rewrite Hpool, app_assoc |].
        split; [by apply sublist_app |].
        rewrite length_app, seq_app, fmap_app. cbn [length seq fmap list_fmap Nat.add].
        rewrite Hsent, Hpool. f_equal.
        -- apply list_fmap_ext. intros k j Hj.
           apply lookup_seq in Hj as [-> Hlt]. cbn [Nat.add].
           by rewrite take_app_le by lia.
        -- rewrite <- app_assoc, take_ge; [done |]. rewrite length_app. simpl. lia.
      * repeat (split; [done |]). split; [| exact Hreach'].
        exists accepted. split; [done |]. split; [| done].
        by apply sublist_inserts_r.
    + cbn [fst snd blockchain unspentTxOuts txPool cumulativeBlocksDifficulty].
      repeat (split; [done |]). split; [| exact Hreach'].
      exists accepted. split; [done |]. split; [| done].
      by apply sublist_inserts_r.
Qed.

End P2pFacts.

Lemma handleReceivedBlocks_spec_witness :
  @handleReceivedBlocks RefLib 1020 clock1020 (@initialState RefLib) [block1_miner]
  = Some (stateAfterBlock1, [SentBlockchain [block1_miner]])
  /\ @nodeReachable RefLib stateAfterBlock1
  /\ (length (blockchain (@initialState RefLib)) <= length (blockchain stateAfterBlock1))%nat.
Proof.
  assert (Hrun : @handleReceivedBlocks RefLib 1020 clock1020 (@initialState RefLib)
                   [block1_miner]
                 = Some (stateAfterBlock1, [SentBlockchain [block1_miner]]))
    by (vm_compute; reflexivity).
  split; [exact Hrun |].
  destruct (@handleReceivedBlocks_spec RefLib _ _ _ _ _ _ (@node_start RefLib) Hrun)
    as (Hreach & _ & _ & _ & Hlen).
  split; [exact Hreach |]. apply Hlen; vm_compute; reflexivity.
Defined.

(** ** The shape of a hash *)

Lemma round_length (s : list Z) (kw : Z * Z) :
  length (SHA256.round s kw) = length s.
Proof.
  destruct s as [| a [| b [| c [| d [| e [| f [| g [| h [| i s]]]]]]]]]; reflexivity.
Qed.

Lemma compress_length (h block : list Z) :
  length (SHA256.compress h block) = length h.
Proof.
  unfold SHA256.compress. rewrite length_map, length_combine.
  assert (Hfold : forall l s, length (fold_left SHA256.round l s) = length s).
  { induction l as [| kw l IH]; intros s; [reflexivity |].
    cbn [fold_left]. by rewrite IH, round_length. }
  rewrite Hfold. lia.
Qed.

Lemma blocks_length (n : nat) : forall h bs,
  length (SHA256.blocks n h bs) = length h.
Proof.
  induction n as [| n IH]; intros h bs; [reflexivity |].
  cbn [SHA256.blocks]. by rewrite IH, compress_length.
Qed.

Lemma digest_bytes (msg : list Z) :
  length (SHA256.digest msg) = 32%nat
  /\ Forall (fun b => 0 <= b < 256) (SHA256.digest msg).
Proof.
  unfold SHA256.digest.
  pose proof (blocks_length (length (SHA256.pad msg) / 64) SHA256.H0 (SHA256.pad msg)) as Hlen.
  change (length SHA256.H0) with 8%nat in Hlen.
  revert Hlen. generalize (SHA256.blocks (length (SHA256.pad msg) / 64) SHA256.H0
                             (SHA256.pad msg)) as words.
  intros words Hlen. split.
  - assert (Hflat : forall ws : list Z,
              length (flat_map (SHA256.be_bytes 4) ws) = (4 * length ws)%nat).
    { induction ws as [| w ws IH]; [reflexivity |].
      cbn [flat_map]. rewrite length_app, IH.
      unfold SHA256.be_bytes. rewrite length_map. cbn [length seq rev app]. lia. }
    rewrite Hflat, Hlen. reflexivity.
  - apply Forall_forall. intros b Hb. apply list_elem_of_In, in_flat_map in Hb
      as (w & _ & Hb).
    unfold SHA256.be_bytes in Hb. apply in_map_iff in Hb as (i & <- & _).
    apply Z.mod_pos_bound. lia.
Qed.

Lemma utils_Hash_digits `{GoLib} (rendered : string) :
  String.length (utils_Hash rendered) = 64%nat
  /\ IsHex (utils_Hash rendered) = true
  /\ String.length (HexToBin (utils_Hash rendered)) = 256%nat
  /\ (forall difficulty,
        256 < int_of_float difficulty ->
        exists requiredPrefix,
          hashMatchesDifficulty (utils_Hash rendered) difficulty
          = Some (false, requiredPrefix)).
Proof.
  unfold utils_Hash, SHA256.sum256_hex.
  destruct (digest_bytes (SHA256.bytes_of_string rendered)) as [Hlen Hbytes].
  revert Hlen Hbytes. generalize (SHA256.digest (SHA256.bytes_of_string rendered)) as bs.
  intros bs Hlen Hbytes.
  assert (Hsize : String.length (SHA256.hex_of_bytes bs) = 64%nat)
    by (rewrite hex_of_bytes_length, Hlen; reflexivity).
  assert (Hall : allHexDigits (SHA256.hex_of_bytes bs) = true)
    by (by apply hex_of_bytes_allHexDigits).
  assert (Hbin : forall s, allHexDigits s = true ->
                   String.length (HexToBin s) = (4 * String.length s)%nat).
  { induction s as [| c s IH]; [reflexivity |].
    cbn [allHexDigits HexToBin String.length]. rewrite andb_true_iff. intros [Hc Hs].
    rewrite string_length_append, hexDict_length, Hc, (IH Hs). lia. }
  split; [exact Hsize |]. split; [| split].
  - unfold IsHex. destruct (SHA256.hex_of_bytes bs); [discriminate Hsize | exact Hall].
  - rewrite (Hbin _ Hall), Hsize. reflexivity.
  - intros difficulty Hhigh. unfold hashMatchesDifficulty, strings_Repeat.
    destruct (Z.ltb_spec (int_of_float difficulty) 0) as [Hneg | _]; [lia |].
    cbn [mbind option_bind]. eexists. f_equal. f_equal.
    rewrite concat_replicate_zeros.
    destruct (String.prefix _ _) eqn:Hpre; [| reflexivity].
    apply string_prefix_append in Hpre as [rest Hrest].
    apply (f_equal String.length) in Hrest.
    rewrite (Hbin _ Hall), Hsize, string_length_append, zeros_length in Hrest. lia.
Qed.

(** X17 ([utils.Hash]).  Whatever is hashed, the result is 64 hex digits,
    which [IsHex] accepts and [HexToBin] turns into 256 binary digits; so
    no hash meets a difficulty above 256. *)
Theorem utils_Hash_shape `{GoLib} (rendered : string) :
  String.length (utils_Hash rendered) = 64%nat
  /\ IsHex (utils_Hash rendered) = true
  /\ String.length (HexToBin (utils_Hash rendered)) = 256%nat
  /\ (forall difficulty,
        256 < int_of_float difficulty ->
        exists requiredPrefix,
          hashMatchesDifficulty (utils_Hash rendered) difficulty
          = Some (false, requiredPrefix)).
Proof. apply utils_Hash_digits. Qed.

(** ** Mining *)

Section MiningFacts.
Context `{GoLib}.

Lemma hashMatchesDifficulty_true hash difficulty requiredPrefix :
  hashMatchesDifficulty hash difficulty = Some (true, requiredPrefix) ->
  0 <= int_of_float difficulty
  /\ exists rest, HexToBin hash = zeros (Z.to_nat (int_of_float difficulty)) +:+ rest.
Proof.
  unfold hashMatchesDifficulty, strings_Repeat.
  destruct (Z.ltb_spec (int_of_float difficulty) 0) as [Hneg | Hpos]; [discriminate |].
  cbn [mbind option_bind]. intros Hmatch. injection Hmatch as Hmatch _.
  rewrite concat_replicate_zeros in Hmatch.
  split; [exact Hpos | by apply string_prefix_append].
Qed.

Lemma hashMatchesDifficulty_false hash difficulty requiredPrefix :
  hashMatchesDifficulty hash difficulty = Some (false, requiredPrefix) ->
  ~ exists rest, HexToBin hash = zeros (Z.to_nat (int_of_float difficulty)) +:+ rest.
Proof.
  unfold hashMatchesDifficulty, strings_Repeat.
  destruct (Z.ltb_spec (int_of_float difficulty) 0) as [Hneg | Hpos]; [discriminate |].
  cbn [mbind option_bind]. intros Hmatch. injection Hmatch as Hmatch _.
  rewrite concat_replicate_zeros in Hmatch.
  intros Hrest. apply string_prefix_append in Hrest. congruence.
Qed.

Lemma withNonce_same (f : BlockFields) : withNonce f (Nonce f) = f.
Proof. by destruct f. Qed.

Lemma proofOfWork_found fuel : forall f b,
  proofOfWork fuel f = Some (Some b) ->
  exists k,
    (k < fuel)%nat
    /\ b = mkBlock (withNonce f (nonceAfter k (Nonce f)))
             (utils_Hash (Sprintf_v_BlockFields (withNonce f (nonceAfter k (Nonce f)))))
    /\ (exists requiredPrefix,
          hashMatchesDifficulty (Hash b) (Difficulty f) = Some (true, requiredPrefix))
    /\ forall j, (j < k)%nat -> ~ meetsDifficulty (withNonce f (nonceAfter j (Nonce f))).
Proof.
  induction fuel as [| fuel IH]; intros f b Hpow; [discriminate Hpow |].
  cbn [proofOfWork] in Hpow.
  destruct (hashMatchesDifficulty (utils_Hash (Sprintf_v_BlockFields f)) (Difficulty f))
    as [[matches requiredPrefix] |] eqn:Hmatch; [| discriminate Hpow].
  cbn [mbind option_bind] in Hpow. destruct matches.
  - injection Hpow as <-. exists 0%nat. cbn [nonceAfter Nat.iter].
    rewrite withNonce_same. split; [lia |]. split; [reflexivity |].
    split; [by exists requiredPrefix | intros j Hj; lia].
  - apply IH in Hpow as (k & Hk & -> & Hfound & Hearlier).
    cbn [Nonce Difficulty Index PrevHash Ts Transactions withNonce] in *.
    assert (Hshift : forall j,
              nonceAfter j (int_wrap (Nonce f + 1)) = nonceAfter (S j) (Nonce f)).
    { induction j as [| j IHj]; [reflexivity |].
      change (int_wrap (nonceAfter j (int_wrap (Nonce f + 1)) + 1)
              = int_wrap (nonceAfter (S j) (Nonce f) + 1)).
      by rewrite IHj. }
    exists (S k). split; [lia |].
    unfold withNonce in *. cbn [Nonce Difficulty Index PrevHash Ts Transactions] in *.
    rewrite Hshift in *.
    split; [reflexivity |]. split; [exact Hfound |].
    intros [| j] Hj.
    + cbn [nonceAfter Nat.iter]. intros Hmeets. unfold meetsDifficulty in Hmeets.
      cbn [Difficulty] in Hmeets.
      apply (hashMatchesDifficulty_false _ _ _ Hmatch).
      by replace f with (mkBlockFields (Index f) (PrevHash f) (Ts f) (Transactions f)
                           (Difficulty f) (Nonce f)) by (by destruct f).
    + specialize (Hearlier j ltac:(lia)). by rewrite Hshift in Hearlier.
Qed.

Lemma proofOfWork_more_fuel fuel : forall f b fuel',
  proofOfWork fuel f = Some (Some b) -> (fuel <= fuel')%nat ->
  proofOfWork fuel' f = Some (Some b).
Proof.
  induction fuel as [| fuel IH]; intros f b fuel' Hpow Hle; [discriminate Hpow |].
  destruct fuel' as [| fuel']; [lia |].
  cbn [proofOfWork] in *.
  destruct (hashMatchesDifficulty _ _) as [[[|] requiredPrefix] |];
    cbn [mbind option_bind] in *; [exact Hpow | | discriminate Hpow].
  apply (IH _ _ _ Hpow). lia.
Qed.

(** X18 (the proof-of-work loop of [produceBlock]).  The block that the
    loop returns has the fields it started from, except for the nonce,
    which was incremented once for each candidate that failed; its hash is
    the hash of its fields and meets the difficulty, and no earlier
    candidate did.  More rounds give the same block. *)
Theorem proofOfWork_spec (fuel : nat) (f : BlockFields) (b : Block) :
  proofOfWork fuel f = Some (Some b) ->
  (exists k,
     (k < fuel)%nat
     /\ Fields b = withNonce f (nonceAfter k (Nonce f))
     /\ forall j, (j < k)%nat -> ~ meetsDifficulty (withNonce f (nonceAfter j (Nonce f))))
  /\ Hash b = utils_Hash (Sprintf_v_BlockFields (Fields b))
  /\ meetsDifficulty (Fields b)
  /\ 0 <= int_of_float (Difficulty f)
  /\ (forall fuel', (fuel <= fuel')%nat -> proofOfWork fuel' f = Some (Some b)).
Proof.
  intros Hpow.
  pose proof (proofOfWork_found _ _ _ Hpow)
    as (k & Hk & -> & (requiredPrefix & Hmatch) & Hearlier).
  cbn [Fields Hash] in *.
  apply hashMatchesDifficulty_true in Hmatch as [Hpos Hmeets].
  split; [by exists k |]. split; [reflexivity |]. split; [exact Hmeets |].
  split; [exact Hpos |].
  intros fuel' Hle. by apply (proofOfWork_more_fuel fuel).
Qed.

(** X19 (the proof-of-work loop of [produceBlock], at the edges).  A
    difficulty that converts to a negative integer is a panic in the first
    round; one that converts to 0 is met by the first candidate; one that
    converts to more than 256 is met by none, so the loop never ends. *)
Theorem proofOfWork_edges (fuel : nat) (f : BlockFields) :
  (int_of_float (Difficulty f) < 0 -> proofOfWork (S fuel) f = None)
  /\ (int_of_float (Difficulty f) = 0 ->
      proofOfWork (S fuel) f = Some (Some (mkBlock f (utils_Hash (Sprintf_v_BlockFields f)))))
  /\ (256 < int_of_float (Difficulty f) -> proofOfWork fuel f = Some None).
Proof.
  split; [| split].
  - intros Hneg. cbn [proofOfWork]. unfold hashMatchesDifficulty, strings_Repeat.
    destruct (Z.ltb_spec (int_of_float (Difficulty f)) 0); [reflexivity | lia].
  - intros Hzero. cbn [proofOfWork]. unfold hashMatchesDifficulty, strings_Repeat.
    rewrite Hzero. cbn [Z.ltb Z.compare mbind option_bind Z.to_nat replicate String.concat].
    by destruct (HexToBin _).
  - intros Hhigh. revert f Hhigh. induction fuel as [| fuel IH]; intros f Hhigh;
      [reflexivity |].
    cbn [proofOfWork].
    destruct (utils_Hash_digits (Sprintf_v_BlockFields f)) as (_ & _ & _ & Hnone).
    destruct (Hnone _ Hhigh) as [requiredPrefix ->].
    cbn [mbind option_bind]. by apply IH.
Qed.

Lemma IsValidBlock_mined now chain latest difficulty mined :
  getDifficulty chain latest = Some difficulty ->
  Index (Fields mined) = int_wrap (Index (Fields latest) + 1) ->
  PrevHash (Fields mined) = Hash latest ->
  Difficulty (Fields mined) = difficulty ->
  Hash mined = utils_Hash (Sprintf_v_BlockFields (Fields mined)) ->
  (exists requiredPrefix,
     hashMatchesDifficulty (Hash mined) difficulty = Some (true, requiredPrefix)) ->
  IsValidBlock now chain latest mined
  = Some (negb (timestampIsInvalid now latest mined) && PrimFloat.eqb difficulty difficulty).
Proof.
  intros Hdiff Hindex Hprev Hd Hhash [requiredPrefix Hmatch]. unfold IsValidBlock.
  rewrite Hdiff, Hd, Hmatch.
  rewrite (bool_decide_eq_true_2 _ (eq_sym Hindex)).
  rewrite (bool_decide_eq_true_2 _ (eq_sym Hprev)).
  rewrite (bool_decide_eq_true_2 _ (eq_sym Hhash)).
  cbn [negb mbind option_bind].
  destruct (timestampIsInvalid now latest mined); [reflexivity |].
  by destruct (PrimFloat.eqb difficulty difficulty).
Qed.

Lemma produceBlock_cases fuel nowMine nowAdd st transactions st' b err :
  produceBlock fuel nowMine nowAdd st transactions = Some (Some (st', b, err)) ->
  exists latest difficulty mined added,
    last (blockchain st) = Some latest
    /\ getDifficulty (blockchain st) latest = Some difficulty
    /\ proofOfWork fuel
         (mkBlockFields (int_wrap (Index (Fields latest) + 1)) (Hash latest)
            (uint64_wrap nowMine) transactions difficulty 0)
       = Some (Some mined)
    /\ AddBlockToChain nowAdd st mined = Some (st', added)
    /\ ((added = true /\ b = mined /\ err = None)
        \/ (added = false /\ b = Block_zero
            /\ err = Some "failed to produce valid block")).
Proof.
  unfold produceBlock. intros Hrun.
  destruct (last (blockchain st)) as [latest |] eqn:Hlast; [| discriminate Hrun].
  cbn [mbind option_bind] in Hrun.
  destruct (getDifficulty (blockchain st) latest) as [difficulty |] eqn:Hdiff;
    [| discriminate Hrun].
  cbn [mbind option_bind] in Hrun.
  destruct (proofOfWork _ _) as [[mined |] |] eqn:Hpow; cbn [mbind option_bind] in Hrun;
    [| discriminate Hrun | discriminate Hrun].
  destruct (AddBlockToChain nowAdd st mined) as [[st1 added] |] eqn:Hadd;
    [| discriminate Hrun].
  cbn [mbind option_bind] in Hrun.
  exists latest, difficulty, mined, added.
  destruct added; injection Hrun as <- <- <-.
  - do 4 (split; [done |]). by left.
  - do 4 (split; [done |]). by right.
Qed.

Lemma produceBlock_outcome (fuel : nat) (nowMine nowAdd : Z) (st : State)
    (transactions : list Transaction) (st' : State) (b : Block) (err : option error) :
  produceBlock fuel nowMine nowAdd st transactions = Some (Some (st', b, err)) ->
  exists latest difficulty mined,
    last (blockchain st) = Some latest
    /\ getDifficulty (blockchain st) latest = Some difficulty
    /\ Index (Fields mined) = int_wrap (Index (Fields latest) + 1)
    /\ PrevHash (Fields mined) = Hash latest
    /\ Ts (Fields mined) = uint64_wrap nowMine
    /\ Transactions (Fields mined) = transactions
    /\ Difficulty (Fields mined) = difficulty
    /\ Hash mined = utils_Hash (Sprintf_v_BlockFields (Fields mined))
    /\ meetsDifficulty (Fields mined)
    /\ (err = None ->
        b = mined
        /\ IsValidBlock nowAdd (blockchain st) latest mined = Some true
        /\ validateBlockTransactions transactions (unspentTxOuts st)
             (Index (Fields mined)) = true
        /\ blockchain st' = blockchain st ++ [mined]
        /\ unspentTxOuts st' = spec_processTransactions transactions (unspentTxOuts st)
        /\ txPool st' = UpdateTransactionPool (unspentTxOuts st') (txPool st)
        /\ (nodeReachable st -> nodeReachable st'))
    /\ (err <> None ->
        st' = st /\ b = Block_zero
        /\ (timestampIsInvalid nowAdd latest mined = true
            \/ PrimFloat.eqb difficulty difficulty = false
            \/ validateBlockTransactions transactions (unspentTxOuts st)
                 (Index (Fields mined)) = false)).
Proof.
  intros Hrun.
  apply produceBlock_cases in Hrun
    as (latest & difficulty & mined & added & Hlast & Hdiff & Hpow & Hadd & Hout).
  exists latest, difficulty, mined.
  pose proof (proofOfWork_found _ _ _ Hpow) as (k & _ & Hmined & Hmatch & _).
  cbn [Difficulty] in Hmatch.
  assert (Hfields : Fields mined
                    = mkBlockFields (int_wrap (Index (Fields latest) + 1)) (Hash latest)
                        (uint64_wrap nowMine) transactions difficulty
                        (nonceAfter k 0)) by (by rewrite Hmined).
  assert (Hhash : Hash mined = utils_Hash (Sprintf_v_BlockFields (Fields mined)))
    by (by rewrite Hmined).
  pose proof (IsValidBlock_mined nowAdd (blockchain st) latest difficulty mined Hdiff
                ltac:(by rewrite Hfields) ltac:(by rewrite Hfields)
                ltac:(by rewrite Hfields) Hhash Hmatch) as Hvalid.
  destruct Hmatch as [requiredPrefix Hmatch].
  apply hashMatchesDifficulty_true in Hmatch as [_ Hmeets].
  split; [exact Hlast |]. split; [exact Hdiff |].
  rewrite Hfields at 1 2 3 4 5. cbn [Index PrevHash Ts Transactions Difficulty].
  do 5 (split; [reflexivity |]). split; [exact Hhash |].
  split.
  { unfold meetsDifficulty. rewrite <- Hhash.
    replace (Difficulty (Fields mined)) with difficulty by (by rewrite Hfields).
    exact Hmeets. }
  pose proof Hadd as Hstep.
  apply AddBlockToChain_cases in Hadd
    as [[-> ->] | [-> (tip & Htip & Hok & Htxs & ->)]].
  - destruct Hout as [(Hadded & _) | (_ & -> & ->)]; [discriminate Hadded |].
    split; [discriminate |]. intros _. split; [reflexivity |]. split; [reflexivity |].
    unfold AddBlockToChain, GetLatestBlock in Hstep. rewrite Hlast in Hstep.
    cbn [mbind option_bind] in Hstep. rewrite Hvalid in Hstep.
    cbn [mbind option_bind] in Hstep.
    destruct (timestampIsInvalid nowAdd latest mined); [by left |].
    destruct (PrimFloat.eqb difficulty difficulty); [| right; by left].
    cbn [negb andb] in Hstep. rewrite ProcessTransactions_eq in Hstep.
    rewrite Hfields in Hstep at 1. cbn [Transactions] in Hstep.
    destruct (validateBlockTransactions transactions (unspentTxOuts st)
                (Index (Fields mined))) eqn:Htxs; [| right; by right].
    injection Hstep as Hst. exfalso. apply (f_equal blockchain) in Hst.
    cbn [blockchain] in Hst. apply (f_equal length) in Hst.
    rewrite length_app in Hst. simpl in Hst. lia.
  - destruct Hout as [(_ & -> & ->) | (Hadded & _)]; [| discriminate Hadded].
    split; [| intros Herr; by destruct Herr]. intros _.
    rewrite Hlast in Htip. injection Htip as <-.
    assert (Htxs' : Transactions (Fields mined) = transactions)
      by (rewrite Hfields; reflexivity).
    pose proof (fun Hreach => node_add nowAdd st mined _ true Hreach Hstep) as Hreach.
    rewrite Htxs' in Htxs, Hreach |- *.
    cbn [blockchain unspentTxOuts txPool].
    split; [reflexivity |]. split; [exact Hok |]. split; [exact Htxs |].
    repeat (split; [reflexivity |]).
    exact Hreach.
Qed.

(** X20 ([produceBlock]).  The block that is mined sits on the tip: next
    index, the tip's hash, the clock reading as timestamp, the given
    transactions, the difficulty that [getDifficulty] asks for, and a hash
    that meets it.  If no error is returned, exactly this block was
    appended and the state can be reached by appending it.  If the error
    is returned, nothing has changed, and the reason is one of three: the
    timestamp rule at the time of appending, a difficulty that is not
    equal to itself (NaN), or transactions that do not validate. *)
Theorem produceBlock_spec (fuel : nat) (nowMine nowAdd : Z) (st : State)
    (transactions : list Transaction) (st' : State) (b : Block) (err : option error) :
  produceBlock fuel nowMine nowAdd st transactions = Some (Some (st', b, err)) ->
  exists latest difficulty mined,
    last (blockchain st) = Some latest
    /\ getDifficulty (blockchain st) latest = Some difficulty
    /\ Index (Fields mined) = int_wrap (Index (Fields latest) + 1)
    /\ PrevHash (Fields mined) = Hash latest
    /\ Ts (Fields mined) = uint64_wrap nowMine
    /\ Transactions (Fields mined) = transactions
    /\ Difficulty (Fields mined) = difficulty
    /\ Hash mined = utils_Hash (Sprintf_v_BlockFields (Fields mined))
    /\ meetsDifficulty (Fields mined)
    /\ (err = None ->
        b = mined
        /\ IsValidBlock nowAdd (blockchain st) latest mined = Some true
        /\ validateBlockTransactions transactions (unspentTxOuts st)
             (Index (Fields mined)) = true
        /\ blockchain st' = blockchain st ++ [mined]
        /\ unspentTxOuts st' = spec_processTransactions transactions (unspentTxOuts st)
        /\ txPool st' = UpdateTransactionPool (unspentTxOuts st') (txPool st)
        /\ (nodeReachable st -> nodeReachable st'))
    /\ (err <> None ->
        st' = st /\ b = Block_zero
        /\ (timestampIsInvalid nowAdd latest mined = true
            \/ PrimFloat.eqb difficulty difficulty = false
            \/ validateBlockTransactions transactions (unspentTxOuts st)
                 (Index (Fields mined)) = false)).
Proof. apply produceBlock_outcome. Qed.

End MiningFacts.

Lemma proofOfWork_spec_witness :
  @proofOfWork RefLib 1 (Fields block1_miner) = Some (Some block1_miner)
  /\ @meetsDifficulty RefLib (Fields block1_miner)
  /\ forall fuel', (1 <= fuel')%nat ->
       @proofOfWork RefLib fuel' (Fields block1_miner) = Some (Some block1_miner).
Proof.
  assert (Hpow : @proofOfWork RefLib 1 (Fields block1_miner) = Some (Some block1_miner))
    by (vm_compute; reflexivity).
  split; [exact Hpow |].
  destruct (@proofOfWork_spec RefLib _ _ _ Hpow) as (_ & _ & Hmeets & _ & Hmore).
  split; [exact Hmeets | exact Hmore].
Defined.

Lemma produceBlock_spec_witness :
  @produceBlock RefLib 1 1000 1020 (@initialState RefLib) [GetCoinbaseTransaction "miner" 1]
  = Some (Some (stateAfterBlock1, block1_miner, None))
  /\ exists latest difficulty mined,
       last (blockchain (@initialState RefLib)) = Some latest
       /\ getDifficulty (blockchain (@initialState RefLib)) latest = Some difficulty
       /\ Index (Fields mined) = int_wrap (Index (Fields latest) + 1)
       /\ PrevHash (Fields mined) = Hash latest
       /\ blockchain stateAfterBlock1 = blockchain (@initialState RefLib) ++ [mined].
Proof.
  assert (Hrun : @produceBlock RefLib 1 1000 1020 (@initialState RefLib)
                   [GetCoinbaseTransaction "miner" 1]
                 = Some (Some (stateAfterBlock1, block1_miner, None)))
    by (vm_compute; reflexivity).
  split; [exact Hrun |].
  destruct (@produceBlock_spec RefLib _ _ _ _ _ _ _ _ Hrun)
    as (latest & difficulty & mined & Hlast & Hdiff & Hindex & Hprev & _ & _ & _ & _ & _
        & Hok & _).
  exists latest, difficulty, mined.
  destruct (Hok eq_refl) as (_ & _ & _ & Hchain & _).
  repeat (split; [assumption |]). exact Hchain.
Defined.

(** ** The wallet *)

Section WalletFacts.
Context `{GoLib} `{WalletLib}.

Lemma FindUnspentTxOuts_filter address U :
  FindUnspentTxOuts address U = filter (fun u => UAddress u = address) U.
Proof.
  unfold FindUnspentTxOuts.
  rewrite (fold_left_keep (fun u => bool_decide (UAddress u = address))); [| done].
  cbn [app]. apply filter_ext_in. intros u _.
  by rewrite bool_decide_eq_true.
Qed.

Lemma findTxIn_found txIns id ix :
  (findTxIn txIns id ix).2 = true <-> (id, ix) ∈ txInKey <$> txIns.
Proof.
  unfold findTxIn. induction txIns as [| x txIns IH]; cbn [List.find].
  - split; [discriminate | intros Hin; by apply elem_of_nil in Hin].
  - rewrite fmap_cons, elem_of_cons.
    destruct (bool_decide_reflect (TxOutId x = id)) as [Hid | Hid]; cbn [andb].
    + destruct (bool_decide_reflect (TxOutIndex x = ix)) as [Hix | Hix].
      * split; [intros _; left; unfold txInKey; by rewrite Hid, Hix | done].
      * rewrite IH. split; [by right |].
        intros [Hkey | Hin]; [| done]. injection Hkey as _ Hkey. congruence.
    + rewrite IH. split; [by right |].
      intros [Hkey | Hin]; [| done]. injection Hkey as Hkey _. congruence.
Qed.

Lemma filterTxPoolTxs_filter U pool :
  filterTxPoolTxs U pool
  = filter (fun u => utxoKey u ∉ txInKey <$> (pool ≫= TxIns)) U.
Proof.
  unfold filterTxPoolTxs. rewrite fold_left_append. cbn [app].
  rewrite (fold_left_keep
             (fun u => negb (findTxIn (pool ≫= TxIns) (UTxOutId u) (UTxOutIndex u)).2)).
  - cbn [app]. apply filter_ext_in. intros u _.
    rewrite negb_true_iff, <- not_true_iff_false, findTxIn_found. done.
  - intros acc u. by destruct (findTxIn _ _ _) as [x found].
Qed.

Lemma spendable_eq address U pool :
  filterTxPoolTxs (FindUnspentTxOuts address U) pool = spendable address U pool.
Proof.
  rewrite FindUnspentTxOuts_filter, filterTxPoolTxs_filter. unfold spendable.
  rewrite list_filter_filter. apply filter_ext_in. intros u _. tauto.
Qed.

Lemma floatSum_from (cur : float) (l : list UnspentTxOut) (u : UnspentTxOut) :
  fold_left (fun s u => (s + UAmount u)%float) (l ++ [u]) cur
  = (fold_left (fun s u => (s + UAmount u)%float) l cur + UAmount u)%float.
Proof. by rewrite fold_left_app. Qed.

Lemma FindTxOutsForAmount_loop_spec amount rest : forall seen,
  let run := FindTxOutsForAmount_loop amount rest (floatSum seen) seen in
  (exists k,
     (k < length rest)%nat
     /\ run = (seen ++ take (S k) rest,
               (floatSum (seen ++ take (S k) rest) - amount)%float, None)
     /\ (amount <=? floatSum (seen ++ take (S k) rest))%float = true
     /\ forall j, (j < k)%nat ->
          (amount <=? floatSum (seen ++ take (S j) rest))%float = false)
  \/ (run = ([], amount,
             Some "cannot create transaction from the available unspent transaction outputs")
      /\ forall j, (j < length rest)%nat ->
           (amount <=? floatSum (seen ++ take (S j) rest))%float = false).
Proof.
  induction rest as [| u rest IH]; intros seen run.
  - right. split; [reflexivity | intros j Hj; simpl in Hj; lia].
  - subst run. cbn [FindTxOutsForAmount_loop].
    assert (Hsum : (floatSum seen + UAmount u)%float = floatSum (seen ++ [u]))
      by (unfold floatSum; by rewrite fold_left_app).
    rewrite Hsum.
    destruct (amount <=? floatSum (seen ++ [u]))%float eqn:Hreached.
    + left. exists 0%nat. cbn [take length].
      split; [lia |]. split; [reflexivity |]. split; [exact Hreached | intros j Hj; lia].
    + destruct (IH (seen ++ [u])) as [(k & Hk & Hrun & Hle & Hearlier) | [Hrun Hnone]].
      * left. exists (S k). cbn [length]. split; [lia |].
        rewrite <- app_assoc in Hrun, Hle. cbn [app] in Hrun, Hle.
        split; [exact Hrun |]. split; [exact Hle |].
        intros [| j] Hj; [exact Hreached |].
        specialize (Hearlier j ltac:(lia)).
        by rewrite <- app_assoc in Hearlier.
      * right. split; [exact Hrun |].
        intros [| j] Hj; [exact Hreached |].
        cbn [length] in Hj. specialize (Hnone j ltac:(lia)).
        by rewrite <- app_assoc in Hnone.
Qed.

(** X21 ([FindTxOutsForAmount]).  The outputs are taken from the front of
    the list, one by one, until their amounts, added up in that order,
    reach the amount asked for: the result is the shortest non-empty
    prefix that does, with what its sum exceeds the amount by.  If no
    prefix does, the result is the empty list, the amount itself as the
    left-over, and the error; this is so for an empty list whatever the
    amount is. *)
Theorem FindTxOutsForAmount_spec (amount : float) (U : list UnspentTxOut) :
  ((exists k,
      (k < length U)%nat
      /\ FindTxOutsForAmount amount U
         = (take (S k) U, (floatSum (take (S k) U) - amount)%float, None)
      /\ (amount <=? floatSum (take (S k) U))%float = true
      /\ forall j, (j < k)%nat -> (amount <=? floatSum (take (S j) U))%float = false)
   \/ (FindTxOutsForAmount amount U
       = ([], amount,
          Some "cannot create transaction from the available unspent transaction outputs")
       /\ forall j, (j < length U)%nat ->
            (amount <=? floatSum (take (S j) U))%float = false))
  /\ FindTxOutsForAmount amount []
     = ([], amount,
        Some "cannot create transaction from the available unspent transaction outputs").
Proof.
  split; [| reflexivity].
  exact (FindTxOutsForAmount_loop_spec amount U []).
Qed.

Lemma FindTxOutsForAmount_prefix amount U included leftOver err :
  FindTxOutsForAmount amount U = (included, leftOver, err) ->
  (included `prefix_of` U)
  /\ (err <> None -> included = [] /\ leftOver = amount).
Proof.
  intros Hrun.
  destruct (FindTxOutsForAmount_loop_spec amount U [])
    as [(k & _ & Hk & _) | [Hnone _]]; cbn [app] in *.
  - change (FindTxOutsForAmount_loop amount U (floatSum []) []
            = (included, leftOver, err)) in Hrun.
    rewrite Hk in Hrun.
    injection Hrun as <- <- <-. split; [| done].
    exists (drop (S k) U). by rewrite take_drop.
  - change (FindTxOutsForAmount_loop amount U (floatSum []) []
            = (included, leftOver, err)) in Hrun.
    rewrite Hnone in Hrun.
    injection Hrun as <- <- <-. split; [apply prefix_nil | done].
Qed.

Lemma GetSignature_returns entropy hash key :
  is_Some (GetPublicKey key) -> is_Some (GetSignature entropy hash key).
Proof.
  unfold GetPublicKey, GetSignature.
  destruct (hexToPrivateKey key) as [pk |]; cbn [mbind option_bind];
    [| by intros [? ?]].
  intros _. by destruct (ecdsa_Sign _ _ _).
Qed.

Lemma GetPublicKey_None key :
  GetPublicKey key = None
  <-> big_SetString16 key = None
      \/ exists D,
           big_SetString16 key = Some D
           /\ (secp256k1_ScalarBaseMult (big_Bytes D) = None
               \/ exists point,
                    secp256k1_ScalarBaseMult (big_Bytes D) = Some point
                    /\ elliptic_Marshal point = None).
Proof.
  unfold GetPublicKey, hexToPrivateKey.
  destruct (big_SetString16 key) as [D |]; cbn [mbind option_bind].
  2:{ split; [by left | reflexivity]. }
  destruct (secp256k1_ScalarBaseMult (big_Bytes D)) as [point |] eqn:Hmult;
    cbn [mbind option_bind snd].
  2:{ split; [intros _; right; exists D; split; [reflexivity | by left] | reflexivity]. }
  destruct (elliptic_Marshal point) as [marshaled |] eqn:Hmarshal;
    cbn [mbind option_bind].
  - split; [discriminate |].
    intros [Hnone | (D' & [= <-] & [Hnone | (point' & Hpoint & Hnone)])];
      [discriminate Hnone | congruence | congruence].
  - split; [| reflexivity]. intros _. right. exists D. split; [reflexivity |].
    right. by exists point.
Qed.

Lemma big_SetString16_Some s :
  is_Some (big_SetString16 s)
  <-> IsHex s = true
      \/ exists digits, (s = String "-" digits \/ s = String "+" digits)
                        /\ IsHex digits = true.
Proof.
  assert (Hsign : forall c digits,
            (c = "-"%char \/ c = "+"%char) -> IsHex (String c digits) = false).
  { intros c digits [-> | ->]; reflexivity. }
  destruct s as [| c digits].
  - cbn. split; [by intros [? ?] |].
    intros [Hhex | (digits & [Heq | Heq] & _)]; discriminate.
  - destruct (decide (c = "-"%char)) as [-> | Hminus].
    { cbn [big_SetString16]. rewrite (Hsign "-"%char digits) by (by left).
      destruct (IsHex digits) eqn:Hdigits.
      - split; [intros _; right; exists digits; by split; [left |] | by eexists].
      - split; [by intros [? ?] |].
        intros [Hhex | (digits' & [[= <-] | Heq] & Hhex)]; congruence. }
    destruct (decide (c = "+"%char)) as [-> | Hplus].
    { cbn [big_SetString16]. rewrite (Hsign "+"%char digits) by (by right).
      destruct (IsHex digits) eqn:Hdigits.
      - split; [intros _; right; exists digits; by split; [right |] | by eexists].
      - split; [by intros [? ?] |].
        intros [Hhex | (digits' & [Heq | [= <-]] & Hhex)]; congruence. }
    assert (Hrun : big_SetString16 (String c digits)
                   = if IsHex (String c digits)
                     then Some (hexNumber (String c digits) 0) else None).
    { unfold big_SetString16.
      destruct c as [[] [] [] [] [] [] [] []]; try reflexivity; congruence. }
    rewrite Hrun. destruct (IsHex (String c digits)).
    + split; [by left | by eexists].
    + split; [by intros [? ?] |].
      intros [Hhex | (digits' & [[= -> _] | [= -> _]] & _)]; congruence.
Qed.

Lemma SignTxIn_returns entropy tx ix key U txIn :
  TxIns tx !! ix = Some txIn ->
  is_Some (GetPublicKey key) ->
  exists signature err,
    SignTxIn entropy tx (Z.of_nat ix) key U = Some (signature, err)
    /\ (signature = "" \/ GetSignature entropy (Id tx) key = Some signature).
Proof.
  intros Hix Hkey. unfold SignTxIn, index.
  destruct (Z.ltb_spec (Z.of_nat ix) 0) as [Hneg | _]; [lia |].
  rewrite Nat2Z.id, Hix. cbn [mbind option_bind].
  destruct (findUnspentTxOut _ _ _) as [u [e |]]; [by eexists _, _; split; [| left] |].
  destruct (GetSignature_returns entropy (Id tx) key Hkey) as [signature Hsig].
  destruct Hkey as [publicKey ->]. cbn [mbind option_bind].
  destruct (bool_decide _); cbn [negb].
  - rewrite Hsig. cbn [mbind option_bind]. eexists _, _. split; [reflexivity | by right].
  - eexists _, _. split; [reflexivity | by left].
Qed.

Lemma SignTxIn_cases (entropy : nat) (tx : Transaction) (ix : Z) (key : string)
    (U : list UnspentTxOut) :
  (SignTxIn entropy tx ix key U = None
   <-> (ix < 0 \/ Z.of_nat (length (TxIns tx)) <= ix)
       \/ exists txIn u,
            index (TxIns tx) ix = Some txIn
            /\ List.find (refersTo (TxOutId txIn) (TxOutIndex txIn)) U = Some u
            /\ GetPublicKey key = None)
  /\ (forall signature,
        SignTxIn entropy tx ix key U = Some (signature, None)
        <-> exists txIn u,
              index (TxIns tx) ix = Some txIn
              /\ List.find (refersTo (TxOutId txIn) (TxOutIndex txIn)) U = Some u
              /\ GetPublicKey key = Some (Base58Decode (UAddress u))
              /\ GetSignature entropy (Id tx) key = Some signature)
  /\ (forall signature e,
        SignTxIn entropy tx ix key U = Some (signature, Some e) -> signature = "").
Proof.
  unfold SignTxIn, index, findUnspentTxOut.
  destruct (Z.ltb_spec ix 0) as [Hneg | Hpos].
  { split; [split; [by left; left | reflexivity] |].
    split; [| discriminate].
    intros signature. split; [discriminate | intros (? & ? & ? & _); discriminate]. }
  destruct (TxIns tx !! Z.to_nat ix) as [txIn |] eqn:HtxIn; cbn [mbind option_bind].
  2:{ apply lookup_ge_None in HtxIn.
      split; [split; [left; right; lia | reflexivity] |].
      split; [| discriminate].
      intros signature. split; [discriminate | intros (? & ? & ? & _); discriminate]. }
  apply lookup_lt_Some in HtxIn as Hlt.
  destruct (List.find (refersTo (TxOutId txIn) (TxOutIndex txIn)) U) as [u |] eqn:Hfind.
  - destruct (GetPublicKey key) as [publicKey |] eqn:Hpublic; cbn [mbind option_bind].
    2:{ split; [split; [intros _; right; by exists txIn, u | reflexivity] |].
        split; [| discriminate].
        intros signature. split; [discriminate |].
        intros (? & ? & _ & _ & Hsome & _). discriminate Hsome. }
    destruct (GetSignature_returns entropy (Id tx) key) as [signed Hsigned];
      [by rewrite Hpublic |].
    case_bool_decide as Hkey; cbn [negb].
    + rewrite Hsigned. cbn [mbind option_bind].
      split; [split; [discriminate |] |].
      { intros [? | (? & ? & _ & _ & Hnone)]; [lia | discriminate Hnone]. }
      split.
      * intros signature. split.
        -- intros [= <-]. exists txIn, u. by rewrite Hkey.
        -- intros (txIn' & u' & [= <-] & Hu & _ & Hsig). by injection Hsig as ->.
      * intros signature e. discriminate.
    + split; [split; [discriminate |] |].
      { intros [? | (? & ? & _ & _ & Hnone)]; [lia | discriminate Hnone]. }
      split.
      * intros signature. split; [discriminate |].
        intros (txIn' & u' & [= <-] & Hu & Hkey' & _).
        rewrite Hfind in Hu. injection Hu as <-. congruence.
      * by intros signature e [= <- _].
  - split; [split; [discriminate |] |].
    { intros [? | (txIn' & ? & [= <-] & Hu & _)]; [lia | congruence]. }
    split.
    + intros signature. split; [discriminate |].
      intros (txIn' & u' & [= <-] & Hu & _). rewrite Hfind in Hu. discriminate Hu.
    + by intros signature e [= <- _].
Qed.

(** X28 ([SignTxIn]).  [SignTxIn] panics exactly when the index is out of
    range, or the input names an unspent output and [utils.GetPublicKey]
    panics on the private key.  It returns a signature without an error
    exactly when the input names an unspent output whose address decodes
    to the public key of the private key given, and the signature is then
    one of the transaction id under that key; with an error the signature
    is empty. *)
Theorem SignTxIn_spec (entropy : nat) (tx : Transaction) (ix : Z) (key : string)
    (U : list UnspentTxOut) :
  (SignTxIn entropy tx ix key U = None
   <-> (ix < 0 \/ Z.of_nat (length (TxIns tx)) <= ix)
       \/ exists txIn u,
            index (TxIns tx) ix = Some txIn
            /\ List.find (refersTo (TxOutId txIn) (TxOutIndex txIn)) U = Some u
            /\ GetPublicKey key = None)
  /\ (forall signature,
        SignTxIn entropy tx ix key U = Some (signature, None)
        <-> exists txIn u,
              index (TxIns tx) ix = Some txIn
              /\ List.find (refersTo (TxOutId txIn) (TxOutIndex txIn)) U = Some u
              /\ GetPublicKey key = Some (Base58Decode (UAddress u))
              /\ GetSignature entropy (Id tx) key = Some signature)
  /\ (forall signature e,
        SignTxIn entropy tx ix key U = Some (signature, Some e) -> signature = "").
Proof. apply SignTxIn_cases. Qed.

(** X30 ([GetPublicKey], [hexToPrivateKey], [GetSignature],
    [GetBase58Address]).  [GetPublicKey] panics exactly when the key string
    is not a number in base 16 as [SetString] reads it, so that [D] is
    nil, or [ScalarBaseMult] or [elliptic.Marshal] panics.  The strings
    that [SetString] reads are the non-empty strings of hex digits, with a
    sign in front or without.  Where [GetPublicKey] returns, so does
    [GetSignature]; and [GetBase58Address] returns exactly when
    [GetPublicKey] returns on the content of the key file. *)
Theorem GetPublicKey_spec (key : string) :
  (GetPublicKey key = None
   <-> big_SetString16 key = None
       \/ exists D,
            big_SetString16 key = Some D
            /\ (secp256k1_ScalarBaseMult (big_Bytes D) = None
                \/ exists point,
                     secp256k1_ScalarBaseMult (big_Bytes D) = Some point
                     /\ elliptic_Marshal point = None))
  /\ (is_Some (big_SetString16 key)
      <-> IsHex key = true
          \/ exists digits, (key = String "-" digits \/ key = String "+" digits)
                            /\ IsHex digits = true)
  /\ (forall entropy hash,
        is_Some (GetPublicKey key) -> is_Some (GetSignature entropy hash key))
  /\ (GetBase58Address = None <-> GetPublicKey GetPrivateFromWallet = None).
Proof.
  split; [apply GetPublicKey_None |]. split; [apply big_SetString16_Some |].
  split; [intros entropy hash; apply GetSignature_returns |].
  unfold GetBase58Address.
  destruct (GetPublicKey GetPrivateFromWallet); cbn [mbind option_bind]; done.
Qed.

Lemma signTxIns_spec n : forall ix tx key U,
  (ix + n)%nat = length (TxIns tx) ->
  key = GetPrivateFromWallet ->
  is_Some (GetPublicKey key) ->
  Forall (signedOrEmpty (Id tx)) (take ix (TxIns tx)) ->
  exists tx',
    signTxIns n ix tx key U = Some tx'
    /\ Id tx' = Id tx
    /\ TxOuts tx' = TxOuts tx
    /\ txInKey <$> TxIns tx' = txInKey <$> TxIns tx
    /\ Forall (signedOrEmpty (Id tx)) (TxIns tx').
Proof.
  induction n as [| n IH]; intros ix tx key U Hlen Hkey Hpublic Hsigned.
  - exists tx. split; [reflexivity |]. repeat (split; [reflexivity |]).
    rewrite take_ge in Hsigned by lia. exact Hsigned.
  - cbn [signTxIns].
    destruct (lookup_lt_is_Some_2 (TxIns tx) ix ltac:(lia)) as [txIn HtxIn].
    destruct (SignTxIn_returns ix tx ix key U txIn HtxIn Hpublic)
      as (signature & err & -> & Hsig).
    cbn [mbind option_bind].
    set (signed := mkTxIn (TxOutId txIn) (TxOutIndex txIn) signature).
    set (txIns := alter _ ix (TxIns tx)).
    assert (HtxIns : txIns = <[ix := signed]> (TxIns tx)).
    { subst txIns signed. apply list_eq. intros j.
      destruct (decide (j = ix)) as [-> | Hne].
      - rewrite list_lookup_alter_eq, HtxIn, list_lookup_insert_eq. 1: done.
        by apply lookup_lt_Some in HtxIn.
      - by rewrite list_lookup_alter_ne, list_lookup_insert_ne. }
    destruct (IH (S ix) (mkTransaction (Id tx) txIns (TxOuts tx)) key U)
      as (tx' & Hrun & Hid & Houts & Hkeys & Hall).
    + cbn [TxIns]. rewrite HtxIns, length_insert. lia.
    + exact Hkey.
    + exact Hpublic.
    + cbn [TxIns Id]. rewrite HtxIns.
      rewrite (take_S_r _ _ signed)
        by (apply list_lookup_insert_eq; by apply lookup_lt_Some in HtxIn).
      rewrite take_insert_ge by lia. apply Forall_app. split; [exact Hsigned |].
      apply Forall_singleton. unfold signedOrEmpty. subst signed. cbn [Signature].
      destruct Hsig as [-> | Hsig]; [by left | right; exists ix; by rewrite <- Hkey].
    + exists tx'. split; [exact Hrun |]. cbn [Id TxOuts TxIns] in *.
      split; [exact Hid |]. split; [exact Houts |]. split; [| exact Hall].
      rewrite Hkeys, HtxIns, list_fmap_insert. apply list_insert_id.
      rewrite list_lookup_fmap, HtxIn. reflexivity.
Qed.

Lemma GetBase58Address_Some myAddress :
  GetBase58Address = Some myAddress -> is_Some (GetPublicKey GetPrivateFromWallet).
Proof.
  unfold GetBase58Address.
  destruct (GetPublicKey GetPrivateFromWallet); [by eexists | discriminate].
Qed.

Lemma CreateTransaction_None (base58Address : string) (amount : float)
    (U : list UnspentTxOut) (pool : list Transaction) :
  GetBase58Address = None -> CreateTransaction base58Address amount U pool = None.
Proof. unfold CreateTransaction. by intros ->. Qed.

Lemma CreateTransaction_outcome (base58Address : string) (amount : float)
    (U : list UnspentTxOut) (pool : list Transaction) (myAddress : string) :
  GetBase58Address = Some myAddress ->
  exists tx included leftOverAmount err,
    CreateTransaction base58Address amount U pool = Some tx
    /\ FindTxOutsForAmount amount (spendable myAddress U pool)
       = (included, leftOverAmount, err)
    /\ txInKey <$> TxIns tx = utxoKey <$> included
    /\ TxOuts tx
       = (if PrimFloat.eqb leftOverAmount 0 then [mkTxOut base58Address amount]
          else [mkTxOut base58Address amount; mkTxOut myAddress leftOverAmount])
    /\ Id tx = GetTransactionId tx
    /\ isValidTxForPool tx pool = true
    /\ Forall (signedOrEmpty (Id tx)) (TxIns tx)
    /\ (err <> None -> TxIns tx = [] /\ leftOverAmount = amount).
Proof.
  intros Haddress. pose proof (GetBase58Address_Some _ Haddress) as Hpublic.
  unfold CreateTransaction. rewrite Haddress. cbn [mbind option_bind].
  rewrite spendable_eq.
  destruct (FindTxOutsForAmount amount (spendable myAddress U pool))
    as [[included leftOverAmount] err] eqn:Hfind.
  rewrite fold_left_snoc. cbn [app TxIns TxOuts].
  set (tx0 := mkTransaction _ (toUnsignedTxIn <$> included) _).
  destruct (signTxIns_spec (length (toUnsignedTxIn <$> included)) 0 tx0
              GetPrivateFromWallet U)
    as (tx & Hrun & Hid & Houts & Hkeys & Hall);
    [reflexivity | reflexivity | exact Hpublic | apply Forall_nil_2 |].
  exists tx, included, leftOverAmount, err.
  subst tx0. cbn [Id TxIns TxOuts] in *.
  assert (Hins : txInKey <$> TxIns tx = utxoKey <$> included).
  { rewrite Hkeys, <- list_fmap_compose. by apply list_fmap_ext. }
  split; [exact Hrun |]. split; [reflexivity |]. split; [exact Hins |].
  split; [exact Houts |]. split; [| split; [| split]].
  - rewrite Hid. unfold GetTransactionId. cbn [TxIns TxOuts]. rewrite Houts.
    f_equal. f_equal. symmetry. by apply TxInCollection_Content_keys.
  - apply isValidTxForPool_true. intros t Ht (a & b & Ha & Hb & Hkey).
    assert (Hb' : txInKey b ∈ utxoKey <$> included)
      by (rewrite <- Hins; by apply list_elem_of_fmap_2).
    apply list_elem_of_fmap in Hb' as (u & Hu & Hin).
    destruct (FindTxOutsForAmount_prefix _ _ _ _ _ Hfind) as [[rest Hprefix] _].
    assert (Hspendable : u ∈ spendable myAddress U pool)
      by (rewrite Hprefix; apply elem_of_app; by left).
    unfold spendable in Hspendable.
    apply list_elem_of_filter in Hspendable as [[_ Hfree] _].
    apply Hfree. rewrite <- Hu, <- Hkey. apply list_elem_of_fmap_2.
    apply list_elem_of_bind. by exists t.
  - rewrite Hid. exact Hall.
  - intros Herr.
    destruct (FindTxOutsForAmount_prefix _ _ _ _ _ Hfind) as [_ Hnone].
    destruct (Hnone Herr) as [-> ->]. split; [| reflexivity].
    destruct (TxIns tx); [reflexivity | discriminate Hins].
Qed.

(** X22 ([CreateTransaction], [filterTxPoolTxs], [FindUnspentTxOuts],
    [CreateTxOuts], [SignTxIn]).  [CreateTransaction] panics exactly when
    [GetBase58Address] does, that is, when [utils.GetPublicKey] panics on
    the content of the key file.  Otherwise the inputs of its transaction
    name, in order, the outputs that [FindTxOutsForAmount] picks among the
    wallet's unspent outputs that no input of the pool names, so the
    transaction never conflicts with the pool; its outputs pay the amount
    to the target and, unless it equals zero, the left-over to the wallet;
    its id is the id of its content; every signature is either empty or a
    signature of that id under the wallet's key.  The error of
    [FindTxOutsForAmount] is dropped: with too little money the
    transaction has no input and its left-over is the amount itself. *)
Theorem CreateTransaction_spec (base58Address : string) (amount : float)
    (U : list UnspentTxOut) (pool : list Transaction) :
  (CreateTransaction base58Address amount U pool = None
   <-> GetPublicKey GetPrivateFromWallet = None)
  /\ (forall myAddress,
        GetBase58Address = Some myAddress ->
        exists tx included leftOverAmount err,
          CreateTransaction base58Address amount U pool = Some tx
          /\ FindTxOutsForAmount amount (spendable myAddress U pool)
             = (included, leftOverAmount, err)
          /\ txInKey <$> TxIns tx = utxoKey <$> included
          /\ TxOuts tx
             = (if PrimFloat.eqb leftOverAmount 0 then [mkTxOut base58Address amount]
                else [mkTxOut base58Address amount; mkTxOut myAddress leftOverAmount])
          /\ Id tx = GetTransactionId tx
          /\ isValidTxForPool tx pool = true
          /\ Forall (signedOrEmpty (Id tx)) (TxIns tx)
          /\ (err <> None -> TxIns tx = [] /\ leftOverAmount = amount)).
Proof.
  split; [| apply CreateTransaction_outcome].
  destruct GetBase58Address as [myAddress |] eqn:Haddress.
  - destruct (CreateTransaction_outcome base58Address amount U pool myAddress Haddress)
      as (tx & _ & _ & _ & -> & _).
    destruct (GetBase58Address_Some _ Haddress) as [publicKey ->]. done.
  - rewrite (CreateTransaction_None _ _ _ _ Haddress).
    unfold GetBase58Address in Haddress.
    destruct (GetPublicKey GetPrivateFromWallet); [discriminate Haddress | done].
Qed.

End WalletFacts.

(** ** Sending and mining from the wallet *)

Section SendFacts.
Context `{GoLib} `{WalletLib}.

(** X23 ([SendTransaction]).  An amount that is zero or negative is
    turned down before anything is done.  Otherwise the call panics when
    [utils.GetPublicKey] panics on the content of the key file.  When it
    returns, the transaction it returns is the one that
    [CreateTransaction] builds; it was offered to the pool, which can
    refuse it only because it does not pass [ValidateTransaction], never
    because of a conflict with the pool; the chain and the unspent
    outputs are left alone, and the pool grows by exactly that
    transaction or stays as it is. *)
Theorem SendTransaction_spec (st : State) (base58Address : string) (amount : float) :
  ((amount <=? 0)%float = true ->
   SendTransaction st base58Address amount
   = Some (st, Transaction_zero, Some "invalid amount"))
  /\ ((amount <=? 0)%float = false ->
      GetPublicKey GetPrivateFromWallet = None ->
      SendTransaction st base58Address amount = None)
  /\ (forall st' tx err,
        (amount <=? 0)%float = false ->
        SendTransaction st base58Address amount = Some (st', tx, err) ->
        CreateTransaction base58Address amount (unspentTxOuts st) (txPool st) = Some tx
        /\ blockchain st' = blockchain st
        /\ unspentTxOuts st' = unspentTxOuts st
        /\ cumulativeBlocksDifficulty st' = cumulativeBlocksDifficulty st
        /\ (err = None <-> ValidateTransaction tx (unspentTxOuts st) = true)
        /\ txPool st' = (if ValidateTransaction tx (unspentTxOuts st)
                         then txPool st ++ [tx] else txPool st)
        /\ (nodeReachable st -> nodeReachable st')).
Proof.
  unfold SendTransaction. split; [by intros -> |]. split.
  { intros -> Hnone. rewrite CreateTransaction_None; [reflexivity |].
    unfold GetBase58Address. by rewrite Hnone. }
  intros st' tx err -> Hrun.
  destruct (CreateTransaction base58Address amount (unspentTxOuts st) (txPool st))
    as [tx0 |] eqn:Hcreate; [| discriminate Hrun].
  cbn [mbind option_bind] in Hrun.
  destruct GetBase58Address as [myAddress |] eqn:Haddress.
  2:{ rewrite (CreateTransaction_None _ _ _ _ Haddress) in Hcreate. discriminate Hcreate. }
  destruct (CreateTransaction_outcome base58Address amount (unspentTxOuts st) (txPool st)
              myAddress Haddress)
    as (tx1 & included & leftOverAmount & e & Hcreate' & _ & _ & _ & _ & Hfree & _).
  rewrite Hcreate in Hcreate'. injection Hcreate' as <-.
  pose proof (node_receive st tx0) as Hreach.
  unfold HandleReceivedTransaction in Hreach.
  unfold AddToTransactionPool in *. rewrite Hfree in *.
  destruct (ValidateTransaction tx0 (unspentTxOuts st)) eqn:Hvalid; cbn [negb fst] in *;
    injection Hrun as <- <- <-; (split; [reflexivity |]);
    unfold setPool; cbn [blockchain unspentTxOuts cumulativeBlocksDifficulty txPool];
    rewrite Hvalid; repeat (split; [done |]); exact Hreach.
Qed.

Lemma getDifficulty_tip (st : State) (latest : Block) :
  nodeReachable st ->
  Z.of_nat (length (blockchain st)) < 2 ^ 63 ->
  last (blockchain st) = Some latest ->
  exists difficulty, getDifficulty (blockchain st) latest = Some difficulty.
Proof.
  intros Hreach Hlen Hlast.
  pose proof (nodeReachable_tip st latest Hreach Hlast Hlen) as Hindex.
  assert (Hpos : (0 < length (blockchain st))%nat).
  { destruct (blockchain st); [discriminate Hlast | simpl; lia]. }
  unfold getDifficulty.
  destruct (_ && _); [| by eexists].
  unfold getAdjustedDifficulty. rewrite Hindex.
  rewrite (int_wrap_small (Z.of_nat (length (blockchain st)) - 1 + 1)) by lia.
  destruct (Z.ltb_spec (Z.of_nat (length (blockchain st)) - 1 + 1)
              difficultyAdjustmentInterval) as [Hshort | Hlong]; [by eexists |].
  unfold difficultyAdjustmentInterval in *.
  rewrite int_wrap_small by lia. unfold index.
  destruct (Z.ltb_spec (Z.of_nat (length (blockchain st)) - 1 + 1 - 10) 0); [lia |].
  destruct (lookup_lt_is_Some_2 (blockchain st)
              (Z.to_nat (Z.of_nat (length (blockchain st)) - 1 + 1 - 10)) ltac:(lia))
    as [prevAdjustmentBlock ->].
  cbn [mbind option_bind].
  repeat (match goal with |- context [if ?c then _ else _] => destruct c end);
    by eexists.
Qed.

Lemma proofOfWork_panics fuel : forall f,
  proofOfWork fuel f = None <-> (0 < fuel)%nat /\ int_of_float (Difficulty f) < 0.
Proof.
  induction fuel as [| fuel IH]; intros f.
  - split; [discriminate | intros [Hfuel _]; lia].
  - cbn [proofOfWork]. unfold hashMatchesDifficulty, strings_Repeat.
    destruct (Z.ltb_spec (int_of_float (Difficulty f)) 0) as [Hneg | Hpos];
      cbn [mbind option_bind].
    + split; [intros _; split; [lia | exact Hneg] | reflexivity].
    + destruct (String.prefix _ _).
      * split; [discriminate | intros [_ Hneg]; lia].
      * rewrite IH. cbn [Difficulty]. split; intros [_ Hneg]; lia.
Qed.

End SendFacts.

Section MiningTotal.
Context `{GoLib}.

(** X24 ([produceBlock], [getDifficulty]).  On a node in a state it can
    reach, with fewer than [2^63] blocks, mining finds the tip and the
    difficulty to mine at without a panic.  The proof-of-work loop then
    panics exactly when that difficulty converts to a negative integer,
    and with it [produceBlock]. *)
Theorem produceBlock_proofOfWork_panics (fuel : nat) (nowMine nowAdd : Z) (st : State)
    (transactions : list Transaction) :
  nodeReachable st ->
  Z.of_nat (length (blockchain st)) < 2 ^ 63 ->
  (0 < fuel)%nat ->
  exists latest difficulty,
    last (blockchain st) = Some latest
    /\ getDifficulty (blockchain st) latest = Some difficulty
    /\ (proofOfWork fuel
          (mkBlockFields (int_wrap (Index (Fields latest) + 1)) (Hash latest)
             (uint64_wrap nowMine) transactions difficulty 0) = None
        <-> int_of_float difficulty < 0)
    /\ (int_of_float difficulty < 0 ->
        produceBlock fuel nowMine nowAdd st transactions = None).
Proof.
  intros Hreach Hlen Hfuel.
  destruct (nodeReachable_invariant st Hreach) as ((first & latest & _ & _ & Hlast) & _).
  unfold GetLatestBlock in Hlast.
  destruct (getDifficulty_tip st latest Hreach Hlen Hlast) as [difficulty Hdiff].
  exists latest, difficulty. split; [exact Hlast |]. split; [exact Hdiff |].
  assert (Hpow : proofOfWork fuel
                   (mkBlockFields (int_wrap (Index (Fields latest) + 1)) (Hash latest)
                      (uint64_wrap nowMine) transactions difficulty 0) = None
                 <-> int_of_float difficulty < 0).
  { rewrite proofOfWork_panics. cbn [Difficulty]. split; [by intros [_ ?] | by split]. }
  split; [exact Hpow |]. intros Hneg.
  unfold produceBlock. rewrite Hlast. cbn [mbind option_bind].
  rewrite Hdiff. cbn [mbind option_bind].
  by rewrite (proj2 Hpow Hneg).
Qed.

End MiningTotal.

Section MineFromWallet.
Context `{GoLib} `{WalletLib}.

Lemma NoDup_mapKey (txIns : list TxIn) :
  NoDup (txInMapKey <$> txIns) -> NoDup (txInKey <$> txIns).
Proof.
  intros Hnodup.
  apply (NoDup_fmap_1 (fun key : string * Z => key.1 +:+ fmt_d key.2)).
  rewrite <- list_fmap_compose. exact Hnodup.
Qed.

Lemma GetCoinbaseTransaction_coinbase (address : string) (blockIndex : Z) :
  validateCoinbaseTx (GetCoinbaseTransaction address blockIndex) blockIndex = true.
Proof.
  unfold validateCoinbaseTx, GetCoinbaseTransaction. cbn [TxIns TxOuts Id TxOutIndex Amount].
  rewrite (GetTransactionId_ins_outs _ ""), bool_decide_eq_true_2 by reflexivity.
  cbn [negb]. rewrite bool_decide_eq_true_2 by reflexivity. reflexivity.
Qed.

(** X25 ([ProduceNextBlock]).  The block that [ProduceNextBlock] returns
    without an error holds the coinbase transaction of the wallet for the
    block's own index, followed by the whole pool, and was appended to the
    chain; so every transaction of the pool passed [ValidateTransaction],
    and no input reference occurs twice among them.  With an error nothing
    has changed; this is always so when some transaction of the pool names
    the same output twice. *)
Theorem ProduceNextBlock_spec (fuel : nat) (nowMine nowAdd : Z) (st st' : State)
    (b : Block) (err : option error) :
  ProduceNextBlock fuel nowMine nowAdd st = Some (Some (st', b, err)) ->
  exists myAddress,
    GetBase58Address = Some myAddress
    /\ (err = None ->
        Transactions (Fields b)
        = GetCoinbaseTransaction myAddress (Index (Fields b)) :: txPool st
        /\ blockchain st' = blockchain st ++ [b]
        /\ validateCoinbaseTx (GetCoinbaseTransaction myAddress (Index (Fields b)))
             (Index (Fields b)) = true
        /\ (forall t, t ∈ txPool st -> ValidateTransaction t (unspentTxOuts st) = true)
        /\ NoDup (txInKey <$> (txPool st ≫= TxIns))
        /\ (nodeReachable st -> nodeReachable st'))
    /\ (err <> None -> st' = st /\ b = Block_zero)
    /\ ((exists t, t ∈ txPool st /\ ~ NoDup (txInKey <$> TxIns t)) -> err <> None).
Proof.
  unfold ProduceNextBlock, GetLatestBlock. intros Hrun.
  destruct GetBase58Address as [myAddress |]; [| discriminate Hrun].
  cbn [mbind option_bind] in Hrun.
  exists myAddress. split; [reflexivity |].
  destruct (last (blockchain st)) as [tip |] eqn:Htip; [| discriminate Hrun].
  cbn [mbind option_bind] in Hrun.
  apply produceBlock_outcome in Hrun
    as (latest & difficulty & mined & Hlast & _ & Hindex & _ & _ & Hdata & _ & _ & _
        & Hok & Hfail).
  rewrite Htip in Hlast. injection Hlast as <-.
  rewrite <- Hindex in Hdata. cbn [app] in Hdata.
  assert (Hgood : err = None ->
            b = mined
            /\ blockchain st' = blockchain st ++ [b]
            /\ NoDup (txInKey <$> (txPool st ≫= TxIns))
            /\ (forall t, t ∈ txPool st -> ValidateTransaction t (unspentTxOuts st) = true)
            /\ (nodeReachable st -> nodeReachable st')).
  { intros Herr. destruct (Hok Herr) as (-> & _ & Htxs & Hchain & _ & _ & Hreach).
    split; [reflexivity |]. split; [exact Hchain |]. split; [| split; [| exact Hreach]].
    - rewrite <- Hindex in Htxs. cbn [app] in Htxs.
      apply validateBlockTransactions_true in Htxs
        as (coinbaseTx & others & [= <- <-] & _ & Hnodup & _).
      apply NoDup_mapKey in Hnodup. rewrite bind_cons, fmap_app in Hnodup.
      by apply NoDup_app in Hnodup as (_ & _ & Hnodup).
    - rewrite <- Hindex in Htxs. cbn [app] in Htxs.
      apply validateBlockTransactions_true in Htxs
        as (coinbaseTx & others & [= <- <-] & _ & _ & Hvalid).
      exact Hvalid. }
  split; [| split].
  - intros Herr. destruct (Hgood Herr) as (-> & Hchain & Hnodup & Hvalid & Hreach).
    split; [exact Hdata |]. split; [exact Hchain |].
    split; [apply GetCoinbaseTransaction_coinbase |]. by repeat split.
  - intros Herr. by destruct (Hfail Herr) as (-> & -> & _).
  - intros (t & Ht & Hdup) ->.
    destruct (Hgood eq_refl) as (_ & _ & Hnodup & _).
    apply Hdup. apply list_elem_of_split in Ht as (l1 & l2 & Hpool).
    rewrite Hpool, bind_app, bind_cons, !fmap_app in Hnodup.
    apply NoDup_app in Hnodup as (_ & _ & Hnodup).
    by apply NoDup_app in Hnodup as (Hnodup & _).
Qed.

(** X26 ([SendCoinsToAddress]).  An amount that is zero or negative and
    then an address that [IsValidBase58Address] turns down are refused
    before anything is done.  Otherwise the block that is mined holds the
    coinbase transaction of the wallet for the block's own index and the
    transaction that [CreateTransaction] builds, and nothing of the pool;
    when no error is returned it was appended, so that transaction passed
    [ValidateTransaction]; with an error nothing has changed. *)
Theorem SendCoinsToAddress_spec (fuel : nat) (nowMine nowAdd : Z) (st : State)
    (base58Address : string) (amount : float) :
  ((amount <=? 0)%float = true ->
   SendCoinsToAddress fuel nowMine nowAdd st base58Address amount
   = Some (Some (st, Block_zero, Some "invalid amount")))
  /\ ((amount <=? 0)%float = false -> IsValidBase58Address base58Address = false ->
      SendCoinsToAddress fuel nowMine nowAdd st base58Address amount
      = Some (Some (st, Block_zero, Some "invalid address")))
  /\ (forall st' b err,
        SendCoinsToAddress fuel nowMine nowAdd st base58Address amount
        = Some (Some (st', b, err)) ->
        (err = None ->
         (amount <=? 0)%float = false
         /\ IsValidBase58Address base58Address = true
         /\ (exists myAddress tx,
               GetBase58Address = Some myAddress
               /\ CreateTransaction base58Address amount (unspentTxOuts st) (txPool st)
                  = Some tx
               /\ Transactions (Fields b)
                  = [GetCoinbaseTransaction myAddress (Index (Fields b)); tx]
               /\ ValidateTransaction tx (unspentTxOuts st) = true)
         /\ blockchain st' = blockchain st ++ [b]
         /\ (nodeReachable st -> nodeReachable st'))
        /\ (err <> None -> st' = st /\ b = Block_zero)).
Proof.
  unfold SendCoinsToAddress, GetLatestBlock.
  split; [by intros -> |]. split; [by intros -> -> |].
  intros st' b err Hrun.
  destruct (amount <=? 0)%float.
  { injection Hrun as <- <- <-. split; [discriminate | done]. }
  destruct (IsValidBase58Address base58Address); cbn [negb] in Hrun.
  2:{ injection Hrun as <- <- <-. split; [discriminate | done]. }
  destruct GetBase58Address as [myAddress |] eqn:Haddress; [| discriminate Hrun].
  cbn [mbind option_bind] in Hrun.
  destruct (last (blockchain st)) as [tip |] eqn:Htip; [| discriminate Hrun].
  cbn [mbind option_bind] in Hrun.
  destruct (CreateTransaction_outcome base58Address amount (unspentTxOuts st) (txPool st)
              myAddress Haddress)
    as (tx & _ & _ & _ & Hcreate & _).
  rewrite Hcreate in Hrun. cbn [mbind option_bind] in Hrun.
  apply produceBlock_outcome in Hrun
    as (latest & difficulty & mined & Hlast & _ & Hindex & _ & _ & Hdata & _ & _ & _
        & Hok & Hfail).
  rewrite Htip in Hlast. injection Hlast as <-.
  rewrite <- Hindex in Hdata.
  split.
  - intros Herr. destruct (Hok Herr) as (-> & _ & Htxs & Hchain & _ & _ & Hreach).
    split; [reflexivity |]. split; [reflexivity |].
    split; [| split; [exact Hchain | exact Hreach]].
    exists myAddress, tx. split; [reflexivity |].
    split; [exact Hcreate |]. split; [exact Hdata |].
    apply validateBlockTransactions_true in Htxs
      as (coinbaseTx & others & [= <- <-] & _ & _ & Hvalid).
    apply Hvalid. apply list_elem_of_here.
  - intros Herr. by destruct (Hfail Herr) as (-> & -> & _).
Qed.

End MineFromWallet.

Lemma GetPublicKey_spec_witness :
  @GetPublicKey RefWallet58 "1"
  = Some "0479be667ef9dcbbac55a06295ce870b07029bfcdb2dce28d959f2815b16f81798483ada7726a3c4655da4fbfc0e1108a8fd17b448a68554199c47d08ffb10d4b8"
  /\ @GetPublicKey RefWallet58 "zz" = None
  /\ @GetPublicKey RefWalletLineFeed (@GetPrivateFromWallet RefWalletLineFeed) = None
  /\ @GetBase58Address RefCrypto RefWalletLineFeed = None.
Proof.
  split; [vm_compute; reflexivity |].
  split; [| split].
  - apply (proj1 (@GetPublicKey_spec RefCrypto RefWallet58 "zz")).
    left. vm_compute. reflexivity.
  - apply (proj1 (@GetPublicKey_spec RefCrypto RefWalletLineFeed
                    (@GetPrivateFromWallet RefWalletLineFeed))).
    left. vm_compute. reflexivity.
  - apply (proj2 (proj2 (proj2 (@GetPublicKey_spec RefCrypto RefWalletLineFeed "1")))).
    vm_compute. reflexivity.
Defined.

Lemma SignTxIn_spec_witness :
  @SignTxIn RefCrypto RefWallet58 0 tx_spend 0 "1" walletUnspent
  = Some (walletSignature, None)
  /\ @SignTxIn RefCrypto RefWallet58 0 tx_spend 0 "zz" walletUnspent = None
  /\ @SignTxIn RefCrypto RefWallet58 0 tx_spend 0 "2" walletUnspent
     = Some ("", Some "trying to sign an input with private key that does not match the address that is referenced in txIn").
Proof.
  destruct (@SignTxIn_spec RefCrypto RefWallet58 0 tx_spend 0 "1" walletUnspent)
    as (_ & Hsigned & _).
  destruct (@SignTxIn_spec RefCrypto RefWallet58 0 tx_spend 0 "zz" walletUnspent)
    as (Hpanic & _).
  split; [| split; [| vm_compute; reflexivity]].
  - apply Hsigned. eexists _, _.
    split; [vm_compute; reflexivity |]. split; [vm_compute; reflexivity |].
    split; vm_compute; reflexivity.
  - apply Hpanic. right. eexists _, _.
    split; [vm_compute; reflexivity |]. split; vm_compute; reflexivity.
Defined.

Lemma CreateTransaction_spec_witness :
  @GetBase58Address RefCrypto RefWallet58 = Some walletAddress
  /\ @CreateTransaction RefCrypto RefWallet58 "a" 50 walletUnspent []
     = Some (withId [mkTxIn (Id GenesisTransaction) 0 walletSignature]
                    [mkTxOut "a" 50%float])
  /\ @CreateTransaction RefCrypto RefWalletLineFeed "a" 50 walletUnspent [] = None.
Proof.
  split; [vm_compute; reflexivity |]. split; [vm_compute; reflexivity |].
  apply (proj1 (@CreateTransaction_spec RefCrypto RefWalletLineFeed "a" 50
                  walletUnspent [])).
  vm_compute. reflexivity.
Defined.

Lemma SendTransaction_spec_witness :
  @SendTransaction RefCrypto RefWalletLineFeed (@initialState RefCrypto) "a" 50 = None
  /\ @SendTransaction RefCrypto RefWallet58 stateAfterWalletBlock1 "a" 30
     = Some (setPool stateAfterWalletBlock1 [tx_sent], tx_sent, None)
  /\ (exists txIn, TxIns tx_sent = [txIn] /\ Signature txIn <> "")
  /\ TxOuts tx_sent = [mkTxOut "a" 30%float; mkTxOut walletAddress 20%float]
  /\ @ValidateTransaction RefCrypto tx_sent (unspentTxOuts stateAfterWalletBlock1) = true.
Proof.
  assert (Hrun : @SendTransaction RefCrypto RefWallet58 stateAfterWalletBlock1 "a" 30
                 = Some (setPool stateAfterWalletBlock1 [tx_sent], tx_sent, None))
    by (vm_compute; reflexivity).
  split.
  { apply (proj1 (proj2 (@SendTransaction_spec RefCrypto RefWalletLineFeed
                           (@initialState RefCrypto) "a" 50))).
    - vm_compute. reflexivity.
    - vm_compute. reflexivity. }
  split; [exact Hrun |].
  split; [eexists; split; [reflexivity | discriminate] |].
  split; [reflexivity |].
  destruct (proj2 (proj2 (@SendTransaction_spec RefCrypto RefWallet58
                            stateAfterWalletBlock1 "a" 30)) _ _ _
              ltac:(vm_compute; reflexivity) Hrun)
    as (_ & _ & _ & _ & Hvalid & _).
  apply Hvalid. reflexivity.
Defined.

Lemma SendCoinsToAddress_spec_witness :
  exists st' b myAddress tx,
    @SendCoinsToAddress RefCrypto RefWallet58 1 1010 1020 stateAfterWalletBlock1
      spenderAddress 30 = Some (Some (st', b, None))
    /\ @GetBase58Address RefCrypto RefWallet58 = Some myAddress
    /\ Transactions (Fields b) = [GetCoinbaseTransaction myAddress 2; tx]
    /\ (exists txIn, TxIns tx = [txIn] /\ Signature txIn <> "")
    /\ @ValidateTransaction RefCrypto tx (unspentTxOuts stateAfterWalletBlock1) = true
    /\ blockchain st' = blockchain stateAfterWalletBlock1 ++ [b].
Proof.
  destruct (@SendCoinsToAddress RefCrypto RefWallet58 1 1010 1020 stateAfterWalletBlock1
              spenderAddress 30) as [[[[st' b] err] |] |] eqn:Hrun;
    [| vm_compute in Hrun; discriminate Hrun | vm_compute in Hrun; discriminate Hrun].
  assert (Herr : err = None).
  { vm_compute in Hrun. by injection Hrun as _ _ <-. }
  subst err.
  destruct (proj2 (proj2 (@SendCoinsToAddress_spec RefCrypto RefWallet58 1 1010 1020
                            stateAfterWalletBlock1 spenderAddress 30)) st' b None Hrun)
    as (Hok & _).
  destruct (Hok eq_refl) as (_ & _ & (myAddress & tx & Haddress & Hcreate & Hdata & Hvalid)
                             & Hchain & _).
  exists st', b, myAddress, tx. split; [reflexivity |]. split; [exact Haddress |].
  assert (Hindex : Index (Fields b) = 2).
  { vm_compute in Hrun. injection Hrun as _ <-. reflexivity. }
  rewrite Hindex in Hdata. split; [exact Hdata |].
  split; [| split; [exact Hvalid | exact Hchain]].
  vm_compute in Hcreate. injection Hcreate as <-.
  eexists. split; [reflexivity | discriminate].
Defined.

Lemma produceBlock_proofOfWork_panics_witness :
  exists latest difficulty,
    last (blockchain (@initialState RefLib)) = Some latest
    /\ getDifficulty (blockchain (@initialState RefLib)) latest = Some difficulty
    /\ (@proofOfWork RefLib 1
          (mkBlockFields (int_wrap (Index (Fields latest) + 1)) (Hash latest)
             (uint64_wrap 1000) [GetCoinbaseTransaction "miner" 1] difficulty 0) = None
        <-> @int_of_float RefLib difficulty < 0)
    /\ (@int_of_float RefLib difficulty < 0 ->
        @produceBlock RefLib 1 1000 1020 (@initialState RefLib)
          [GetCoinbaseTransaction "miner" 1] = None).
Proof.
  apply (@produceBlock_proofOfWork_panics RefLib 1 1000 1020 (@initialState RefLib)
           [GetCoinbaseTransaction "miner" 1]).
  - apply node_start.
  - vm_compute. reflexivity.
  - lia.
Defined.

Lemma ProduceNextBlock_spec_witness :
  @ProduceNextBlock RefLib RefWallet 1 1000 1020 (@initialState RefLib)
  = Some (Some (stateAfterBlock1, block1_miner, None))
  /\ @GetBase58Address RefLib RefWallet = Some "miner"
  /\ Transactions (Fields block1_miner)
     = GetCoinbaseTransaction "miner" (Index (Fields block1_miner))
       :: txPool (@initialState RefLib)
  /\ blockchain stateAfterBlock1 = blockchain (@initialState RefLib) ++ [block1_miner].
Proof.
  assert (Hrun : @ProduceNextBlock RefLib RefWallet 1 1000 1020 (@initialState RefLib)
                 = Some (Some (stateAfterBlock1, block1_miner, None)))
    by (vm_compute; reflexivity).
  assert (Haddress : @GetBase58Address RefLib RefWallet = Some "miner")
    by (vm_compute; reflexivity).
  split; [exact Hrun |]. split; [exact Haddress |].
  destruct (@ProduceNextBlock_spec RefLib RefWallet _ _ _ _ _ _ _ Hrun)
    as (myAddress & Hmine & Hok & _).
  rewrite Haddress in Hmine. injection Hmine as <-.
  destruct (Hok eq_refl) as (Hdata & Hchain & _).
  split; [exact Hdata | exact Hchain].
Defined.

(** ** Validation block by block and validation of a whole chain *)

Section Revalidation.
Context `{GoLib}.

Lemma timestampIsInvalid_later now now' p b :
  uint64_wrap now <= uint64_wrap now' ->
  timestampIsInvalid now p b = false -> timestampIsInvalid now' p b = false.
Proof.
  unfold timestampIsInvalid. intros Hlater.
  destruct (negb _); [| done]. cbn [andb].
  destruct (Ts (Fields b) <=? _); [done |]. cbn [orb].
  destruct (Z.leb_spec (uint64_wrap now) (uint64_wrap (Ts (Fields b) - 60)));
    [discriminate |].
  intros _. apply Z.leb_gt. lia.
Qed.

Lemma getDifficulty_extend (chain ext : list Block) p difficulty :
  getDifficulty chain p = Some difficulty ->
  getDifficulty (chain ++ ext) p = Some difficulty.
Proof.
  unfold getDifficulty. destruct (_ && _); [| done].
  unfold getAdjustedDifficulty. destruct (_ <? _); [done |].
  unfold index. destruct (_ <? 0); [done |].
  destruct (chain !! _) as [prevAdjustmentBlock |] eqn:Hprev; [| discriminate].
  by rewrite (lookup_app_l_Some _ _ _ _ Hprev).
Qed.

Lemma IsValidBlock_later now now' (chain ext : list Block) p b :
  uint64_wrap now <= uint64_wrap now' ->
  IsValidBlock now chain p b = Some true ->
  IsValidBlock now' (chain ++ ext) p b = Some true.
Proof.
  intros Hlater. rewrite !IsValidBlock_true.
  intros (Hsucc & Hprev & Hhash & Hts & required & requiredPrefix & Hreq & Heq & Hmatch).
  repeat (split; [done |]).
  split; [by apply (timestampIsInvalid_later now) |].
  exists required, requiredPrefix. split; [by apply getDifficulty_extend | done].
Qed.

Lemma IsValidBlockChain_loop_later clock clock' (chain ext : list Block) rest :
  (forall k, uint64_wrap (clock k) <= uint64_wrap (clock' k)) ->
  forall n prev U0 U,
    IsValidBlockChain_loop clock chain n prev rest U0 = Some (U, None) ->
    IsValidBlockChain_loop clock' (chain ++ ext) n prev rest U0 = Some (U, None).
Proof.
  intros Hlater. induction rest as [| x rest IH]; intros n prev U0 U Hloop; [exact Hloop |].
  cbn [IsValidBlockChain_loop] in *.
  destruct prev as [p |].
  - destruct (IsValidBlock (clock n) chain p x) as [[|] |] eqn:Hvalid;
      cbn [mbind option_bind negb] in Hloop; try discriminate Hloop.
    rewrite (IsValidBlock_later _ _ _ ext _ _ (Hlater n) Hvalid).
    cbn [mbind option_bind negb].
    destruct (ProcessTransactions _ _ _) as [retValue [e |]]; [discriminate Hloop |].
    by apply IH.
  - cbn [mbind option_bind negb] in *.
    destruct (ProcessTransactions _ _ _) as [retValue [e |]]; [discriminate Hloop |].
    by apply IH.
Qed.

Lemma IsValidBlockChain_loop_snoc clock (chain : list Block) rest b : forall n prev U0 U U',
  IsValidBlockChain_loop clock chain n prev rest U0 = Some (U, None) ->
  (forall p, last (option_list prev ++ rest) = Some p ->
     IsValidBlock (clock (n + length rest)%nat) chain p b = Some true) ->
  ProcessTransactions (Transactions (Fields b)) U (Index (Fields b)) = (U', None) ->
  IsValidBlockChain_loop clock chain n prev (rest ++ [b]) U0 = Some (U', None).
Proof.
  induction rest as [| x rest IH]; intros n prev U0 U U' Hloop Hvalid Htxs.
  - injection Hloop as <-. cbn [app IsValidBlockChain_loop].
    destruct prev as [p |].
    + specialize (Hvalid p eq_refl). cbn [length] in Hvalid.
      rewrite Nat.add_0_r in Hvalid. rewrite Hvalid. cbn [mbind option_bind negb].
      by rewrite Htxs.
    + cbn [mbind option_bind negb]. by rewrite Htxs.
  - cbn [app IsValidBlockChain_loop] in *.
    destruct (match prev with
              | Some p => IsValidBlock (clock n) chain p x
              | None => Some true
              end) as [[|] |]; cbn [mbind option_bind negb] in *; try discriminate Hloop.
    destruct (ProcessTransactions (Transactions (Fields x)) U0 (Index (Fields x)))
      as [retValue [e |]]; [discriminate Hloop |].
    apply (IH _ _ _ _ _ Hloop); [| exact Htxs].
    intros p Hp. replace (S n + length rest)%nat with (n + length (x :: rest))%nat
      by (simpl; lia).
    apply Hvalid. destruct prev as [q |]; exact Hp.
Qed.

(** X27 ([AddBlockToChain] against [IsValidBlockChain]).  Suppose the chain
    and the unspent outputs of a node are what [IsValidBlockChain] accepts
    and returns.  After [AddBlockToChain] has appended a block this is
    still so, for every validator whose clock readings are not behind the
    ones used so far: validating block by block and validating the whole
    chain agree. *)
Theorem AddBlockToChain_revalidates (clock clock' : nat -> Z) (now : Z) (st st' : State)
    (newBlock : Block) :
  IsValidBlockChain clock (blockchain st) = Some (unspentTxOuts st, None) ->
  AddBlockToChain now st newBlock = Some (st', true) ->
  (forall k, uint64_wrap (clock k) <= uint64_wrap (clock' k)) ->
  uint64_wrap now <= uint64_wrap (clock' (length (blockchain st))) ->
  IsValidBlockChain clock' (blockchain st') = Some (unspentTxOuts st', None).
Proof.
  intros Hchain Hadd Hlater Hnow.
  apply AddBlockToChain_cases in Hadd
    as [[Hadded _] | [_ (latest & Hlast & Hvalid & Htxs & ->)]]; [discriminate Hadded |].
  cbn [blockchain unspentTxOuts].
  unfold IsValidBlockChain in *.
  destruct (blockchain st !! 0%nat) as [first |] eqn:Hfirst; [| discriminate Hchain].
  rewrite (lookup_app_l_Some _ _ _ _ Hfirst).
  cbn [mbind option_bind] in *.
  destruct (bool_decide _); cbn [negb] in *; [| discriminate Hchain].
  apply (IsValidBlockChain_loop_snoc _ _ _ _ _ _ _ (unspentTxOuts st)).
  - apply (IsValidBlockChain_loop_later clock); [exact Hlater | exact Hchain].
  - intros p Hp. change (last (blockchain st) = Some p) in Hp.
    rewrite Hlast in Hp. injection Hp as <-.
    cbn [Nat.add]. by apply (IsValidBlock_later now).
  - by rewrite ProcessTransactions_eq, Htxs.
Qed.

End Revalidation.

Lemma AddBlockToChain_revalidates_witness :
  @IsValidBlockChain RefLib clock1020 (blockchain stateAfterBlock1)
  = Some (unspentTxOuts stateAfterBlock1, None).
Proof.
  apply (@AddBlockToChain_revalidates RefLib clock1020 clock1020 1020
           (@initialState RefLib) stateAfterBlock1 block1_miner).
  - vm_compute. reflexivity.
  - vm_compute. reflexivity.
  - intros k. lia.
  - vm_compute. discriminate.
Defined.

(** ** The balance of the wallet *)

Section BalanceFacts.
Context `{GoLib} `{WalletLib}.

(** X29 ([GetAccountBalance], [GetBalance], [getMyUnspentTransactionOutputs]
    against [CreateTransaction]).  [GetAccountBalance] and
    [getMyUnspentTransactionOutputs] panic exactly when
    [utils.GetPublicKey] panics on the content of the key file.  Otherwise
    the balance is the sum, from the left, of the amounts of the unspent
    outputs of the wallet's address, whatever the pool holds.  When
    moreover the pool is empty, the wallet owns an unspent output and the
    balance covers the amount, [CreateTransaction] finds inputs: the
    transaction has at least one input and the left-over is what the
    chosen outputs exceed the amount by. *)
Theorem GetAccountBalance_covers (st : State) (base58Address : string) (amount : float) :
  (GetAccountBalance st = None <-> GetPublicKey GetPrivateFromWallet = None)
  /\ (getMyUnspentTransactionOutputs st = None
      <-> GetPublicKey GetPrivateFromWallet = None)
  /\ (forall myAddress,
        GetBase58Address = Some myAddress ->
        let mine := filter (fun u => UAddress u = myAddress) (unspentTxOuts st) in
        getMyUnspentTransactionOutputs st = Some mine
        /\ GetAccountBalance st = Some (floatSum mine)
        /\ (txPool st = [] ->
            mine <> [] ->
            (amount <=? floatSum mine)%float = true ->
            exists tx included,
              CreateTransaction base58Address amount (unspentTxOuts st) (txPool st)
              = Some tx
              /\ FindTxOutsForAmount amount mine
                 = (included, (floatSum included - amount)%float, None)
              /\ included <> []
              /\ txInKey <$> TxIns tx = utxoKey <$> included
              /\ (amount <=? floatSum included)%float = true)).
Proof.
  split.
  { unfold GetAccountBalance, GetBase58Address.
    destruct (GetPublicKey GetPrivateFromWallet); cbn [mbind option_bind]; done. }
  split.
  { unfold getMyUnspentTransactionOutputs, GetBase58Address.
    destruct (GetPublicKey GetPrivateFromWallet); cbn [mbind option_bind]; done. }
  intros myAddress Haddress mine.
  unfold GetAccountBalance, GetBalance, getMyUnspentTransactionOutputs.
  rewrite Haddress. cbn [mbind option_bind].
  rewrite FindUnspentTxOuts_filter. fold mine. fold (floatSum mine).
  split; [reflexivity |]. split; [reflexivity |].
  intros Hpool Hmine Hcovers.
  assert (Hspendable : spendable myAddress (unspentTxOuts st) (txPool st) = mine).
  { rewrite Hpool. unfold spendable. apply filter_ext_in. intros u _.
    split; [by intros [Hu _] | intros Hu; split; [exact Hu |]].
    intros Hin. by apply elem_of_nil in Hin. }
  destruct (CreateTransaction_outcome base58Address amount (unspentTxOuts st) (txPool st)
              myAddress Haddress)
    as (tx & included & leftOverAmount & err & Hcreate & Hfind & Hins & _).
  rewrite Hspendable in Hfind.
  destruct (FindTxOutsForAmount_loop_spec amount mine [])
    as [(k & Hk & Hrun & Hreached & _) | [_ Hnone]]; cbn [app] in *.
  - change (FindTxOutsForAmount amount mine
            = (take (S k) mine, (floatSum (take (S k) mine) - amount)%float, None)) in Hrun.
    rewrite Hrun in Hfind. injection Hfind as <- <- <-.
    exists tx, (take (S k) mine). split; [exact Hcreate |]. split; [exact Hrun |].
    split; [| split; [exact Hins | exact Hreached]].
    destruct mine; [simpl in Hk; lia | discriminate].
  - exfalso. destruct mine as [| u mine'] eqn:Hlist; [by apply Hmine |].
    specialize (Hnone (length mine') ltac:(simpl; lia)).
    rewrite take_ge in Hnone by (simpl; lia). congruence.
Qed.

End BalanceFacts.

Lemma GetAccountBalance_covers_witness :
  @GetBase58Address RefLib RefWallet = Some "miner"
  /\ @GetAccountBalance RefLib RefWallet stateAfterBlock1 = Some 50%float
  /\ @GetAccountBalance RefCrypto RefWalletLineFeed stateAfterBlock1 = None
  /\ exists tx included,
       @CreateTransaction RefLib RefWallet "other" 30 (unspentTxOuts stateAfterBlock1)
         (txPool stateAfterBlock1) = Some tx
       /\ included <> []
       /\ txInKey <$> TxIns tx = utxoKey <$> included
       /\ (30 <=? floatSum included)%float = true.
Proof.
  assert (Haddress : @GetBase58Address RefLib RefWallet = Some "miner")
    by (vm_compute; reflexivity).
  split; [exact Haddress |].
  destruct (@GetAccountBalance_covers RefLib RefWallet stateAfterBlock1 "other" 30)
    as (_ & _ & Hmine).
  destruct (Hmine "miner" Haddress) as (_ & Hbalance & Hcreate).
  split; [rewrite Hbalance; vm_compute; reflexivity |].
  split.
  { apply (proj1 (@GetAccountBalance_covers RefCrypto RefWalletLineFeed
                    stateAfterBlock1 "other" 30)).
    vm_compute. reflexivity. }
  destruct Hcreate as (tx & included & Hcreate & _ & Hne & Hins & Hreached).
  - reflexivity.
  - vm_compute. discriminate.
  - vm_compute. reflexivity.
  - exists tx, included. by repeat split.
Defined.
